(** * bazel-remote-tiered-cache: the caching transport and the S3 director

    A shallow embedding of [main.go] (the caching round tripper, the
    end-of-stream tee, the wiring done by [main]) and of [s3.go] (the key
    computation and the presigning director), with the properties of the
    design document stated and proved over it.

    Go values are rendered as follows.  A [string] is a [String.string];
    a [[]byte] is a [list byte]; [int64] is a [Z] with the wrap-around
    written out; the on-disk cache is a [gmap string (list byte)]; a
    function that can return, panic or call [log.Fatal] returns an
    [Outcome].  The functions of the Go standard library and of the AWS
    and retry packages that the program calls are Variables of the
    sections below: the theorems hold for every implementation of them.
    For the round trip through the cache, [httputil.DumpResponse] and
    [http.ReadResponse] are embedded as well, on the bytes of the
    wire. *)

From Stdlib Require Import ZArith String Ascii List Bool Lia.
From Stdlib.Strings Require Import Byte.
From stdpp Require Import base option list gmap strings sorting.

Local Open Scope string_scope.
Local Open Scope list_scope.
Local Open Scope Z_scope.

(** ** Go strings *)

Module strings.

(** [strings.Trim(s, cutset)] for a cutset of ASCII bytes: the leading
    and the trailing bytes that occur in [cutset] are removed. *)
Definition inCutset (cutset : string) (a : ascii) : bool :=
  existsb (Ascii.eqb a) (list_ascii_of_string cutset).

Fixpoint TrimLeft (s cutset : string) : string :=
  match s with
  | EmptyString => EmptyString
  | String a s' => if inCutset cutset a then TrimLeft s' cutset else s
  end.

Fixpoint TrimRight (s cutset : string) : string :=
  match s with
  | EmptyString => EmptyString
  | String a s' =>
      match TrimRight s' cutset with
      | EmptyString => if inCutset cutset a then EmptyString else String a EmptyString
      | t => String a t
      end
  end.

Definition Trim (s cutset : string) : string :=
  TrimLeft (TrimRight s cutset) cutset.

(** [strings.HasPrefix]. *)
Definition HasPrefix (s p : string) : bool := String.prefix p s.

(** Every byte of [s] is in the cutset. *)
Fixpoint allIn (cutset s : string) : bool :=
  match s with
  | EmptyString => true
  | String a s' => inCutset cutset a && allIn cutset s'
  end.

Definition first (s : string) : option ascii :=
  match s with EmptyString => None | String a _ => Some a end.

Fixpoint last (s : string) : option ascii :=
  match s with
  | EmptyString => None
  | String a EmptyString => Some a
  | String _ s' => last s'
  end.

Definition notInCutset (cutset : string) (o : option ascii) : bool :=
  match o with None => true | Some a => negb (inCutset cutset a) end.

End strings.

(** ** s3.go: the effective key *)

Definition effectiveKey (prefix userPath : string) : string :=
  let userPath := strings.Trim userPath "/" in
  if String.eqb prefix "" then userPath
  else if String.eqb userPath "" then prefix
  else prefix +:+ "/" +:+ userPath.

(** The key as the design document words it: the prefix and the trimmed
    path joined with the separator, an empty component contributing
    nothing. *)
Definition joinNonEmpty (sep : string) (parts : list string) : string :=
  String.concat sep (List.filter (fun s => negb (String.eqb s "")) parts).

Definition spec_effectiveKey (prefix path : string) : string :=
  joinNonEmpty "/" [prefix; strings.Trim path "/"].

(** ** Control flow and errors *)

(** A Go [error] value; [io.EOF] is told apart from every other one
    because the tee compares against it. *)
Inductive error : Type :=
| io_EOF
| errorString (msg : string).

Definition isEOF (err : option error) : bool :=
  match err with Some io_EOF => true | _ => false end.

(** How a call ends: it returns, it panics (the goroutine unwinds and its
    deferred functions run), or it calls [log.Fatal], which prints and
    then ends the whole process with [os.Exit(1)]. *)
Inductive Outcome (A : Type) : Type :=
| Returned (a : A)
| Panicked (msg : string)
| Exited (msg : string).
Arguments Returned {A} a.
Arguments Panicked {A} msg.
Arguments Exited {A} msg.

Definition processAlive {A} (o : Outcome A) : bool :=
  match o with Exited _ => false | _ => true end.

(** ** int64 and time *)

Definition wrap64 (z : Z) : Z := (z + 2^63) mod 2^64 - 2^63.

Module time.
(** A [time.Duration] is an int64 count of nanoseconds; an instant is
    its count of nanoseconds since the epoch, taken as an unbounded
    integer. *)
Definition Millisecond : Z := 1000000.
Definition Second : Z := 1000000000.
Definition Minute : Z := 60 * Second.
(** [time.Duration(n) * time.Minute], an int64 product. *)
Definition minutes (n : Z) : Z := wrap64 (n * Minute).
Definition Add (t d : Z) : Z := t + d.
Definition Before (t u : Z) : bool := t <? u.
End time.

(** ** net/url and net/http values *)

Module url.
Record URL : Type := { Scheme : string; Host : string; Path : string; RawQuery : string }.
End url.

Module http.
Definition MethodGet : string := "GET".
Definition MethodPut : string := "PUT".
Definition StatusOK : Z := 200.

(** [URL] is a pointer in Go and may be nil. *)
Record Request : Type :=
  { Method : string; URL : option url.URL; Host : string }.

(** [map[string][]string] *)
Abbreviation Header := (gmap string (list string)).

(** A response whose body has type [B]. *)
Record Response (B : Type) : Type :=
  { Status : string; StatusCode : Z; Header_ : Header; Body : B }.
Arguments Status {B} r.
Arguments StatusCode {B} r.
Arguments Header_ {B} r.
Arguments Body {B} r.

Definition withBody {A B} (r : Response A) (b : B) : Response B :=
  {| Status := Status r; StatusCode := StatusCode r;
     Header_ := Header_ r; Body := b |}.

(** Indexing a map of slices: a missing key gives the nil slice. *)
Definition index (h : Header) (k : string) : list string :=
  default [] (h !! k).
End http.

(** ** io.ReadCloser *)

(** A readable stream with state [T].  [Read s n] stands for a call of
    [Read(p)] with [len(p) = n]: it gives the bytes [p[:n']] that were
    filled in, the error, and the stream afterwards. *)
Class ReadCloser (T : Type) : Type :=
  { io_Read : T -> nat -> list byte * option error * T;
    io_Close : T -> option error * T }.

(** A stream over a byte slice that ends with the error [final] once the
    slice is used up.  With [final = io.EOF] this is [bytes.Reader]. *)
Record sliceReader : Type := { remaining : list byte; final : error }.

Definition sliceReader_Read (r : sliceReader) (n : nat)
  : list byte * option error * sliceReader :=
  match remaining r with
  | [] => ([], Some (final r), r)
  | _ => (take n (remaining r), None,
          {| remaining := drop n (remaining r); final := final r |})
  end.

#[export] Instance sliceReader_ReadCloser : ReadCloser sliceReader :=
  {| io_Read := sliceReader_Read; io_Close := fun r => (None, r) |}.

Definition bytes_NewReader (b : list byte) : sliceReader :=
  {| remaining := b; final := io_EOF |}.

Definition slice (data : list byte) (e : error) : sliceReader :=
  {| remaining := data; final := e |}.

(** ** main.go: cachingReadCloser *)

Section Tee.
Context {W T : Type} `{ReadCloser T}.

(** [W] is the state the [OnEOF] closure can reach. *)
Record cachingReadCloser : Type :=
  { R : T;
    OnEOF : list byte -> W -> W;
    buf : list byte }.

Definition cachingReadCloser_Read (r : cachingReadCloser) (len_p : nat) (w : W)
  : list byte * option error * cachingReadCloser * W :=
  let '(p_n, err, R') := io_Read (R r) len_p in
  let buf' := buf r ++ p_n in
  let w' := if isEOF err then OnEOF r buf' w else w in
  (p_n, err, {| R := R'; OnEOF := OnEOF r; buf := buf' |}, w').

Definition cachingReadCloser_Close (r : cachingReadCloser)
  : option error * cachingReadCloser :=
  let '(err, R') := io_Close (R r) in
  (err, {| R := R'; OnEOF := OnEOF r; buf := buf r |}).

(** Reads of the given sizes, one after the other, whatever they
    return. *)
Fixpoint reads (r : cachingReadCloser) (sizes : list nat) (w : W)
  : list (list byte * option error) * cachingReadCloser * W :=
  match sizes with
  | [] => ([], r, w)
  | n :: sizes' =>
      let '(b, err, r1, w1) := cachingReadCloser_Read r n w in
      let '(tr, r2, w2) := reads r1 sizes' w1 in
      ((b, err) :: tr, r2, w2)
  end.

(** A copy loop: reads of the given sizes until the first one that
    returns an error, end-of-data included. *)
Fixpoint drain (r : cachingReadCloser) (sizes : list nat) (w : W)
  : list (list byte * option error) * cachingReadCloser * W :=
  match sizes with
  | [] => ([], r, w)
  | n :: sizes' =>
      let '(b, err, r1, w1) := cachingReadCloser_Read r n w in
      match err with
      | Some _ => ([(b, err)], r1, w1)
      | None =>
          let '(tr, r2, w2) := drain r1 sizes' w1 in
          ((b, err) :: tr, r2, w2)
      end
  end.

(** What a caller may do with a body, in any order. *)
Inductive Op : Type := opRead (len_p : nat) | opClose.

Fixpoint runOps (r : cachingReadCloser) (ops : list Op) (w : W)
  : cachingReadCloser * W :=
  match ops with
  | [] => (r, w)
  | opRead n :: ops' =>
      let '(_, _, r1, w1) := cachingReadCloser_Read r n w in
      runOps r1 ops' w1
  | opClose :: ops' =>
      let '(_, r1) := cachingReadCloser_Close r in
      runOps r1 ops' w
  end.

(** The same on the wrapped stream alone. *)
Fixpoint readsR (s : T) (sizes : list nat)
  : list (list byte * option error) * T :=
  match sizes with
  | [] => ([], s)
  | n :: sizes' =>
      let '(b, err, s1) := io_Read s n in
      let '(tr, s2) := readsR s1 sizes' in
      ((b, err) :: tr, s2)
  end.

Fixpoint drainR (s : T) (sizes : list nat)
  : list (list byte * option error) * T :=
  match sizes with
  | [] => ([], s)
  | n :: sizes' =>
      let '(b, err, s1) := io_Read s n in
      match err with
      | Some _ => ([(b, err)], s1)
      | None => let '(tr, s2) := drainR s1 sizes' in ((b, err) :: tr, s2)
      end
  end.

(** No read among [ops] gets [io.EOF] from the wrapped stream. *)
Fixpoint noEOFRead (s : T) (ops : list Op) : bool :=
  match ops with
  | [] => true
  | opRead n :: ops' =>
      let '(_, err, s1) := io_Read s n in
      negb (isEOF err) && noEOFRead s1 ops'
  | opClose :: ops' =>
      let '(_, s1) := io_Close s in noEOFRead s1 ops'
  end.

(** The callback run on each of [calls] in turn. *)
Definition applyCalls (r : cachingReadCloser) (calls : list (list byte)) (w : W)
  : W :=
  fold_left (fun w b => OnEOF r b w) calls w.

(** The tee after the reads of a trace that leave the stream at [s]. *)
Definition after (r : cachingReadCloser) (s : T)
    (tr : list (list byte * option error)) : cachingReadCloser :=
  {| R := s; OnEOF := OnEOF r; buf := buf r ++ concat (map fst tr) |}.
End Tee.
Arguments cachingReadCloser W T : clear implicits.

(** The contents handed to [OnEOF], in order, for a trace of read
    results: at each result that carries [io.EOF], everything read so
    far. *)
Fixpoint eofSnapshots (acc : list byte) (tr : list (list byte * option error))
  : list (list byte) :=
  match tr with
  | [] => []
  | (b, err) :: tr' =>
      (if isEOF err then [acc ++ b] else []) ++ eofSnapshots (acc ++ b) tr'
  end.

Definition traceBytes (tr : list (list byte * option error)) : list byte :=
  concat (map fst tr).

Definition eofCount (tr : list (list byte * option error)) : nat :=
  length (List.filter (fun x => isEOF (snd x)) tr).

Definition lastError (tr : list (list byte * option error)) : option error :=
  match List.last tr ([], None) with (_, err) => err end.

(** A callback that only records its argument. *)
Definition recordCall (b : list byte) (calls : list (list byte)) : list (list byte) :=
  calls ++ [b].

Definition newTee {T} (s : T) : cachingReadCloser (list (list byte)) T :=
  {| R := s; OnEOF := recordCall; buf := [] |}.

(** ** main.go: flags, the process state *)

Record Flags : Type :=
  { bind : string;
    backend : string;
    cacheDir : string;
    cacheSize : Z;
    cacheRefreshDelay : Z;
    allowWrites : bool;
    maxRetries : Z }.

(** The flag defaults of [main.go]. *)
Definition defaultFlags : Flags :=
  {| bind := "127.0.0.1:7643"; backend := ""; cacheDir := ""; cacheSize := 5;
     cacheRefreshDelay := 60; allowWrites := false; maxRetries := 1 |}.

(** A line written by the [log] package: the record that the deferred
    function of [RoundTrip] prints ([status] is empty when there is no
    response), or the message of a [log.Fatalf]. *)
Inductive LogEntry : Type :=
| Audit (logAction : string) (status : option Z) (host method path : string)
| Fatal (msg : string).

(** What the process can change: the entries of the cache directory, the
    requests handed to [Transport.RoundTrip] so far, the log, and the
    standard output. *)
Record World : Type :=
  { cache : gmap string (list byte);
    calls : list http.Request;
    logs : list LogEntry;
    stdout : list string }.

Definition Cache_Set (w : World) (key : string) (val : list byte) : World :=
  {| cache := <[key := val]> (cache w); calls := calls w;
     logs := logs w; stdout := stdout w |}.

Definition Cache_Delete (w : World) (key : string) : World :=
  {| cache := delete key (cache w); calls := calls w;
     logs := logs w; stdout := stdout w |}.

Definition log_Print (w : World) (e : LogEntry) : World :=
  {| cache := cache w; calls := calls w;
     logs := logs w ++ [e]; stdout := stdout w |}.

Definition fmt_Printf (w : World) (s : string) : World :=
  {| cache := cache w; calls := calls w;
     logs := logs w; stdout := stdout w ++ [s] |}.

Definition called (w : World) (req : http.Request) : World :=
  {| cache := cache w; calls := calls w ++ [req];
     logs := logs w; stdout := stdout w |}.

(** The non-nil value of the [Cache] field: a disk cache rooted at a
    directory, whose entries are the [cache] of the [World]. *)
Inductive httpcache_Cache : Type := diskcache (basePath : string) (cacheSizeMax : Z).

Definition CR : ascii := ascii_of_nat 13.
Definition LF : ascii := ascii_of_nat 10.
Definition CRLF : string := String CR (String LF "").

(** The text given to [braw.WriteString] in [newDroppedResponse]. *)
Definition droppedRaw : string := "HTTP/1.1 405 Method Not Allowed" +:+ CRLF +:+ CRLF.

(** ** main.go: the caching transport *)

Section CachingTransport.
(** The body stream of a backend response. *)
Context {RState : Type} `{ReadCloser RState}.

(** [http.ReadResponse] over a buffer holding the given bytes: the
    response, its [Body] being the body bytes it will deliver, or an
    error. *)
Variable ReadResponse :
  list byte -> http.Request -> http.Response (list byte) + error.
(** [httputil.DumpResponse(resp, body)] for a response whose body
    delivers the given bytes. *)
Variable DumpResponse :
  http.Response (list byte) -> bool -> list byte + error.
(** [http.ParseTime]: the instant, in nanoseconds. *)
Variable ParseTime : string -> Z + error.

Variable flags : Flags.

(** An [http.RoundTripper]: the answer to a request, which may depend
    on how many requests were made before. *)
Definition RoundTripper : Type :=
  http.Request -> nat -> http.Response RState + error.

Record cachingTransport : Type :=
  { Transport : RoundTripper;
    Cache : option httpcache_Cache }.

(** What the [OnEOF] closure built by [RoundTrip] reaches through its
    captured variables: the response struct behind the pointer [resp]
    (without its body) and, through [t.Cache], the cache. *)
Record Env : Type :=
  { captured : http.Response unit;
    world : World }.

(** The body of a response returned by [RoundTrip]. *)
Inductive Body : Type :=
| bufferedBody (content : list byte)
| streamBody (s : RState)
| cachingBody (c : cachingReadCloser Env RState).

Definition cachedResponse (c : gmap string (list byte)) (cacheKey : string)
    (req : http.Request)
  : option (http.Response (list byte)) * option error :=
  match c !! cacheKey with
  | None => (None, None)
  | Some cachedVal =>
      match ReadResponse cachedVal req with
      | inl resp => (Some resp, None)
      | inr err => (None, Some err)
      end
  end.

Definition newDroppedResponse (req : http.Request)
  : Outcome (http.Response (list byte)) :=
  match ReadResponse (list_byte_of_string droppedRaw) req with
  | inl resp => Returned resp
  | inr (errorString msg) => Panicked msg
  | inr io_EOF => Panicked "EOF"
  end.

(** The closure [OnEOF] of [RoundTrip]: copy the response struct, give
    the copy the bytes read as its body, dump it, and store the dump
    unless dumping failed. *)
Definition commitOnEOF (cacheKey : string) (r : list byte) (env : Env) : Env :=
  let resp := http.withBody (captured env) r in
  match DumpResponse resp true with
  | inl respBytes =>
      {| captured := captured env;
         world := Cache_Set (world env) cacheKey respBytes |}
  | inr _ => env
  end.

(** The deferred function of [RoundTrip]. *)
Definition deferred {B} (u : url.URL) (req : http.Request) (logAction : string)
    (resp : option (http.Response B)) (err : option error) (w : World) : World :=
  let logAction := match err with Some _ => "ERROR" | None => logAction end in
  let status := http.StatusCode <$> resp in
  log_Print w (Audit logAction status (url.Host u) (http.Method req) (url.Path u)).

Definition Result : Type :=
  Outcome (option (http.Response Body) * option error) * World.

(** From [resp, err = t.Transport.RoundTrip(req)] to the end. *)
Definition fetch (t : cachingTransport) (u : url.URL) (req : http.Request)
    (doCache : bool) (cacheKey logAction : string) (w : World) : Result :=
  let earlier := length (calls w) in
  let w := called w req in
  match Transport t req earlier with
  | inl resp =>
      let body :=
        if doCache
        then cachingBody {| R := http.Body resp; OnEOF := commitOnEOF cacheKey; buf := [] |}
        else streamBody (http.Body resp) in
      let resp := http.withBody resp body in
      (Returned (Some resp, None), deferred u req logAction (Some resp) None w)
  | inr err =>
      (Returned (None, Some err),
       deferred u req logAction (@None (http.Response Body)) (Some err) w)
  end.

Definition RoundTrip (t : cachingTransport) (req : http.Request) (now : Z)
    (w : World) : Result :=
  match http.URL req with
  | None => (Panicked "invalid memory address or nil pointer dereference", w)
  | Some u =>
    let cacheKey := url.Path u in
    let doCache := String.eqb (http.Method req) http.MethodGet
                   && bool_decide (is_Some (Cache t)) in
    if doCache then
      match cachedResponse (cache w) cacheKey req with
      | (_, Some err) =>
          fetch t u req doCache cacheKey ""
                (fmt_Printf w "Failed to read cached response")
      | (Some resp, None) =>
          match http.index (http.Header_ resp) "Date" !! 0%nat with
          | None =>
              (Panicked "index out of range",
               deferred u req "" (Some resp) None w)
          | Some date =>
              match ParseTime date with
              | inr err =>
                  (Exited "Failed to parse cached request Date",
                   log_Print w (Fatal "Failed to parse cached request Date"))
              | inl cachedAt =>
                  let old :=
                    time.Before
                      (time.Add cachedAt (time.minutes (cacheRefreshDelay flags)))
                      now in
                  if (http.StatusCode resp =? http.StatusOK) || negb old then
                    let resp := http.withBody resp (bufferedBody (http.Body resp)) in
                    (Returned (Some resp, None),
                     deferred u req "CACHE_HIT" (Some resp) None w)
                  else
                    fetch t u req doCache cacheKey "CACHE_REFRESH"
                          (Cache_Delete w cacheKey)
              end
          end
      | (None, None) =>
          fetch t u req doCache cacheKey "CACHE_MISS" w
      end
    else if (String.eqb (http.Method req) http.MethodPut && allowWrites flags)
            || String.eqb (http.Method req) http.MethodGet then
      fetch t u req doCache cacheKey "PASSTHROUGH" w
    else
      match newDroppedResponse req with
      | Returned resp =>
          let resp := http.withBody resp (bufferedBody (http.Body resp)) in
          (Returned (Some resp, None), deferred u req "DROP" (Some resp) None w)
      | Panicked msg =>
          (Panicked msg,
           deferred u req "DROP" (@None (http.Response Body)) None w)
      | Exited msg => (Exited msg, w)
      end
  end.

(** The response of a hit: the stored response as it was parsed. *)
Definition served (resp : http.Response (list byte)) : http.Response Body :=
  http.withBody resp (bufferedBody (http.Body resp)).

(** The response of a fetch for a cacheable request. *)
Definition teed (cacheKey : string) (r : http.Response RState)
  : http.Response Body :=
  http.withBody r
    (cachingBody {| R := http.Body r; OnEOF := commitOnEOF cacheKey; buf := [] |}).

Definition audit (u : url.URL) (req : http.Request) (logAction : string)
    (status : option Z) : LogEntry :=
  Audit logAction status (url.Host u) (http.Method req) (url.Path u).

(** The caller copies the body of a returned response: reads of the
    given sizes until the first error.  The closure of a caching body
    sees the response struct as it is when the read happens. *)
Definition copyBody (resp : http.Response Body) (sizes : list nat) (w : World)
  : list (list byte * option error) * http.Response Body * World :=
  match http.Body resp with
  | cachingBody c =>
      let '(tr, c', env) :=
        drain c sizes {| captured := http.withBody resp tt; world := w |} in
      (tr, http.withBody resp (cachingBody c'), world env)
  | streamBody s =>
      let '(tr, s') := drainR s sizes in
      (tr, http.withBody resp (streamBody s'), w)
  | bufferedBody b =>
      let '(tr, s') := drainR (bytes_NewReader b) sizes in
      (tr, http.withBody resp (bufferedBody (remaining s')), w)
  end.

(** Any reads and closes on the body of a returned response. *)
Definition useBody (resp : http.Response Body) (ops : list Op) (w : World)
  : World :=
  match http.Body resp with
  | cachingBody c =>
      world (snd (runOps c ops {| captured := http.withBody resp tt; world := w |}))
  | _ => w
  end.
End CachingTransport.

Arguments cachingTransport RState : clear implicits.
Arguments RoundTripper RState : clear implicits.
Arguments Body RState : clear implicits.

(** ** s3.go: the director *)

Inductive S3Operation : Type := GetObject | PutObject.

(** The [request.Request] built by [GetObjectRequest] or
    [PutObjectRequest]. *)
Record S3Request : Type :=
  { Operation : S3Operation; Bucket : string; Key : string }.

Record s3Director : Type :=
  { bucket : string;
    prefix : string }.

Section S3Director.
(** [s3Req.Presign(expire)] on the client [s3Svc] of the director. *)
Variable Presign : S3Request -> Z -> string + error.
(** [url.Parse]. *)
Variable url_Parse : string -> url.URL + error.

(** The [switch] of [Direct]: the S3 request for the method, if the
    method is one of the two. *)
Definition s3Request (s : s3Director) (method key : string) : option S3Request :=
  if String.eqb method http.MethodGet then
    Some {| Operation := GetObject; Bucket := bucket s; Key := key |}
  else if String.eqb method http.MethodPut then
    Some {| Operation := PutObject; Bucket := bucket s; Key := key |}
  else None.

(** [Direct] changes the request in place; the request afterwards is
    what it returns here. *)
Definition Direct (s : s3Director) (r : http.Request) : Outcome http.Request :=
  match http.URL r with
  | None => Panicked "invalid memory address or nil pointer dereference"
  | Some u =>
    let key := effectiveKey (prefix s) (url.Path u) in
    match s3Request s (http.Method r) key with
    | None => Exited "Unsupported method: %s"
    | Some s3Req =>
        match Presign s3Req (10 * time.Minute) with
        | inr err => Exited "Presign failed (%v) for request %+v"
        | inl purl =>
            Returned
              {| http.Method := http.Method r;
                 http.URL := match url_Parse purl with
                             | inl u' => Some u'
                             | inr _ => None
                             end;
                 http.Host := "" |}
        end
    end
  end.

Definition newS3Director (u : url.URL) : s3Director :=
  {| bucket := url.Host u; prefix := strings.Trim (url.Path u) "/" |}.
End S3Director.

(** ** main.go: main *)

Inductive Director : Type :=
| s3Direct (d : s3Director)
| singleHostReverseProxy (target : url.URL).

Section Main.
Context {RState : Type}.
Variable http_DefaultTransport : RoundTripper RState.
(** [rehttp.NewTransport(rt, rehttp.RetryMaxRetries(n),
    rehttp.ExpJitterDelay(500ms, 10s))]. *)
Variable rehttp_NewTransport : RoundTripper RState -> Z -> RoundTripper RState.
Variable url_Parse : string -> url.URL + error.

(** The [http.Server] that [main] starts. *)
Record Server : Type :=
  { Addr : string;
    HandlerDirector : Director;
    HandlerTransport : cachingTransport RState }.

(** The variable [baseTransport] of [main] after the [if]. *)
Definition baseTransport (flags : Flags) : RoundTripper RState :=
  if maxRetries flags >? 1
  then rehttp_NewTransport http_DefaultTransport (maxRetries flags)
  else http_DefaultTransport.

(** [main] up to [ListenAndServe]: the server it builds, unless it
    stops before. *)
Definition main (flags : Flags) : Outcome Server :=
  if String.eqb (backend flags) "" then Exited "usage"
  else
    match url_Parse (backend flags) with
    | inr err => Exited "invalid uri: %v (%v)"
    | inl backendURL =>
        let director :=
          if String.eqb (url.Scheme backendURL) "s3"
          then s3Direct (newS3Director backendURL)
          else singleHostReverseProxy backendURL in
        let baseTransport := baseTransport flags in
        let cache :=
          if negb (String.eqb (cacheDir flags) "")
          then Some (diskcache (cacheDir flags)
                               ((cacheSize flags * 1024 * 1024 * 1024) mod 2^64))
          else None in
        let addr :=
          if strings.HasPrefix (bind flags) ":"
          then "127.0.0.1" +:+ bind flags else bind flags in
        Returned
          {| Addr := addr;
             HandlerDirector := director;
             HandlerTransport :=
               {| Cache := cache; Transport := http_DefaultTransport |} |}
    end.
End Main.

(** ** net/http on the wire

    [httputil.DumpResponse] and [http.ReadResponse] as the packages
    net/http, net/textproto and net/http/internal of Go 1.24 have them,
    over byte slices.  A response of this development carries the
    status, the headers and the body; the other fields of Go's
    [http.Response] that decide how it is written are a [Transfer].
    Trailers are left out: the [Trailer] of a response that is written
    is nil.  The reader gives the response as the caller finds it: its
    [Body] is what reading the body delivers before the end of data or
    an error. *)

Record Transfer : Type :=
  { ProtoMajor : Z;
    ProtoMinor : Z;
    ContentLength : Z;
    TransferEncoding : list string;
    Close : bool;
    Uncompressed : bool;
    (** the method of [resp.Request], empty without a request *)
    RequestMethod : string }.

Definition toBytes (s : string) : list byte := list_byte_of_string s.
Definition toString (b : list byte) : string := string_of_list_byte b.

(** *** Bytes and numbers *)

Definition isSpaceTab (c : byte) : bool := Byte.eqb c x20 || Byte.eqb c x09.
Definition isASCIISpace (c : byte) : bool :=
  Byte.eqb c x20 || Byte.eqb c x09 || Byte.eqb c x0a || Byte.eqb c x0d.

Fixpoint trimLeftB (p : byte -> bool) (s : list byte) : list byte :=
  match s with
  | [] => []
  | c :: s' => if p c then trimLeftB p s' else s
  end.

Fixpoint trimRightB (p : byte -> bool) (s : list byte) : list byte :=
  match s with
  | [] => []
  | c :: s' =>
      match trimRightB p s' with
      | [] => if p c then [] else [c]
      | t => c :: t
      end
  end.

Definition trimB (p : byte -> bool) (s : list byte) : list byte :=
  trimRightB p (trimLeftB p s).

(** [strings.Cut]/[bytes.Cut] at the first byte [sep]. *)
Fixpoint cutByte (sep : byte) (s : list byte) : option (list byte * list byte) :=
  match s with
  | [] => None
  | c :: s' =>
      if Byte.eqb c sep then Some ([], s')
      else match cutByte sep s' with
           | Some (l, r) => Some (c :: l, r)
           | None => None
           end
  end.

Fixpoint isPrefixB (p s : list byte) : bool :=
  match p, s with
  | [], _ => true
  | a :: p', b :: s' => Byte.eqb a b && isPrefixB p' s'
  | _ :: _, [] => false
  end.

(** [strings.TrimPrefix] *)
Definition trimPrefixB (p s : list byte) : list byte :=
  if isPrefixB p s then drop (length p) s else s.

Definition lowerB (c : byte) : byte :=
  let n := Byte.to_N c in
  if ((65 <=? n) && (n <=? 90))%N
  then default c (Byte.of_N (n + 32)) else c.

Definition upperB (c : byte) : byte :=
  let n := Byte.to_N c in
  if ((97 <=? n) && (n <=? 122))%N
  then default c (Byte.of_N (n - 32)) else c.

#[export] Instance byte_eq_dec : EqDecision byte := Byte.byte_eq_dec.

Definition eqBytes (a b : list byte) : bool :=
  bool_decide (a = b).

(** [ascii.EqualFold] *)
Definition equalFold (a b : list byte) : bool :=
  eqBytes (map lowerB a) (map lowerB b).

Definition digitByte (d : N) : byte :=
  match d with
  | 0 => x30 | 1 => x31 | 2 => x32 | 3 => x33 | 4 => x34
  | 5 => x35 | 6 => x36 | 7 => x37 | 8 => x38 | 9 => x39
  | 10 => x61 | 11 => x62 | 12 => x63 | 13 => x64 | 14 => x65
  | _ => x66
  end%N.

Definition digitVal (c : byte) : option N :=
  match c with
  | x30 => Some 0 | x31 => Some 1 | x32 => Some 2 | x33 => Some 3
  | x34 => Some 4 | x35 => Some 5 | x36 => Some 6 | x37 => Some 7
  | x38 => Some 8 | x39 => Some 9
  | x61 | x41 => Some 10 | x62 | x42 => Some 11 | x63 | x43 => Some 12
  | x64 | x44 => Some 13 | x65 | x45 => Some 14 | x66 | x46 => Some 15
  | _ => None
  end%N.

Fixpoint formatDigits (fuel : nat) (base n : N) : list byte :=
  match fuel with
  | O => []
  | S fuel =>
      if (n <? base)%N then [digitByte n]
      else formatDigits fuel base (n / base) ++ [digitByte (n mod base)]
  end.

(** [strconv.FormatUint(n, base)], lower case. *)
Definition formatUint (base n : N) : list byte :=
  formatDigits (S (N.to_nat (N.log2 n))) base n.

Fixpoint parseDigits (base acc : N) (s : list byte) : option N :=
  match s with
  | [] => Some acc
  | c :: s' =>
      match digitVal c with
      | Some d => if (d <? base)%N then parseDigits base (acc * base + d) s' else None
      | None => None
      end
  end.

(** Digits in the base, at least one. *)
Definition parseUint (base : N) (s : list byte) : option N :=
  match s with
  | [] => None
  | _ => parseDigits base 0 s
  end.

(** [strconv.Itoa] *)
Definition Itoa (z : Z) : list byte :=
  if z <? 0 then x2d :: formatUint 10 (Z.to_N (- z)) else formatUint 10 (Z.to_N z).

(** The verb [%03d]. *)
Definition padZeros (width : nat) (s : list byte) : list byte :=
  replicate (width - length s) x30 ++ s.

Definition format03d (z : Z) : list byte :=
  if z <? 0 then x2d :: padZeros 2 (formatUint 10 (Z.to_N (- z)))
  else padZeros 3 (formatUint 10 (Z.to_N z)).

(** [strconv.Atoi]: an optional sign and decimal digits, within int64. *)
Definition Atoi (s : list byte) : option Z :=
  let signed (neg : bool) (d : list byte) :=
    match parseUint 10 d with
    | Some n =>
        let z := if neg then - Z.of_N n else Z.of_N n in
        if (- 2^63 <=? z) && (z <? 2^63) then Some z else None
    | None => None
    end in
  match s with
  | x2b :: d => signed false d
  | x2d :: d => signed true d
  | _ => signed false s
  end.

(** *** Lines and headers *)

Fixpoint dropLastCR (l : list byte) : list byte :=
  match l with
  | [] => []
  | [c] => if Byte.eqb c x0d then [] else [c]
  | c :: l' => c :: dropLastCR l'
  end.

(** [textproto.Reader.ReadLine]: the next line without its line end
    (LF, or CR LF), and what follows; nothing at the end of the input.
    A last line without a line end is a line. *)
Definition readLine (s : list byte) : option (list byte * list byte) :=
  match s with
  | [] => None
  | _ =>
      match cutByte x0a s with
      | Some (l, r) => Some (dropLastCR l, r)
      | None => Some (s, [])
      end
  end.

(** The continuation lines of a header line: as long as the next line
    begins with a space or a tab, a space and that line, trimmed. *)
Fixpoint continuation (fuel : nat) (acc s : list byte) : list byte * list byte :=
  match fuel with
  | O => (acc, s)
  | S fuel =>
      match s with
      | c :: _ =>
          if isSpaceTab c then
            match readLine (trimLeftB isSpaceTab s) with
            | Some (l, r) => continuation fuel (acc ++ x20 :: trimB isSpaceTab l) r
            | None => (acc ++ [x20], [])
            end
          else (acc, s)
      | [] => (acc, s)
      end
  end.

Definition isTokenByte (c : byte) : bool :=
  let n := Byte.to_N c in
  ((48 <=? n) && (n <=? 57) || (65 <=? n) && (n <=? 90) || (97 <=? n) && (n <=? 122))%N
  || bool_decide (c ∈ [x21; x23; x24; x25; x26; x27; x2a; x2b; x2d; x2e;
                       x5e; x5f; x60; x7c; x7e]).

(** [validHeaderValueByte]: no control byte other than the tab. *)
Definition isValueByte (c : byte) : bool :=
  let n := Byte.to_N c in
  Byte.eqb c x09 || ((32 <=? n) && negb (n =? 127))%N.

(** Upper case at the start and after each dash, lower case elsewhere. *)
Fixpoint canonicalCase (upper : bool) (k : list byte) : list byte :=
  match k with
  | [] => []
  | c :: k' =>
      let c' := if upper then upperB c else lowerB c in
      c' :: canonicalCase (Byte.eqb c' x2d) k'
  end.

(** [canonicalMIMEHeaderKey]: nothing for the empty key and for a key
    with a byte that no key may have; a key with a space is taken as it
    is. *)
Definition canonicalMIMEHeaderKey (k : list byte) : option (list byte) :=
  match k with
  | [] => None
  | _ =>
      if forallb (fun c => isTokenByte c || Byte.eqb c x20) k then
        if forallb isTokenByte k then Some (canonicalCase true k) else Some k
      else None
  end.

(** [http.CanonicalHeaderKey]: a key that is not a token is left as it
    is. *)
Definition CanonicalHeaderKey (k : list byte) : list byte :=
  if forallb isTokenByte k then canonicalCase true k else k.

(** [Header.Add] *)
Definition Header_Add (h : http.Header) (key value : string) : http.Header :=
  <[key := http.index h key ++ [value]]> h.

(** [textproto.Reader.ReadMIMEHeader]: the header and what follows the
    empty line that ends it. *)
Fixpoint readHeaderLines (fuel : nat) (h : http.Header) (s : list byte)
  : http.Header * list byte + error :=
  match fuel with
  | O => inr (errorString "unexpected EOF")
  | S fuel =>
      match readLine s with
      | None => inr (errorString "unexpected EOF")
      | Some ([], r) => inl (h, r)
      | Some (line, r) =>
          if negb (bool_decide (x3a ∈ line))
          then inr (errorString "malformed MIME header: missing colon")
          else
            let '(kv, r) := continuation (length r) (trimB isSpaceTab line) r in
            match cutByte x3a kv with
            | None => inr (errorString "malformed MIME header line")
            | Some (k, v) =>
                match canonicalMIMEHeaderKey k with
                | None => inr (errorString "malformed MIME header line")
                | Some key =>
                    if negb (forallb isValueByte v)
                    then inr (errorString "malformed MIME header line")
                    else
                      readHeaderLines fuel
                        (Header_Add h (toString key)
                                    (toString (trimLeftB isSpaceTab v)))
                        r
                end
            end
      end
  end.

Definition ReadMIMEHeader (s : list byte) : http.Header * list byte + error :=
  match s with
  | c :: _ =>
      if isSpaceTab c
      then inr (errorString "malformed MIME header initial line")
      else readHeaderLines (S (length s)) ∅ s
  | [] => readHeaderLines (S (length s)) ∅ s
  end.

Fixpoint splitByte (fuel : nat) (sep : byte) (s : list byte) : list (list byte) :=
  match fuel with
  | O => [s]
  | S fuel =>
      match cutByte sep s with
      | Some (l, r) => l :: splitByte fuel sep r
      | None => [s]
      end
  end.

(** [httpguts.HeaderValuesContainsToken]: some value has the token among
    its comma-separated elements, whatever the case. *)
Definition containsToken (values : list string) (token : string) : bool :=
  existsb
    (fun v =>
       existsb (fun part => equalFold (trimB isSpaceTab part) (toBytes token))
               (splitByte (String.length v) x2c (toBytes v)))
    values.

Definition isTokenBoundary (c : byte) : bool :=
  bool_decide (c ∈ [x20; x2c; x09]).

Definition orCase (c : byte) : byte :=
  default c (Byte.of_N (N.lor (Byte.to_N c) 32)).

Fixpoint hasTokenAt (prev : option byte) (v token : list byte) : bool :=
  match v with
  | [] => false
  | c :: v' =>
      (bool_decide (length token <= length v)%nat
       && match token with
          | t0 :: _ => Byte.eqb c t0 || Byte.eqb (orCase c) t0
          | [] => false
          end
       && match prev with None => true | Some p => isTokenBoundary p end
       && match drop (length token) v with
          | [] => true
          | e :: _ => isTokenBoundary e
          end
       && equalFold (take (length token) v) token)
      || hasTokenAt (Some c) v' token
  end.

(** [hasToken] of net/http: the token, which is in lower case, appears
    in [v] between spaces, commas or the ends, whatever the case. *)
Definition hasToken (v token : string) : bool :=
  hasTokenAt None (toBytes v) (toBytes token).

(** [Header.Get]: the first value, or the empty string. *)
Definition Header_Get (h : http.Header) (key : string) : string :=
  match http.index h key with v :: _ => v | [] => "" end.

Definition bodyAllowedForStatus (status : Z) : bool :=
  negb (((100 <=? status) && (status <=? 199)) || (status =? 204) || (status =? 304)).

Definition chunked (te : list string) : bool :=
  match te with t :: _ => String.eqb t "chunked" | [] => false end.

Definition protoAtLeast (major minor : Z) (maj min : Z) : bool :=
  (maj <? major) || ((major =? maj) && (min <=? minor)).

(** *** Chunked bodies *)

Definition CRLFb : list byte := [x0d; x0a].

(** The size of the buffer of [io.CopyBuffer] in [doBodyCopy]. *)
Definition copyBufSize : nat := N.to_nat 32768.

(** The reads of a copy through a buffer of [size] bytes. *)
Fixpoint chunkPieces (fuel size : nat) (body : list byte) : list (list byte) :=
  match fuel with
  | O => []
  | S fuel =>
      match body with
      | [] => []
      | _ => take size body :: chunkPieces fuel size (drop size body)
      end
  end.

(** The writes that copying the body makes.  A body behind a
    [bytes.Reader] writes itself at once; after the probe for a length
    of 0 the byte that the probe took comes first, and the rest through
    the buffer. *)
Definition bodyWrites (probed : bool) (body : list byte) : list (list byte) :=
  if probed
  then take 1 body :: chunkPieces (length body) copyBufSize (drop 1 body)
  else match body with [] => [] | _ => [body] end.

(** [chunkedWriter.Write] *)
Definition writeChunk (p : list byte) : list byte :=
  match p with
  | [] => []
  | _ => formatUint 16 (N.of_nat (length p)) ++ CRLFb ++ p ++ CRLFb
  end.

(** The chunks and, from [chunkedWriter.Close], the last one. *)
Definition writeChunked (writes : list (list byte)) : list byte :=
  concat (map writeChunk writes) ++ x30 :: CRLFb.

(** [readChunkLine] on a buffer of 4096 bytes: a line that ends in CR LF
    among the first 4096 bytes and has no other CR; the line without its
    end. *)
Definition readChunkLine (s : list byte) : option (list byte * list byte) :=
  match cutByte x0a s with
  | None => None
  | Some (l, r) =>
      if 4096 <=? Z.of_nat (length l) then None
      else
        match cutByte x0d l with
        | Some (line, []) => Some (line, r)
        | _ => None
        end
  end.

(** The chunk size of a size line: without trailing blanks and without
    what follows a semicolon, at most 16 hexadecimal digits. *)
Definition chunkSize (line : list byte) : option N :=
  let line := trimRightB isASCIISpace line in
  let line := match cutByte x3b line with Some (a, _) => a | None => line end in
  if bool_decide (16 < length line)%nat then None else parseUint 16 line.

(** [chunkedReader]: what it delivers before the end or an error.
    [excess] counts the bytes read that are not data. *)
Fixpoint readChunked (fuel : nat) (excess : Z) (s : list byte) : list byte :=
  match fuel with
  | O => []
  | S fuel =>
      match readChunkLine s with
      | None => []
      | Some (line, r) =>
          match chunkSize line with
          | None => []
          | Some n =>
              let excess :=
                wrap64 (wrap64 (excess + Z.of_nat (length line) + 2)
                        - wrap64 (16 + wrap64 (2 * wrap64 (Z.of_N n)))) in
              let excess := Z.max excess 0 in
              if 16 * 1024 <? excess then []
              else if (n =? 0)%N then []
              else
                let data := take (N.to_nat n) r in
                let r' := drop (N.to_nat n) r in
                if bool_decide (length data = N.to_nat n) && isPrefixB CRLFb r'
                then data ++ readChunked fuel excess (drop 2 r')
                else data
          end
      end
  end.

(** *** Reading a response *)

(** [http.ParseHTTPVersion] *)
Definition ParseHTTPVersion (vers : list byte) : option (Z * Z) :=
  match vers with
  | [x48; x54; x54; x50; x2f; a; x2e; b] =>
      match parseUint 10 [a], parseUint 10 [b] with
      | Some major, Some minor => Some (Z.of_N major, Z.of_N minor)
      | _, _ => None
      end
  | _ => None
  end.

(** [fixPragmaCacheControl] *)
Definition fixPragmaCacheControl (h : http.Header) : http.Header :=
  match h !! "Pragma" with
  | Some (hp :: _) =>
      if String.eqb hp "no-cache" then
        match h !! "Cache-Control" with
        | Some _ => h
        | None => <["Cache-Control" := ["no-cache"]]> h
        end
      else h
  | _ => h
  end.

(** [shouldClose] for a response: whether the connection closes, and the
    header, without its Connection field when that says close (not so
    for HTTP/1.0). *)
Definition shouldClose (major minor : Z) (h : http.Header) : bool * http.Header :=
  if major <? 1 then (true, h)
  else
    let conv := http.index h "Connection" in
    let hasClose := containsToken conv "close" in
    if (major =? 1) && (minor =? 0)
    then (hasClose || negb (containsToken conv "keep-alive"), h)
    else if hasClose then (true, delete "Connection" h) else (false, h).

(** [transferReader.parseTransferEncoding]: whether the body is chunked,
    and the header without its Transfer-Encoding field. *)
Definition parseTransferEncoding (major minor : Z) (h : http.Header)
  : bool * http.Header + error :=
  match h !! "Transfer-Encoding" with
  | None => inl (false, h)
  | Some raw =>
      let h := delete "Transfer-Encoding" h in
      if negb (protoAtLeast major minor 1 1) then inl (false, h)
      else
        match raw with
        | [te] =>
            if equalFold (toBytes te) (toBytes "chunked") then inl (true, h)
            else inr (errorString "unsupported transfer encoding")
        | _ => inr (errorString "too many transfer encodings")
        end
  end.

(** [parseContentLength] of the first value. *)
Definition parseContentLength (cl : string) : option Z :=
  match parseUint 10 (trimB isASCIISpace (toBytes cl)) with
  | Some n => if (n <? 2^63)%N then Some (Z.of_N n) else None
  | None => None
  end.

(** [fixLength] for a response: the length of the body, -1 when it is
    not known, and the header. *)
Definition fixLength (status : Z) (requestMethod : string) (h : http.Header)
    (isChunked : bool) : Z * http.Header + error :=
  let agreed :=
    match http.index h "Content-Length" with
    | first :: (_ :: _) as rest =>
        let first := trimB isASCIISpace (toBytes first) in
        if forallb (fun ct => eqBytes first (trimB isASCIISpace (toBytes ct))) rest
        then inl (<["Content-Length" := [toString first]]> h)
        else inr (errorString "http: message cannot contain multiple Content-Length headers")
    | _ => inl h
    end in
  match agreed with
  | inr e => inr e
  | inl h =>
      let parsed :=
        match http.index h "Content-Length" with
        | cl :: _ =>
            match parseContentLength cl with
            | Some n => inl (Some n)
            | None => inr (errorString "bad Content-Length")
            end
        | [] => inl None
        end in
      match parsed with
      | inr e => inr e
      | inl n =>
          if String.eqb requestMethod "HEAD" then inl (0, h)
          else if (100 <=? status) && (status <=? 199) then inl (0, h)
          else if (status =? 204) || (status =? 304) then inl (0, h)
          else if isChunked then inl (-1, delete "Content-Length" h)
          else match n with
               | Some n => inl (n, h)
               | None => inl (-1, delete "Content-Length" h)
               end
      end
  end.

(** [foreachHeaderElement]: the elements between commas, trimmed, the
    empty ones left out. *)
Definition headerElements (v : string) : list (list byte) :=
  List.filter (fun f => negb (eqBytes f []))
    (map (trimB isASCIISpace)
         (splitByte (String.length v) x2c (trimB isASCIISpace (toBytes v)))).

Definition forbiddenTrailer (key : list byte) : bool :=
  bool_decide (toString (CanonicalHeaderKey key)
               ∈ ["Transfer-Encoding"; "Trailer"; "Content-Length"]).

(** [fixTrailer]: with a chunked body the Trailer field leaves the
    header.  The first forbidden key is the error, which is returned
    when some other key is named. *)
Definition fixTrailer (h : http.Header) (isChunked : bool) : http.Header + error :=
  match h !! "Trailer" with
  | None => inl h
  | Some vv =>
      if negb isChunked then inl h
      else
        let keys := flat_map headerElements vv in
        if existsb forbiddenTrailer keys && bool_decide (1 < length keys)%nat
        then inr (errorString "bad trailer key")
        else inl (delete "Trailer" h)
  end.

(** [readTransfer] for a response: the header as the caller finds it and
    the bytes that its body delivers. *)
Definition readTransfer (status major minor : Z) (requestMethod : string)
    (h : http.Header) (rest : list byte) : http.Header * list byte + error :=
  let '(close, h) := shouldClose major minor h in
  let '(major, minor) :=
    if (major =? 0) && (minor =? 0) then (1, 1) else (major, minor) in
  match parseTransferEncoding major minor h with
  | inr e => inr e
  | inl (isChunked, h) =>
      match fixLength status requestMethod h isChunked with
      | inr e => inr e
      | inl (realLength, h) =>
          match fixTrailer h isChunked with
          | inr e => inr e
          | inl h =>
              let close :=
                close || ((realLength =? -1) && negb isChunked
                          && bodyAllowedForStatus status) in
              let body :=
                if isChunked then
                  if String.eqb requestMethod "HEAD"
                     || negb (bodyAllowedForStatus status)
                  then []
                  else readChunked (S (length rest)) 0 rest
                else if realLength =? 0 then []
                else if 0 <? realLength then take (Z.to_nat realLength) rest
                else if close then rest else [] in
              inl (h, body)
          end
      end
  end.

(** [http.ReadResponse] on a buffer holding [b]. *)
Definition http_ReadResponse (b : list byte) (req : http.Request)
  : http.Response (list byte) + error :=
  match readLine b with
  | None => inr (errorString "unexpected EOF")
  | Some (line, rest) =>
      match cutByte x20 line with
      | None => inr (errorString "malformed HTTP response")
      | Some (proto, status) =>
          let status := trimLeftB (fun c => Byte.eqb c x20) status in
          let statusCode :=
            match cutByte x20 status with Some (c, _) => c | None => status end in
          if negb (bool_decide (length statusCode = 3%nat))
          then inr (errorString "malformed HTTP status code")
          else
            match Atoi statusCode with
            | None => inr (errorString "malformed HTTP status code")
            | Some code =>
                if code <? 0 then inr (errorString "malformed HTTP status code")
                else
                  match ParseHTTPVersion proto with
                  | None => inr (errorString "malformed HTTP version")
                  | Some (major, minor) =>
                      match ReadMIMEHeader rest with
                      | inr e => inr e
                      | inl (h, rest) =>
                          match readTransfer code major minor (http.Method req)
                                             (fixPragmaCacheControl h) rest with
                          | inr e => inr e
                          | inl (h, body) =>
                              inl {| http.Status := toString status;
                                     http.StatusCode := code;
                                     http.Header_ := h;
                                     http.Body := body |}
                          end
                      end
                  end
            end
      end
  end.

(** *** Writing a response *)

(** A value as [Header.WriteSubset] writes it: line breaks turned into
    spaces, blanks trimmed at both ends. *)
Definition writtenValue (v : string) : list byte :=
  trimB isASCIISpace
    (map (fun c => if Byte.eqb c x0a || Byte.eqb c x0d then x20 else c) (toBytes v)).

Definition headerLine (key value : list byte) : list byte :=
  key ++ [x3a; x20] ++ value ++ CRLFb.

Definition keyLeb (x y : string * list string) : Prop :=
  String.leb (fst x) (fst y) = true.

#[export] Instance keyLeb_dec : RelDecision keyLeb :=
  fun x y => decide (String.leb (fst x) (fst y) = true).

Definition respExcludeHeader : list string :=
  ["Content-Length"; "Transfer-Encoding"; "Trailer"].

(** [httpguts.ValidHeaderFieldName] *)
Definition ValidHeaderFieldName (k : string) : bool :=
  negb (eqBytes (toBytes k) []) && forallb isTokenByte (toBytes k).

Definition written (kv : string * list string) : bool :=
  negb (bool_decide (fst kv ∈ respExcludeHeader)) && ValidHeaderFieldName (fst kv).

(** The fields that [Header.WriteSubset] writes, in its order: sorted by
    key, without the excluded keys and the keys that are not tokens. *)
Definition writtenFields (h : http.Header) : list (string * list string) :=
  List.filter written (merge_sort keyLeb (map_to_list h)).

Definition writeField (kv : string * list string) : list byte :=
  concat (map (fun v => headerLine (toBytes (fst kv)) (writtenValue v)) (snd kv)).

Definition writeFields (fields : list (string * list string)) : list byte :=
  concat (map writeField fields).

Definition isIdentity (te : list string) : bool :=
  match te with [t] => String.eqb t "identity" | _ => false end.

(** [transferWriter.shouldSendContentLength] *)
Definition shouldSendContentLength (te : list string) (contentLength : Z)
    (method : string) : bool :=
  if chunked te then false
  else if 0 <? contentLength then true
  else if contentLength <? 0 then false
  else if bool_decide (method ∈ ["POST"; "PUT"; "PATCH"]) then true
  else isIdentity te && negb (bool_decide (method ∈ ["GET"; "HEAD"])).

(** The error of a body that must not be read. *)
Definition errNoBody : error := errorString "sentinel error value".
Definition isNoBody (err : error) : bool :=
  match err with
  | errorString s => String.eqb s "sentinel error value"
  | _ => false
  end.

(** [Response.Write] begins with a probe: with a length of 0, a body
    that has a byte makes the length unknown.  A length that is not
    known closes the connection, unless the body is chunked. *)
Definition probed (tf : Transfer) (bytes : list byte) : bool :=
  (ContentLength tf =? 0) && negb (eqBytes bytes []).

Definition probedLength (tf : Transfer) (bytes : list byte) : Z :=
  if probed tf bytes then -1 else ContentLength tf.

Definition closing (tf : Transfer) (bytes : list byte) : bool :=
  Close tf
  || ((probedLength tf bytes =? -1)
      && protoAtLeast (ProtoMajor tf) (ProtoMinor tf) 1 1
      && negb (chunked (TransferEncoding tf)) && negb (Uncompressed tf)).

(** [newTransferWriter] for a response with a body. *)
Definition ResponseToHEAD (tf : Transfer) : bool :=
  String.eqb (RequestMethod tf) "HEAD".

Definition writerEncoding (tf : Transfer) : list string :=
  if ResponseToHEAD tf || protoAtLeast (ProtoMajor tf) (ProtoMinor tf) 1 1
  then TransferEncoding tf else [].

Definition writerLength (tf : Transfer) (bytes : list byte) : Z :=
  if chunked (writerEncoding tf) then -1 else probedLength tf bytes.

Definition sendsLength (tf : Transfer) (bytes : list byte) : bool :=
  shouldSendContentLength (writerEncoding tf) (writerLength tf bytes) (RequestMethod tf).

(** [transferWriter.writeHeader] *)
Definition writeHeader (tf : Transfer) (h : http.Header) (bytes : list byte)
  : list byte :=
  (if closing tf bytes && negb (hasToken (Header_Get h "Connection") "close")
   then headerLine (toBytes "Connection") (toBytes "close") else [])
  ++ (if sendsLength tf bytes
      then headerLine (toBytes "Content-Length") (Itoa (writerLength tf bytes))
      else if chunked (writerEncoding tf)
      then headerLine (toBytes "Transfer-Encoding") (toBytes "chunked")
      else []).

(** The length of 0 that [Response.Write] adds after the header. *)
Definition zeroLength (tf : Transfer) (code : Z) (bytes : list byte) : list byte :=
  if (probedLength tf bytes =? 0) && negb (chunked (writerEncoding tf))
     && negb (sendsLength tf bytes) && bodyAllowedForStatus code
  then headerLine (toBytes "Content-Length") (toBytes "0") else [].

(** [transferWriter.writeBody] for a body that delivers [bytes]: what is
    written, and whether the length is the one announced. *)
Definition writeBody (tf : Transfer) (bytes : list byte) : list byte * option error :=
  if ResponseToHEAD tf
  then (if chunked (writerEncoding tf) then CRLFb else [], None)
  else if chunked (writerEncoding tf)
  then (writeChunked (bodyWrites (probed tf bytes) bytes) ++ CRLFb, None)
  else if writerLength tf bytes =? -1 then (bytes, None)
  else if Z.of_nat (length bytes) =? writerLength tf bytes then (bytes, None)
  else (take (Z.to_nat (writerLength tf bytes)) bytes,
        Some (errorString "http: ContentLength with Body length")).

Section Write.
(** [http.StatusText] *)
Variable StatusText : Z -> string.

Definition statusLine (tf : Transfer) (resp : http.Response (list byte)) : list byte :=
  let text :=
    match http.Status resp with
    | EmptyString =>
        match StatusText (http.StatusCode resp) with
        | EmptyString => toBytes "status code " ++ Itoa (http.StatusCode resp)
        | text => toBytes text
        end
    | status => trimPrefixB (Itoa (http.StatusCode resp) ++ [x20]) (toBytes status)
    end in
  toBytes "HTTP/" ++ Itoa (ProtoMajor tf) ++ [x2e] ++ Itoa (ProtoMinor tf) ++ [x20]
  ++ format03d (http.StatusCode resp) ++ [x20] ++ text ++ CRLFb.

(** [Response.Write] into a buffer.  The body of the response delivers
    the bytes of [body] and then the end of data; without bytes it is
    the [failureToReadBody] of httputil, whose reads fail.  The result
    is what has been written and the error, if any. *)
Definition Response_Write (tf : Transfer) (resp : http.Response (list byte))
    (body : option (list byte)) : list byte * option error :=
  let bytes := default [] body in
  let head :=
    statusLine tf resp
    ++ writeHeader tf (http.Header_ resp) bytes
    ++ writeFields (writtenFields (http.Header_ resp))
    ++ zeroLength tf (http.StatusCode resp) bytes
    ++ CRLFb in
  match body with
  | None =>
      if ContentLength tf =? 0 then (statusLine tf resp, Some errNoBody)
      else if ResponseToHEAD tf then (head ++ fst (writeBody tf []), None)
      else (head, Some errNoBody)
  | Some bytes =>
      let '(written, err) := writeBody tf bytes in (head ++ written, err)
  end.

(** [httputil.DumpResponse] of a response whose body is not nil.  With
    the body, that is read into a buffer and written from there;
    without, an empty body stands in for a length of 0 and one that
    fails for the others, and its failure is not an error. *)
Definition httputil_DumpResponse (tf : Transfer) (resp : http.Response (list byte))
    (body : bool) : list byte + error :=
  let source :=
    if body then Some (http.Body resp)
    else if ContentLength tf =? 0 then Some [] else None in
  match Response_Write tf resp source with
  | (b, None) => inl b
  | (b, Some err) => if isNoBody err then inl b else inr err
  end.
End Write.

(** *** The responses that are read back as they were written

    HTTP/1.1 or later with one digit for each number of the version; a
    status code of three digits and a status that begins with the code
    and a space; header fields under the keys that a reader gives them,
    each with a value, the values as a reader gives them; no field that
    the writer leaves out or adds to; a body that the framing
    announces. *)

Definition fieldOK (kv : string * list string) : bool :=
  let k := toBytes (fst kv) in
  negb (bool_decide (fst kv ∈ ["Transfer-Encoding"; "Trailer"]))
  && ValidHeaderFieldName (fst kv)
  && eqBytes (canonicalCase true k) k
  && negb (bool_decide (snd kv = []))
  && forallb (fun v => forallb isValueByte (toBytes v)
                       && eqBytes (writtenValue v) (toBytes v)) (snd kv).

Definition committable (tf : Transfer) (resp : http.Response (list byte)) : bool :=
  let body := http.Body resp in
  let code := http.StatusCode resp in
  let h := http.Header_ resp in
  (** the version *)
  (ProtoMajor tf <=? 9) && (0 <=? ProtoMinor tf) && (ProtoMinor tf <=? 9)
  && protoAtLeast (ProtoMajor tf) (ProtoMinor tf) 1 1
  (** the status line *)
  && (100 <=? code) && (code <=? 999)
  && isPrefixB (Itoa code ++ [x20]) (toBytes (http.Status resp))
  && negb (bool_decide (x0a ∈ toBytes (http.Status resp)))
  (** the header *)
  && forallb fieldOK (map_to_list h)
  && bool_decide (fixPragmaCacheControl h = h)
  && (if closing tf body then bool_decide (h !! "Connection" = None)
      else negb (containsToken (http.index h "Connection") "close"))
  (** the body *)
  && negb (ResponseToHEAD tf)
  && (Z.of_nat (length body) <? 2^61)
  && (bodyAllowedForStatus code || eqBytes body [])
  && (if chunked (TransferEncoding tf)
      then bool_decide (h !! "Content-Length" = None)
      else if 0 <? probedLength tf body
      then (Z.of_nat (length body) =? probedLength tf body)
           && bool_decide (h !! "Content-Length"
                           = Some [toString (Itoa (probedLength tf body))])
      else if probedLength tf body =? 0
      then bool_decide
             (h !! "Content-Length" =
                if sendsLength tf body || bodyAllowedForStatus code
                then Some ["0"] else None)
      else (probedLength tf body =? -1)
           && bool_decide (h !! "Content-Length" = None)).

(** *** What the proofs about the codec speak of *)

(** The bytes that stand for a digit. *)
Definition digitBytes : list byte :=
  [x30; x31; x32; x33; x34; x35; x36; x37; x38; x39;
   x61; x62; x63; x64; x65; x66].

(** Status codes of three digits and the digits of a version, checked
    one by one. *)
Definition codeOK (c : Z) : bool :=
  eqBytes (format03d c) (Itoa c)
  && bool_decide (length (Itoa c) = 3%nat)
  && bool_decide (Atoi (Itoa c) = Some c)
  && forallb (fun b => bool_decide (b ∈ digitBytes)) (Itoa c).

Definition versionDigitOK (d : Z) : bool :=
  bool_decide (Itoa d = [digitByte (Z.to_N d)])
  && bool_decide (parseUint 10 [digitByte (Z.to_N d)] = Some (Z.to_N d)).

(** A key as the reader gives it, a value as the reader gives it, and
    input that does not continue a header line. *)
Definition goodKey (k : list byte) : Prop :=
  k <> [] /\ forallb isTokenByte k = true /\ canonicalCase true k = k.

Definition goodValue (v : list byte) : Prop :=
  forallb isValueByte v = true /\ trimB isASCIISpace v = v.

Definition noLead (r : list byte) : Prop :=
  match r with c :: _ => isSpaceTab c = false | [] => True end.

Definition lineOf (kv : string * string) : list byte :=
  headerLine (toBytes (fst kv)) (toBytes (snd kv)).

Definition goodLine (kv : string * string) : Prop :=
  goodKey (toBytes (fst kv)) /\ goodValue (toBytes (snd kv)).

(** The header lines of fields, and the values under a key in lines. *)
Definition flatten (fields : list (string * list string)) : list (string * string) :=
  flat_map (fun kv => map (fun v => (fst kv, v)) (snd kv)) fields.

Definition valuesOf (k : string) (kvs : list (string * string)) : list string :=
  map snd (List.filter (fun kv => String.eqb (fst kv) k) kvs).

Definition addLine (h : http.Header) (kv : string * string) : http.Header :=
  Header_Add h (fst kv) (snd kv).

(** The header lines of [writeHeader] and of the length of 0, as keys
    and values. *)
Definition transferLines (tf : Transfer) (bytes : list byte) : list (string * string) :=
  (if closing tf bytes then [("Connection", "close")] else [])
  ++ (if sendsLength tf bytes
      then [("Content-Length", toString (Itoa (writerLength tf bytes)))]
      else if chunked (writerEncoding tf) then [("Transfer-Encoding", "chunked")]
      else []).

Definition zeroLines (tf : Transfer) (code : Z) (bytes : list byte)
  : list (string * string) :=
  if (probedLength tf bytes =? 0) && negb (chunked (writerEncoding tf))
     && negb (sendsLength tf bytes) && bodyAllowedForStatus code
  then [("Content-Length", "0")] else [].

(** What [readTransfer] takes out of a header with a Connection field
    that says close ([closes]), with a chunked Transfer-Encoding
    ([isChunked]) and with or without a Content-Length. *)
Definition takenOut (code : Z) (closes isChunked : bool) (len : option Z)
  : list string :=
  (if bodyAllowedForStatus code && (isChunked || bool_decide (len = None))
   then ["Content-Length"] else [])
  ++ (if isChunked then ["Transfer-Encoding"] else [])
  ++ (if closes then ["Connection"] else []).

Definition delivered (code : Z) (isChunked : bool) (len : option Z)
    (rest : list byte) : list byte :=
  if negb (bodyAllowedForStatus code) then []
  else if isChunked then readChunked (S (length rest)) 0 rest
  else match len with
       | Some n => take (Z.to_nat n) rest
       | None => rest
       end.

(** The Content-Length that is written for a response that can be read
    back, if one is. *)
Definition lengthWritten (tf : Transfer) (code : Z) (bytes : list byte) : option Z :=
  if chunked (TransferEncoding tf) then None
  else if 0 <? probedLength tf bytes then Some (probedLength tf bytes)
  else if probedLength tf bytes =? 0
  then if sendsLength tf bytes || bodyAllowedForStatus code then Some 0 else None
  else None.

(** ** A concrete setting

    A small text codec for responses, a table of dates and a few
    backends, on which the theorems below are exercised.  The codec
    writes the status line, one line per header value and a blank line,
    then the body; it reads the same framing, the body being what
    follows the blank line. *)

Module Sample.

Fixpoint cut (fuel : nat) (sep s : string) : option (string * string) :=
  if String.prefix sep s
  then Some ("", String.substring (String.length sep)
                                  (String.length s - String.length sep) s)
  else match fuel, s with
       | S fuel, String a s' =>
           match cut fuel sep s' with
           | Some (l, r) => Some (String a l, r)
           | None => None
           end
       | _, _ => None
       end.

Definition digit (a : ascii) : option Z :=
  let n := Z.of_nat (nat_of_ascii a) in
  if (48 <=? n) && (n <=? 57) then Some (n - 48) else None.

Definition statusCode (status : string) : option Z :=
  match status with
  | String a (String b (String c rest)) =>
      match digit a, digit b, digit c with
      | Some x, Some y, Some z => Some (100 * x + 10 * y + z)
      | _, _, _ => None
      end
  | _ => None
  end.

Fixpoint readHeader (fuel : nat) (s : string) (h : http.Header)
  : option (http.Header * string) :=
  match fuel with
  | O => None
  | S fuel =>
      match cut (String.length s) CRLF s with
      | None => None
      | Some ("", body) => Some (h, body)
      | Some (line, rest) =>
          match cut (String.length line) ": " line with
          | None => None
          | Some (k, v) =>
              readHeader fuel rest (<[k := http.index h k ++ [v]]> h)
          end
      end
  end.

Definition ReadResponse (b : list byte) (req : http.Request)
  : http.Response (list byte) + error :=
  let s := string_of_list_byte b in
  match cut 0 "HTTP/1.1 " s with
  | Some ("", s1) =>
      match cut (String.length s1) CRLF s1 with
      | Some (status, s2) =>
          match statusCode status, readHeader (S (String.length s2)) s2 ∅ with
          | Some code, Some (h, body) =>
              inl {| http.Status := status; http.StatusCode := code;
                     http.Header_ := h;
                     http.Body := list_byte_of_string body |}
          | _, _ => inr (errorString "malformed HTTP response")
          end
      | None => inr (errorString "unexpected EOF")
      end
  | _ => inr (errorString "malformed HTTP response")
  end.

Definition headerLines (h : http.Header) : string :=
  String.concat ""
    (flat_map (fun kv => map (fun v => fst kv +:+ ": " +:+ v +:+ CRLF) (snd kv))
              (map_to_list h)).

Definition DumpResponse (resp : http.Response (list byte)) (body : bool)
  : list byte + error :=
  inl (list_byte_of_string
         ("HTTP/1.1 " +:+ http.Status resp +:+ CRLF +:+
          headerLines (http.Header_ resp) +:+ CRLF)
       ++ (if body then http.Body resp else [])).

(** Two dates an hour apart; nothing else parses. *)
Definition epoch : string := "Thu, 01 Jan 1970 00:00:00 GMT".
Definition epoch1h : string := "Thu, 01 Jan 1970 01:00:00 GMT".

Definition ParseTime (s : string) : Z + error :=
  if String.eqb s epoch then inl 0
  else if String.eqb s epoch1h then inl (60 * time.Minute)
  else inr (errorString "parsing time").

Definition bytes (s : string) : list byte := list_byte_of_string s.

(** A backend without the artifact: 404 with a short body. *)
Definition notFound : http.Response (list byte) :=
  {| http.Status := "404 Not Found"; http.StatusCode := 404;
     http.Header_ := {[ "Date" := [epoch] ]};
     http.Body := bytes "no such key" |}.

Definition found : http.Response (list byte) :=
  {| http.Status := "200 OK"; http.StatusCode := 200;
     http.Header_ := {[ "Date" := [epoch] ]};
     http.Body := bytes "artifact" |}.

Definition serve (resp : http.Response (list byte)) : RoundTripper sliceReader :=
  fun _ _ => inl (http.withBody resp (bytes_NewReader (http.Body resp))).

Definition unreachable : RoundTripper sliceReader :=
  fun _ _ => inr (errorString "connection refused").

Definition request (method path : string) : http.Request :=
  {| http.Method := method;
     http.URL := Some {| url.Scheme := "http"; url.Host := "backend";
                         url.Path := path; url.RawQuery := "" |};
     http.Host := "backend" |}.

Definition emptyWorld : World :=
  {| cache := ∅; calls := []; logs := []; stdout := [] |}.

Definition withEntry (key : string) (val : list byte) : World :=
  Cache_Set emptyWorld key val.

Definition dump (resp : http.Response (list byte)) : list byte :=
  match DumpResponse resp true with inl b => b | inr _ => [] end.

Definition caching (rt : RoundTripper sliceReader) : cachingTransport sliceReader :=
  {| Transport := rt; Cache := Some (diskcache "/var/cache" 0) |}.

Definition RoundTrip :=
  RoundTrip (RState := sliceReader) ReadResponse DumpResponse ParseTime.

(** An entry whose date is not a date, and one without a date. *)
Definition badDate : http.Response (list byte) :=
  {| http.Status := "404 Not Found"; http.StatusCode := 404;
     http.Header_ := {[ "Date" := ["yesterday"] ]};
     http.Body := [] |}.

Definition noDate : http.Response (list byte) :=
  {| http.Status := "404 Not Found"; http.StatusCode := 404;
     http.Header_ := ∅;
     http.Body := [] |}.

(** [url.Parse] for [scheme://host/path]. *)
Definition url_Parse (s : string) : url.URL + error :=
  match cut (String.length s) "://" s with
  | Some (scheme, rest) =>
      match cut (String.length rest) "/" rest with
      | Some (host, path) =>
          inl {| url.Scheme := scheme; url.Host := host;
                 url.Path := "/" +:+ path; url.RawQuery := "" |}
      | None =>
          inl {| url.Scheme := scheme; url.Host := rest;
                 url.Path := ""; url.RawQuery := "" |}
      end
  | None => inr (errorString "missing protocol scheme")
  end.

(** A client without credentials, and one that signs. *)
Definition noCredentials : S3Request -> Z -> string + error :=
  fun _ _ => inr (errorString "NoCredentialProviders").

Definition signs : S3Request -> Z -> string + error :=
  fun q _ => inl ("https://" +:+ Bucket q +:+ "/" +:+ Key q).

Definition director : s3Director := {| bucket := "mybucket"; prefix := "prefix" |}.

(** A body of two bytes whose stream then breaks. *)
Definition broken : sliceReader :=
  {| remaining := bytes "ab"; final := errorString "unexpected EOF" |}.

Definition retrying : Flags :=
  {| bind := ":7643"; backend := "s3://mybucket/prefix"; cacheDir := "";
     cacheSize := 5; cacheRefreshDelay := 60; allowWrites := false;
     maxRetries := 3 |}.

End Sample.

(** The response that the text of [newDroppedResponse] spells out. *)
Definition methodNotAllowed : http.Response (list byte) :=
  {| http.Status := "405 Method Not Allowed"; http.StatusCode := 405;
     http.Header_ := ∅; http.Body := [] |}.

(** *** The scenario of the design document

    A local cache, a refresh delay of 60 minutes (the default flags), a
    backend that answers 404 to GET /x, the entry stored at the epoch. *)

Module Cases.
Import Sample.

Definition getX : http.Request := request "GET" "/x".
Definition putX : http.Request := request "PUT" "/x".
Definition urlX : url.URL :=
  {| url.Scheme := "http"; url.Host := "backend"; url.Path := "/x";
     url.RawQuery := "" |}.
Definition stored (resp : http.Response (list byte)) : World :=
  withEntry "/x" (dump resp).
Definition origin : cachingTransport sliceReader := caching (serve notFound).
Definition at_minutes (n : Z) : Z := n * time.Minute.

(** The answer of the backend, and the response of the first GET. *)
Definition answer : http.Response sliceReader :=
  http.withBody notFound (bytes_NewReader (http.Body notFound)).
Definition first : http.Response (Body sliceReader) :=
  teed DumpResponse "/x" answer.
Definition afterFirst : World :=
  log_Print (called emptyWorld getX) (audit urlX getX "CACHE_MISS" (Some 404)).
Definition copied :=
  copyBody first [4%nat; 4%nat; 4%nat; 4%nat] afterFirst.
Definition afterCopy : World := snd copied.

Definition writable : Flags :=
  {| bind := bind defaultFlags; backend := backend defaultFlags;
     cacheDir := cacheDir defaultFlags; cacheSize := cacheSize defaultFlags;
     cacheRefreshDelay := cacheRefreshDelay defaultFlags;
     allowWrites := true; maxRetries := maxRetries defaultFlags |}.

End Cases.

(** *** More requests, entries and backends *)

Module More.
Import Sample.

Definition postX : http.Request := request "POST" "/x".

(** An entry that is not a response. *)
Definition junk : World := withEntry "/x" (bytes "junk").

Definition uncached : cachingTransport sliceReader :=
  {| Transport := serve notFound; Cache := None |}.

(** A backend that has the artifact but whose connection breaks after two
    bytes of the body. *)
Definition breaking : RoundTripper sliceReader :=
  fun _ _ => inl (http.withBody found (slice (bytes "ar") (errorString "unexpected EOF"))).

(** A backend that has the artifact. *)
Definition restocked : cachingTransport sliceReader := caching (serve found).

(** A client whose signed URL is not a URL. *)
Definition garbled : S3Request -> Z -> string + error :=
  fun _ _ => inl "not a url".

Definition listening (bind cacheDir : string) : Flags :=
  {| bind := bind; backend := "s3://mybucket/prefix/"; cacheDir := cacheDir;
     cacheSize := 5; cacheRefreshDelay := 60; allowWrites := false;
     maxRetries := 1 |}.

Definition fragile : cachingTransport sliceReader := caching breaking.

Definition wholeAnswer : http.Response sliceReader :=
  http.withBody found (bytes_NewReader (http.Body found)).
Definition brokenAnswer : http.Response sliceReader :=
  http.withBody found (slice (bytes "ar") (errorString "unexpected EOF")).

Definition threeReads : list nat := [4%nat; 4%nat; 4%nat].

(** The stale 404 is refreshed at minute 61, from a backend that now has
    the artifact, and from one whose connection breaks. *)
Definition stale : World := Cases.stored notFound.
Definition refreshed : World :=
  snd (RoundTrip defaultFlags restocked Cases.getX (Cases.at_minutes 61) stale).
Definition refreshedCopy :=
  copyBody (teed DumpResponse "/x" wholeAnswer) threeReads refreshed.
Definition refreshedBadly : World :=
  snd (RoundTrip defaultFlags fragile Cases.getX (Cases.at_minutes 61) stale).
Definition refreshedBadlyCopy :=
  copyBody (teed DumpResponse "/x" brokenAnswer) threeReads refreshedBadly.

(** The first GET of an empty cache, from the backend that breaks. *)
Definition missed : World :=
  snd (RoundTrip defaultFlags fragile Cases.getX 0 emptyWorld).
Definition missedCopy :=
  copyBody (teed DumpResponse "/x" brokenAnswer) threeReads missed.

Definition someEnv : Env :=
  {| captured := http.withBody found tt; world := Cases.stored notFound |}.
End More.

(** *** Responses on the wire

    The backend of the scenario above behind the codec of net/http: a
    chunked 404, as an HTTP/1.1 transport reads it from S3, and
    responses that are not read back as they were committed. *)

Module Wire.

(** [http.StatusText] for the codes that appear here. *)
Definition StatusText (code : Z) : string :=
  if code =? 200 then "OK"
  else if code =? 204 then "No Content"
  else if code =? 404 then "Not Found"
  else "".

(** What a transport leaves in the fields of a response to a GET that
    this development does not carry: a chunked body, and a body of a
    declared length. *)
Definition chunkedBody : Transfer :=
  {| ProtoMajor := 1; ProtoMinor := 1; ContentLength := -1;
     TransferEncoding := ["chunked"]; Close := false; Uncompressed := false;
     RequestMethod := "GET" |}.

Definition declared (n : Z) : Transfer :=
  {| ProtoMajor := 1; ProtoMinor := 1; ContentLength := n;
     TransferEncoding := []; Close := false; Uncompressed := false;
     RequestMethod := "GET" |}.

Definition DumpResponse (tf : Transfer) (resp : http.Response (list byte))
    (body : bool) : list byte + error :=
  httputil_DumpResponse StatusText tf resp body.

Definition RoundTrip (tf : Transfer) :=
  RoundTrip (RState := sliceReader) http_ReadResponse (DumpResponse tf) Sample.ParseTime.

(** The first GET of the scenario and the copy of its body. *)
Definition first : http.Response (Body sliceReader) :=
  teed (DumpResponse chunkedBody) "/x" Cases.answer.
Definition copied :=
  copyBody first [4%nat; 4%nat; 4%nat; 4%nat] Cases.afterFirst.
Definition afterCopy : World := snd copied.

(** A backend that answers 204 with a Content-Length of 0, which the
    transport keeps in the header. *)
Definition noContent : http.Response (list byte) :=
  {| http.Status := "204 No Content"; http.StatusCode := 204;
     http.Header_ := {[ "Content-Length" := ["0"]; "Date" := [Sample.epoch] ]};
     http.Body := [] |}.
Definition noContentRead : http.Response (list byte) :=
  {| http.Status := "204 No Content"; http.StatusCode := 204;
     http.Header_ := {[ "Date" := [Sample.epoch] ]};
     http.Body := [] |}.
Definition empty : cachingTransport sliceReader := Sample.caching (Sample.serve noContent).
Definition emptyAnswer : http.Response sliceReader :=
  http.withBody noContent (bytes_NewReader []).
Definition afterEmpty : World :=
  log_Print (called Sample.emptyWorld Cases.getX)
            (audit Cases.urlX Cases.getX "CACHE_MISS" (Some 204)).
Definition emptyCopied :=
  copyBody (teed (DumpResponse (declared 0)) "/x" emptyAnswer) [4%nat] afterEmpty.

(** The 204 in the cache since the epoch. *)
Definition staleEmpty : World :=
  Sample.withEntry "/x"
    (match DumpResponse (declared 0) noContent true with
     | inl b => b
     | inr _ => []
     end).

(** An HTTP/1.0 response, whose connection closes, and a status line
    without a reason. *)
Definition oldProtocol : Transfer :=
  {| ProtoMajor := 1; ProtoMinor := 0; ContentLength := 11;
     TransferEncoding := []; Close := true; Uncompressed := false;
     RequestMethod := "GET" |}.
Definition notFoundLength : http.Response (list byte) :=
  {| http.Status := "404 Not Found"; http.StatusCode := 404;
     http.Header_ := {[ "Content-Length" := ["11"]; "Date" := [Sample.epoch] ]};
     http.Body := Sample.bytes "no such key" |}.
Definition bare : http.Response (list byte) :=
  {| http.Status := "404"; http.StatusCode := 404;
     http.Header_ := {[ "Content-Length" := ["11"]; "Date" := [Sample.epoch] ]};
     http.Body := Sample.bytes "no such key" |}.
End Wire.

(** * Properties *)

(** ** Facts about trimming *)

Lemma append_String a (s t : string) : String a s +:+ t = String a (s +:+ t).
Proof. reflexivity. Qed.

Lemma append_Empty (t : string) : "" +:+ t = t.
Proof. reflexivity. Qed.

Section TrimFacts.
Import strings.
Variable cutset : string.

Lemma TrimLeft_split s :
  exists l, s = l +:+ TrimLeft s cutset /\ allIn cutset l = true.
Proof.
  induction s as [|a s IH]; simpl.
  - exists ""; auto.
  - destruct (inCutset cutset a) eqn:E.
    + destruct IH as (l & Hl & Hall). exists (String a l); simpl.
      rewrite E, Hall, append_String. split; [congruence | reflexivity].
    + exists ""; auto.
Qed.

Lemma TrimRight_split s :
  exists r, s = TrimRight s cutset +:+ r /\ allIn cutset r = true.
Proof.
  induction s as [|a s IH]; simpl.
  - exists ""; auto.
  - destruct IH as (r & Hr & Hall).
    destruct (TrimRight s cutset) as [|b t] eqn:E.
    + destruct (inCutset cutset a) eqn:Ea.
      * exists (String a r). rewrite append_Empty in *. simpl.
        rewrite Ea, Hall. split; [congruence | reflexivity].
      * exists r. rewrite append_String. split; congruence.
    + exists r. rewrite append_String. split; congruence.
Qed.

Lemma TrimLeft_first s : notInCutset cutset (first (TrimLeft s cutset)) = true.
Proof.
  induction s as [|a s IH]; simpl; auto.
  destruct (inCutset cutset a) eqn:E; simpl; auto. now rewrite E.
Qed.

Lemma TrimRight_last s : notInCutset cutset (last (TrimRight s cutset)) = true.
Proof.
  induction s as [|a s IH]; simpl; auto.
  destruct (TrimRight s cutset) as [|b t] eqn:E.
  - destruct (inCutset cutset a) eqn:Ea; simpl; auto. now rewrite Ea.
  - exact IH.
Qed.

Lemma TrimLeft_last s :
  notInCutset cutset (last s) = true ->
  notInCutset cutset (last (TrimLeft s cutset)) = true.
Proof.
  induction s as [|a s IH]; simpl; auto.
  intros H. destruct (inCutset cutset a) eqn:E; [|exact H].
  apply IH. destruct s; simpl in *; [|exact H].
  now rewrite E in H.
Qed.

Lemma Trim_ends s :
  notInCutset cutset (first (Trim s cutset)) = true /\
  notInCutset cutset (last (Trim s cutset)) = true.
Proof.
  split; [apply TrimLeft_first | apply TrimLeft_last, TrimRight_last].
Qed.

Lemma Trim_split s :
  exists l r, s = l +:+ Trim s cutset +:+ r /\
              allIn cutset l = true /\ allIn cutset r = true.
Proof.
  destruct (TrimRight_split s) as (r & Hr & Hallr).
  destruct (TrimLeft_split (TrimRight s cutset)) as (l & Hl & Halll).
  exists l, r. repeat split; auto.
  unfold Trim. rewrite Hr at 1. rewrite Hl at 1.
  clear. induction l as [|a l IH]; [reflexivity|].
  rewrite !append_String. congruence.
Qed.
End TrimFacts.

Lemma effectiveKey_refines_spec prefix path :
  effectiveKey prefix path = spec_effectiveKey prefix path.
Proof.
  unfold effectiveKey, spec_effectiveKey, joinNonEmpty. simpl.
  destruct (String.eqb prefix "") eqn:Ep; simpl.
  - destruct (String.eqb (strings.Trim path "/") "") eqn:Et; simpl; auto.
    now apply String.eqb_eq in Et.
  - destruct (String.eqb (strings.Trim path "/") "") eqn:Et; simpl; auto.
Qed.

(** C8.  [effectiveKey] joins the prefix and the slash-trimmed path with
    a slash, where the trimmed path is the path without its leading and
    trailing slashes.  With an empty prefix the key is the trimmed path,
    with an empty path it is the prefix, and
    [effectiveKey "pfx" "a/b" = "pfx/a/b"]. *)
Theorem effectiveKey_joins_prefix_and_trimmed_path :
  (forall prefix path,
      effectiveKey prefix path = spec_effectiveKey prefix path) /\
  (forall prefix path,
      effectiveKey prefix path =
        if String.eqb prefix "" then strings.Trim path "/"
        else if String.eqb (strings.Trim path "/") "" then prefix
        else prefix +:+ "/" +:+ strings.Trim path "/") /\
  (forall p, effectiveKey "" p = strings.Trim p "/") /\
  (forall pfx, effectiveKey pfx "" = pfx) /\
  effectiveKey "pfx" "" = "pfx" /\
  effectiveKey "pfx" "a/b" = "pfx/a/b" /\
  effectiveKey "prefix" "/ab/cd12" = "prefix/ab/cd12" /\
  (forall p, exists l r,
      p = l +:+ strings.Trim p "/" +:+ r /\
      strings.allIn "/" l = true /\ strings.allIn "/" r = true /\
      strings.notInCutset "/" (strings.first (strings.Trim p "/")) = true /\
      strings.notInCutset "/" (strings.last (strings.Trim p "/")) = true).
Proof.
  repeat split; try reflexivity.
  - apply effectiveKey_refines_spec.
  - intros pfx. unfold effectiveKey. simpl. now destruct pfx.
  - intros p. destruct (Trim_split "/" p) as (l & r & H1 & H2 & H3).
    pose proof (Trim_ends "/" p) as [H4 H5].
    exists l, r. auto.
Qed.

(** ** The tee and the stream it wraps *)

Section TeeFacts.
Context {W T : Type} `{ReadCloser T}.
Implicit Types (r : cachingReadCloser W T) (w : W).

Lemma triple_eq {A B C} (a : A) (b b' : B) (c c' : C) :
  b = b' -> c = c' -> (a, b, c) = (a, b', c').
Proof. congruence. Qed.

Lemma after_nil r : after r (R r) [] = r.
Proof. destruct r; unfold after, traceBytes; simpl. now rewrite app_nil_r. Qed.

Lemma reads_readsR r sizes w :
  reads r sizes w =
    let '(tr, s) := readsR (R r) sizes in
    (tr, after r s tr, applyCalls r (eofSnapshots (buf r) tr) w).
Proof.
  revert r w. induction sizes as [|n sizes IH]; intros r w; simpl.
  - now rewrite after_nil.
  - unfold cachingReadCloser_Read.
    destruct (io_Read (R r) n) as [[b err] s1] eqn:E.
    rewrite IH; simpl.
    destruct (readsR s1 sizes) as [tr s2]. apply triple_eq.
    + unfold after, traceBytes; simpl. now rewrite app_assoc.
    + unfold applyCalls; simpl. destruct (isEOF err); reflexivity.
Qed.

Lemma drain_drainR r sizes w :
  drain r sizes w =
    let '(tr, s) := drainR (R r) sizes in
    (tr, after r s tr, applyCalls r (eofSnapshots (buf r) tr) w).
Proof.
  revert r w. induction sizes as [|n sizes IH]; intros r w; simpl.
  - now rewrite after_nil.
  - unfold cachingReadCloser_Read.
    destruct (io_Read (R r) n) as [[b err] s1] eqn:E.
    destruct err as [e|].
    + apply triple_eq.
      * unfold after, traceBytes; simpl. now rewrite app_nil_r.
      * unfold applyCalls; simpl. destruct e; reflexivity.
    + rewrite IH; simpl.
      destruct (drainR s1 sizes) as [tr s2]. apply triple_eq.
      * unfold after, traceBytes; simpl. now rewrite app_assoc.
      * reflexivity.
Qed.

(** In the trace of a copy loop only the last result carries an
    error, so the callback runs at most once. *)
Lemma drainR_snapshots (s : T) sizes acc :
  eofSnapshots acc (fst (drainR s sizes)) =
    if isEOF (lastError (fst (drainR s sizes)))
    then [acc ++ traceBytes (fst (drainR s sizes))] else [].
Proof.
  revert s acc. induction sizes as [|n sizes IH]; intros s acc; simpl; auto.
  destruct (io_Read s n) as [[b err] s1] eqn:E.
  destruct err as [e|]; simpl.
  - unfold lastError, traceBytes; simpl. rewrite !app_nil_r.
    destruct e; reflexivity.
  - specialize (IH s1 (acc ++ b)).
    destruct (drainR s1 sizes) as [tr s2] eqn:E2; simpl in *.
    rewrite IH. unfold lastError, traceBytes. simpl.
    destruct tr as [|x tr]; simpl; auto.
    destruct (isEOF _); auto. now rewrite <- app_assoc.
Qed.

Lemma eofSnapshots_length acc tr :
  length (eofSnapshots acc tr) = eofCount tr.
Proof.
  revert acc. induction tr as [|[b err] tr IH]; intros acc; simpl; auto.
  rewrite length_app, IH. unfold eofCount; simpl.
  destruct (isEOF err); reflexivity.
Qed.

Lemma runOps_noEOF r ops w :
  noEOFRead (R r) ops = true -> snd (runOps r ops w) = w.
Proof.
  revert r w. induction ops as [|[n|] ops IH]; intros r w; simpl; auto.
  - unfold cachingReadCloser_Read.
    destruct (io_Read (R r) n) as [[b err] s1] eqn:E.
    intros [Herr Hrest]%andb_prop.
    destruct (isEOF err); [discriminate|]. now apply IH.
  - unfold cachingReadCloser_Close.
    destruct (io_Close (R r)) as [err s1] eqn:E.
    intros Hrest. now apply IH.
Qed.
End TeeFacts.

(** ** Streams over a byte slice *)

Section SliceFacts.
Implicit Types (data acc : list byte) (sizes : list nat) (e : error).

Lemma slice_Read_nil e n :
  io_Read (slice [] e) n = ([], Some e, slice [] e).
Proof. reflexivity. Qed.

Lemma slice_Read_cons b data e n :
  io_Read (slice (b :: data) e) n =
    (take n (b :: data), None, slice (drop n (b :: data)) e).
Proof. reflexivity. Qed.





End SliceFacts.

(** ** The decisions of RoundTrip *)

(** The refresh delay is the flag times sixty thousand million as long
    as that fits an int64. *)
Lemma minutes_in_range (n : Z) :
  - 2^63 <= n * time.Minute < 2^63 -> time.minutes n = n * time.Minute.
Proof.
  intros Hr. unfold time.minutes, wrap64.
  rewrite Z.mod_small; lia.
Qed.

Section Decisions.
Context {RState : Type} `{ReadCloser RState}.
Variable ReadResponse :
  list byte -> http.Request -> http.Response (list byte) + error.
Variable DumpResponse :
  http.Response (list byte) -> bool -> list byte + error.
Variable ParseTime : string -> Z + error.
Variable flags : Flags.

Local Abbreviation roundTrip := (RoundTrip ReadResponse DumpResponse ParseTime flags).
Local Abbreviation doFetch := (fetch DumpResponse).
Local Abbreviation lookupCached := (cachedResponse ReadResponse).
Local Abbreviation commit := (commitOnEOF DumpResponse).
Local Abbreviation teed := (teed DumpResponse).

Implicit Types (t : cachingTransport RState) (req : http.Request)
  (u : url.URL) (w : World) (resp : http.Response (list byte)).

(** What a fetch does: one call of the transport, no change to the
    cache, one log record. *)
Lemma fetch_cacheable t u req cacheKey logAction w :
  doFetch t u req true cacheKey logAction w =
    match Transport t req (length (calls w)) with
    | inl r =>
        (Returned (Some (teed cacheKey r), None),
         log_Print (called w req)
                   (audit u req logAction (Some (http.StatusCode r))))
    | inr err =>
        (Returned (None, Some err),
         log_Print (called w req) (audit u req "ERROR" None))
    end.
Proof.
  unfold fetch.
  destruct (Transport t req (length (calls w))); reflexivity.
Qed.

Lemma fetch_world t u req doCache cacheKey logAction w :
  exists res logAction' status,
    doFetch t u req doCache cacheKey logAction w =
      (Returned res,
       log_Print (called w req) (audit u req logAction' status)).
Proof.
  unfold fetch.
  destruct (Transport t req (length (calls w))); eauto.
Qed.

Lemma fetch_calls t u req doCache cacheKey logAction w :
  calls (snd (doFetch t u req doCache cacheKey logAction w)) = calls w ++ [req] /\
  cache (snd (doFetch t u req doCache cacheKey logAction w)) = cache w.
Proof.
  destruct (fetch_world t u req doCache cacheKey logAction w)
    as (res & a & s & ->). split; reflexivity.
Qed.

Lemma fetch_not_panicked t u req doCache cacheKey logAction w msg :
  fst (doFetch t u req doCache cacheKey logAction w) <> Panicked msg.
Proof.
  destruct (fetch_world t u req doCache cacheKey logAction w)
    as (res & a & s & ->). discriminate.
Qed.

(** The first lines of [RoundTrip] for a GET with a cache. *)
Lemma RoundTrip_lookup t req u now w :
  http.URL req = Some u -> http.Method req = "GET" -> is_Some (Cache t) ->
  roundTrip t req now w =
    match lookupCached (cache w) (url.Path u) req with
    | (_, Some err) =>
        doFetch t u req true (url.Path u) ""
              (fmt_Printf w "Failed to read cached response")
    | (Some resp, None) =>
        match http.index (http.Header_ resp) "Date" !! 0%nat with
        | None =>
            (Panicked "index out of range",
             log_Print w (audit u req "" (Some (http.StatusCode resp))))
        | Some date =>
            match ParseTime date with
            | inr err =>
                (Exited "Failed to parse cached request Date",
                 log_Print w (Fatal "Failed to parse cached request Date"))
            | inl cachedAt =>
                if (http.StatusCode resp =? 200)
                   || (now - cachedAt <=? time.minutes (cacheRefreshDelay flags))
                then
                  (Returned (Some (served resp), None),
                   log_Print w (audit u req "CACHE_HIT" (Some (http.StatusCode resp))))
                else
                  doFetch t u req true (url.Path u) "CACHE_REFRESH"
                        (Cache_Delete w (url.Path u))
            end
        end
    | (None, None) => doFetch t u req true (url.Path u) "CACHE_MISS" w
    end.
Proof.
  intros Hu Hm Hc. unfold RoundTrip.
  rewrite Hu, Hm, (bool_decide_eq_true_2 _ Hc). cbn [String.eqb http.MethodGet andb].
  replace (String.eqb "GET" "GET") with true by reflexivity. cbn [andb].
  destruct (lookupCached (cache w) (url.Path u) req) as [[resp|] [err|]];
    try reflexivity.
  destruct (http.index (http.Header_ resp) "Date" !! 0%nat) as [date|];
    [|reflexivity].
  destruct (ParseTime date) as [cachedAt|err]; [|reflexivity].
  unfold time.Before, time.Add, http.StatusOK.
  replace (negb (cachedAt + time.minutes (cacheRefreshDelay flags) <? now))
    with (now - cachedAt <=? time.minutes (cacheRefreshDelay flags)).
  - reflexivity.
  - rewrite Z.ltb_antisym, negb_involutive.
    destruct (Z.leb_spec (now - cachedAt) (time.minutes (cacheRefreshDelay flags)));
      destruct (Z.leb_spec now (cachedAt + time.minutes (cacheRefreshDelay flags)));
      auto; lia.
Qed.

(** What the code does with a stored entry that is older than the
    delay, whatever its status other than 200: the entry is deleted and
    the backend is asked. *)
Lemma RoundTrip_refresh t req u now w resp date cachedAt :
  http.URL req = Some u -> http.Method req = "GET" -> is_Some (Cache t) ->
  lookupCached (cache w) (url.Path u) req = (Some resp, None) ->
  http.index (http.Header_ resp) "Date" !! 0%nat = Some date ->
  ParseTime date = inl cachedAt ->
  http.StatusCode resp <> 200 ->
  time.minutes (cacheRefreshDelay flags) < now - cachedAt ->
  roundTrip t req now w =
    let w1 := called (Cache_Delete w (url.Path u)) req in
    match Transport t req (length (calls w)) with
    | inl r =>
        (Returned (Some (teed (url.Path u) r), None),
         log_Print w1 (audit u req "CACHE_REFRESH" (Some (http.StatusCode r))))
    | inr err =>
        (Returned (None, Some err), log_Print w1 (audit u req "ERROR" None))
    end.
Proof.
  intros Hu Hm Hc Hl Hd Hp Hne Hold.
  rewrite (RoundTrip_lookup _ _ _ _ _ Hu Hm Hc), Hl, Hd, Hp.
  apply Z.eqb_neq in Hne. rewrite Hne.
  apply Z.leb_gt in Hold. rewrite Hold. cbn [orb].
  rewrite fetch_cacheable. reflexivity.
Qed.

(** C1 (as amended).  For a GET with a cache configured that finds a
    stored entry whose date parses: if the stored status is 200, or
    [now - storedTime <= refreshDelay], the stored response is returned
    as it is, the cache and the backend are left alone, and the record
    says CACHE_HIT; if the stored status is not a success (it is not
    2xx) and [now - storedTime > refreshDelay], the entry is deleted and
    the backend is asked once, the record saying CACHE_REFRESH (ERROR
    when the backend call fails).  Nothing is said here of an entry with
    a success status other than 200 that is older than the delay.
    [refreshDelay] is the flag in minutes as an int64 count of
    nanoseconds. *)
Theorem cached_entry_hit_or_refresh t req u now w resp date cachedAt :
  http.URL req = Some u -> http.Method req = "GET" -> is_Some (Cache t) ->
  lookupCached (cache w) (url.Path u) req = (Some resp, None) ->
  http.index (http.Header_ resp) "Date" !! 0%nat = Some date ->
  ParseTime date = inl cachedAt ->
  (http.StatusCode resp = 200 \/
   now - cachedAt <= time.minutes (cacheRefreshDelay flags) ->
   roundTrip t req now w =
     (Returned (Some (served resp), None),
      log_Print w (audit u req "CACHE_HIT" (Some (http.StatusCode resp))))) /\
  (http.StatusCode resp < 200 \/ 300 <= http.StatusCode resp ->
   time.minutes (cacheRefreshDelay flags) < now - cachedAt ->
   roundTrip t req now w =
     let w1 := called (Cache_Delete w (url.Path u)) req in
     match Transport t req (length (calls w)) with
     | inl r =>
         (Returned (Some (teed (url.Path u) r), None),
          log_Print w1 (audit u req "CACHE_REFRESH" (Some (http.StatusCode r))))
     | inr err =>
         (Returned (None, Some err), log_Print w1 (audit u req "ERROR" None))
     end).
Proof.
  intros Hu Hm Hc Hl Hd Hp. split.
  - intros Hfresh.
    rewrite (RoundTrip_lookup _ _ _ _ _ Hu Hm Hc), Hl, Hd, Hp.
    destruct (Z.eqb_spec (http.StatusCode resp) 200) as [E|E]; [reflexivity|].
    destruct Hfresh as [?|Hle]; [contradiction|].
    apply Z.leb_le in Hle. now rewrite Hle.
  - intros Hfail Hold.
    apply (RoundTrip_refresh t req u now w resp date cachedAt); try assumption.
    lia.
Qed.

(** C2 (as amended).  For a GET with a cache configured whose stored
    entry has a date that does not parse, [RoundTrip] calls
    [log.Fatalf]: the message is logged and the process exits; the
    backend is not asked and the cache is not changed. *)
Theorem unparseable_date_exits t req u now w resp date err :
  http.URL req = Some u -> http.Method req = "GET" -> is_Some (Cache t) ->
  lookupCached (cache w) (url.Path u) req = (Some resp, None) ->
  http.index (http.Header_ resp) "Date" !! 0%nat = Some date ->
  ParseTime date = inr err ->
  roundTrip t req now w =
    (Exited "Failed to parse cached request Date",
     log_Print w (Fatal "Failed to parse cached request Date")) /\
  processAlive (fst (roundTrip t req now w)) = false /\
  calls (snd (roundTrip t req now w)) = calls w /\
  cache (snd (roundTrip t req now w)) = cache w.
Proof.
  intros Hu Hm Hc Hl Hd Hp.
  rewrite (RoundTrip_lookup _ _ _ _ _ Hu Hm Hc), Hl, Hd, Hp.
  repeat split.
Qed.

(** C10.  For a GET with a cache configured whose stored entry parses
    into a response, the freshness check indexes the first element of
    the response's "Date" header list: [RoundTrip] panics exactly when
    that list is empty, which it is when the entry has no Date
    header. *)
Theorem date_index_in_bounds_iff t req u now w resp :
  http.URL req = Some u -> http.Method req = "GET" -> is_Some (Cache t) ->
  lookupCached (cache w) (url.Path u) req = (Some resp, None) ->
  ((exists msg, fst (roundTrip t req now w) = Panicked msg) <->
   http.index (http.Header_ resp) "Date" = []) /\
  (http.Header_ resp !! "Date" = None ->
   roundTrip t req now w =
     (Panicked "index out of range",
      log_Print w (audit u req "" (Some (http.StatusCode resp))))) /\
  (forall date rest, http.Header_ resp !! "Date" = Some (date :: rest) ->
   forall msg, fst (roundTrip t req now w) <> Panicked msg).
Proof.
  intros Hu Hm Hc Hl.
  rewrite (RoundTrip_lookup _ _ _ _ _ Hu Hm Hc), Hl.
  assert (Hsome : forall date rest msg,
    http.index (http.Header_ resp) "Date" = date :: rest ->
    fst (match (date :: rest) !! 0%nat with
         | None =>
             (Panicked "index out of range",
              log_Print w (audit u req "" (Some (http.StatusCode resp))))
         | Some date =>
             match ParseTime date with
             | inr err =>
                 (Exited "Failed to parse cached request Date",
                  log_Print w (Fatal "Failed to parse cached request Date"))
             | inl cachedAt =>
                 if (http.StatusCode resp =? 200)
                    || (now - cachedAt <=? time.minutes (cacheRefreshDelay flags))
                 then
                   (Returned (Some (served resp), None),
                    log_Print w (audit u req "CACHE_HIT" (Some (http.StatusCode resp))))
                 else
                   doFetch t u req true (url.Path u) "CACHE_REFRESH"
                           (Cache_Delete w (url.Path u))
             end
         end) <> Panicked msg).
  { intros date rest msg _. cbn [lookup list_lookup].
    destruct (ParseTime date); [|discriminate].
    destruct (_ || _); [discriminate|]. apply fetch_not_panicked. }
  split; [|split].
  - destruct (http.index (http.Header_ resp) "Date") as [|date rest] eqn:E.
    + split; [reflexivity|]. intros _. eexists. reflexivity.
    + split; [|discriminate]. intros [msg Hmsg].
      now apply (Hsome date rest msg) in Hmsg.
  - intros Hnone. unfold http.index. rewrite Hnone. reflexivity.
  - intros date rest Hd msg. unfold http.index. rewrite Hd. cbn [default].
    apply (Hsome date rest msg). unfold http.index. now rewrite Hd.
Qed.

(** C7.  A PUT reaches the backend if and only if writes are allowed.
    When they are, the request is passed to the transport once.  When
    they are not, [RoundTrip] returns, without an error and without a
    backend call, the response read from the text
    "HTTP/1.1 405 Method Not Allowed" followed by an empty line: 405
    Method Not Allowed with an empty body. *)
Theorem put_reaches_backend_iff_writes_allowed t req u now w :
  http.URL req = Some u -> http.Method req = "PUT" ->
  ReadResponse (list_byte_of_string droppedRaw) req = inl methodNotAllowed ->
  (allowWrites flags = true ->
   roundTrip t req now w = doFetch t u req false (url.Path u) "PASSTHROUGH" w /\
   calls (snd (roundTrip t req now w)) = calls w ++ [req]) /\
  (allowWrites flags = false ->
   roundTrip t req now w =
     (Returned (Some (served methodNotAllowed), None),
      log_Print w (audit u req "DROP" (Some 405))) /\
   calls (snd (roundTrip t req now w)) = calls w /\
   cache (snd (roundTrip t req now w)) = cache w) /\
  (calls (snd (roundTrip t req now w)) <> calls w <-> allowWrites flags = true).
Proof.
  intros Hu Hm H405.
  assert (Hrt : roundTrip t req now w =
    if allowWrites flags
    then doFetch t u req false (url.Path u) "PASSTHROUGH" w
    else (Returned (Some (served methodNotAllowed), None),
          log_Print w (audit u req "DROP" (Some 405)))).
  { unfold RoundTrip. rewrite Hu, Hm.
    replace (String.eqb "PUT" http.MethodGet) with false by reflexivity.
    replace (String.eqb "PUT" http.MethodPut) with true by reflexivity.
    cbn [andb orb]. destruct (allowWrites flags); [reflexivity|].
    unfold newDroppedResponse. rewrite H405. reflexivity. }
  rewrite Hrt.
  destruct (allowWrites flags).
  - pose proof (fetch_calls t u req false (url.Path u) "PASSTHROUGH" w)
      as [Hcalls _].
    repeat split; try discriminate; auto.
    intros _. rewrite Hcalls. intros Heq.
    apply (f_equal length) in Heq. rewrite length_app in Heq. simpl in Heq. lia.
  - repeat split; try discriminate; auto.
Qed.
End Decisions.

(** ** What is committed and what a later hit returns *)

Section Committing.
Context {RState : Type} `{ReadCloser RState}.
Variable ReadResponse :
  list byte -> http.Request -> http.Response (list byte) + error.
Variable DumpResponse :
  http.Response (list byte) -> bool -> list byte + error.
Variable ParseTime : string -> Z + error.
Variable flags : Flags.

Local Abbreviation roundTrip := (RoundTrip ReadResponse DumpResponse ParseTime flags).
Local Abbreviation commit := (commitOnEOF DumpResponse).
Local Abbreviation teed := (teed DumpResponse).

Implicit Types (t : cachingTransport RState) (req : http.Request)
  (u : url.URL) (w : World) (resp : http.Response (list byte)).

Lemma RoundTrip_hit t req u now w val resp date cachedAt :
  http.URL req = Some u -> http.Method req = "GET" -> is_Some (Cache t) ->
  cache w !! url.Path u = Some val ->
  ReadResponse val req = inl resp ->
  http.index (http.Header_ resp) "Date" !! 0%nat = Some date ->
  ParseTime date = inl cachedAt ->
  http.StatusCode resp = 200 \/
    now - cachedAt <= time.minutes (cacheRefreshDelay flags) ->
  roundTrip t req now w =
    (Returned (Some (served resp), None),
     log_Print w (audit u req "CACHE_HIT" (Some (http.StatusCode resp)))).
Proof.
  intros Hu Hm Hc Hval Hread Hd Hp Hfresh.
  rewrite (RoundTrip_lookup _ _ _ _ _ _ _ _ _ Hu Hm Hc).
  unfold cachedResponse. rewrite Hval, Hread, Hd, Hp.
  destruct (Z.eqb_spec (http.StatusCode resp) 200) as [E|E]; [reflexivity|].
  destruct Hfresh as [?|Hle]; [contradiction|].
  apply Z.leb_le in Hle. now rewrite Hle.
Qed.

(** Copying the body of a fetched response to end-of-data stores the
    dump of the response, with the bytes copied as its body, under the
    key. *)
Lemma copyBody_commits (respM : http.Response (Body RState)) c cacheKey
    sizes tr (respE : http.Response (Body RState)) w w' respBytes :
  http.Body respM = cachingBody c ->
  OnEOF c = commit cacheKey -> buf c = [] ->
  copyBody respM sizes w = (tr, respE, w') ->
  lastError tr = Some io_EOF ->
  DumpResponse (http.withBody respM (traceBytes tr)) true = inl respBytes ->
  w' = Cache_Set w cacheKey respBytes.
Proof.
  intros Hbody Hon Hbuf Hcopy Hlast Hdump.
  unfold copyBody in Hcopy. rewrite Hbody, drain_drainR in Hcopy.
  pose proof (drainR_snapshots (R c) sizes (buf c)) as Hsnap.
  destruct (drainR (R c) sizes) as [tr0 s]. cbn [fst] in Hsnap.
  injection Hcopy as <- _ <-.
  rewrite Hlast in Hsnap. cbn [isEOF] in Hsnap.
  rewrite Hsnap, Hbuf. cbn [app]. unfold applyCalls. cbn [fold_left]. rewrite Hon.
  unfold commitOnEOF. cbn [captured world].
  change (http.withBody (http.withBody respM ()) (traceBytes tr0))
    with (http.withBody respM (traceBytes tr0)).
  now rewrite Hdump.
Qed.

(** The path from a commit to a hit, for any codec.  The response of a
    fetch for a cacheable GET, its body copied to end-of-data, is
    dumped and stored under the path.  If reading the stored bytes back
    gives that response, a later GET for the same path that is served
    from the cache returns it. *)
Lemma hit_after_commit
    t req1 u1 now1 w0 r w1 (respM : http.Response (Body RState))
    sizes tr (respE : http.Response (Body RState)) w2 respBytes
    req2 u2 now2 date cachedAt :
  http.URL req1 = Some u1 -> http.Method req1 = "GET" -> is_Some (Cache t) ->
  roundTrip t req1 now1 w0 = (Returned (Some (teed (url.Path u1) r), None), w1) ->
  http.Body respM = http.Body (teed (url.Path u1) r) ->
  copyBody respM sizes w1 = (tr, respE, w2) ->
  lastError tr = Some io_EOF ->
  DumpResponse (http.withBody respM (traceBytes tr)) true = inl respBytes ->
  http.URL req2 = Some u2 -> url.Path u2 = url.Path u1 ->
  http.Method req2 = "GET" ->
  ReadResponse respBytes req2 = inl (http.withBody respM (traceBytes tr)) ->
  http.index (http.Header_ respM) "Date" !! 0%nat = Some date ->
  ParseTime date = inl cachedAt ->
  http.StatusCode respM = 200 \/
    now2 - cachedAt <= time.minutes (cacheRefreshDelay flags) ->
  cache w2 = <[url.Path u1 := respBytes]> (cache w1) /\
  roundTrip t req2 now2 w2 =
    (Returned (Some (served (http.withBody respM (traceBytes tr))), None),
     log_Print w2 (audit u2 req2 "CACHE_HIT" (Some (http.StatusCode respM)))).
Proof.
  intros Hu1 Hm1 Hc Hfirst Hbody Hcopy Hlast Hdump Hu2 Hpath Hm2 Hread Hd Hp Hfresh.
  assert (Hw2 : w2 = Cache_Set w1 (url.Path u1) respBytes).
  { eapply (copyBody_commits respM _ (url.Path u1));
      [exact Hbody | reflexivity | reflexivity | exact Hcopy
      | exact Hlast | exact Hdump]. }
  subst w2. split; [reflexivity|].
  eapply (RoundTrip_hit t req2 u2 now2 _ respBytes); eauto.
  rewrite Hpath. cbn [cache Cache_Set]. apply lookup_insert_eq.
Qed.

(** Reads and closes on the body of a returned response, none of the
    reads getting [io.EOF], leave everything as it was. *)
Lemma useBody_noEOF (resp : http.Response (Body RState)) c ops w :
  http.Body resp = cachingBody c ->
  noEOFRead (R c) ops = true ->
  useBody resp ops w = w.
Proof.
  intros Hbody Hno. unfold useBody. rewrite Hbody.
  now rewrite runOps_noEOF.
Qed.
End Committing.

(** ** The codec: bytes, lines and numbers *)

Lemma byte_eqb_refl (c : byte) : Byte.eqb c c = true.
Proof. now apply Byte.byte_dec_lb. Qed.

Lemma byte_eqb_neq (c d : byte) : c <> d -> Byte.eqb c d = false.
Proof.
  intros Hne. destruct (Byte.eqb c d) eqn:E; [|reflexivity].
  now apply Byte.byte_dec_bl in E.
Qed.

Lemma eqBytes_true (a b : list byte) : eqBytes a b = true <-> a = b.
Proof. unfold eqBytes. apply bool_decide_eq_true. Qed.

Lemma toBytes_toString (b : list byte) : toBytes (toString b) = b.
Proof. apply list_byte_of_string_of_list_byte. Qed.

Lemma toString_toBytes (s : string) : toString (toBytes s) = s.
Proof. apply string_of_list_byte_of_string. Qed.

Lemma cutByte_app (sep : byte) (l r : list byte) :
  sep ∉ l -> cutByte sep (l ++ sep :: r) = Some (l, r).
Proof.
  induction l as [|c l IH]; intros Hl; cbn.
  - now rewrite byte_eqb_refl.
  - rewrite byte_eqb_neq by (intros ->; apply Hl; left).
    rewrite IH; [reflexivity|]. intros Hin. apply Hl. now right.
Qed.

Lemma cutByte_None (sep : byte) (l : list byte) :
  sep ∉ l -> cutByte sep l = None.
Proof.
  induction l as [|c l IH]; intros Hl; cbn; [reflexivity|].
  rewrite byte_eqb_neq by (intros ->; apply Hl; left).
  rewrite IH; [reflexivity|]. intros Hin. apply Hl. now right.
Qed.

Lemma trimRightB_snoc_keep (p : byte -> bool) (l : list byte) (c : byte) :
  p c = false -> trimRightB p (l ++ [c]) = l ++ [c].
Proof.
  intros Hc. induction l as [|a l IH]; cbn.
  - now rewrite Hc.
  - rewrite IH. destruct l; reflexivity.
Qed.

Lemma trimRightB_snoc_drop (p : byte -> bool) (l : list byte) (c : byte) :
  p c = true -> trimRightB p (l ++ [c]) = trimRightB p l.
Proof.
  intros Hc. induction l as [|a l IH]; cbn.
  - now rewrite Hc.
  - now rewrite IH.
Qed.

Lemma trimRightB_fixed (p : byte -> bool) (l : list byte) :
  trimRightB p l = l -> forall c : byte, p c = true ->
  forall k : list byte, k ++ [c] <> l.
Proof.
  intros Hfix c Hc k <-. rewrite trimRightB_snoc_drop in Hfix by exact Hc.
  assert (Hlen : (length (trimRightB p k) <= length k)%nat).
  { clear. induction k as [|a k IH]; cbn; [lia|].
    destruct (trimRightB p k); [destruct (p a)|]; cbn in *; lia. }
  rewrite Hfix, length_app in Hlen. cbn in Hlen. lia.
Qed.

Lemma dropLastCR_snoc (l : list byte) : dropLastCR (l ++ [x0d]) = l.
Proof.
  induction l as [|a l IH]; [reflexivity|].
  cbn [app dropLastCR]. rewrite IH. destruct l; reflexivity.
Qed.

Lemma isPrefixB_app (p s : list byte) : isPrefixB p (p ++ s) = true.
Proof. induction p as [|a p IH]; cbn; [reflexivity|]. now rewrite byte_eqb_refl. Qed.

Lemma isPrefixB_inv (p s : list byte) :
  isPrefixB p s = true -> s = p ++ drop (length p) s.
Proof.
  revert s. induction p as [|a p IH]; intros s Hp; [reflexivity|].
  destruct s as [|b s]; [discriminate|]. cbn in Hp.
  apply andb_true_iff in Hp as [Hab Hp]. apply Byte.byte_dec_bl in Hab. subst b.
  cbn. f_equal. now apply IH.
Qed.

(** *** Digits *)

Lemma digitVal_digitByte (d : N) : (d < 16)%N -> digitVal (digitByte d) = Some d.
Proof.
  intros Hd.
  assert (Hin : d ∈ [0; 1; 2; 3; 4; 5; 6; 7; 8; 9; 10; 11; 12; 13; 14; 15]%N).
  { do 16 (destruct d as [|d _] using N.peano_ind;
           [set_solver|rewrite <- N.add_1_r in Hd]); lia. }
  repeat (apply elem_of_cons in Hin as [->|Hin]; [reflexivity|]).
  now apply elem_of_nil in Hin.
Qed.

Lemma parseDigits_app (base acc : N) (l1 l2 : list byte) :
  parseDigits base acc (l1 ++ l2) =
    match parseDigits base acc l1 with
    | Some a => parseDigits base a l2
    | None => None
    end.
Proof.
  revert acc. induction l1 as [|c l1 IH]; intros acc; cbn; [reflexivity|].
  destruct (digitVal c) as [d|]; [|reflexivity].
  destruct (d <? base)%N; [apply IH|reflexivity].
Qed.

Lemma formatDigits_nonempty (fuel : nat) (base n : N) :
  formatDigits (S fuel) base n <> [].
Proof.
  cbn. destruct (n <? base)%N; [discriminate|].
  intros Happ. now apply app_eq_nil in Happ as [_ ?].
Qed.

Lemma parse_formatDigits (fuel : nat) (base n : N) :
  (2 <= base <= 16)%N -> (n < base ^ N.of_nat fuel)%N ->
  parseDigits base 0 (formatDigits fuel base n) = Some n.
Proof.
  intros Hb. revert n. induction fuel as [|fuel IH]; intros n Hn.
  - assert (n = 0)%N as -> by (cbn in Hn; lia). reflexivity.
  - cbn [formatDigits]. destruct (N.ltb_spec n base) as [Hlt|Hge].
    + cbn. rewrite digitVal_digitByte by lia.
      apply N.ltb_lt in Hlt. now rewrite Hlt.
    + rewrite parseDigits_app, IH.
      * cbn. rewrite digitVal_digitByte
          by (pose proof (N.mod_upper_bound n base); lia).
        assert (Hm : (n mod base <? base)%N = true)
          by (apply N.ltb_lt, N.mod_upper_bound; lia).
        rewrite Hm. f_equal.
        pose proof (N.div_mod n base). lia.
      * apply N.Div0.div_lt_upper_bound.
        rewrite Nat2N.inj_succ, N.pow_succ_r' in Hn. exact Hn.
Qed.

Lemma formatUint_fuel (base n : N) :
  (2 <= base)%N -> (n < base ^ N.of_nat (S (N.to_nat (N.log2 n))))%N.
Proof.
  intros Hb. rewrite Nat2N.inj_succ, N2Nat.id.
  destruct (N.eq_dec n 0%N) as [->|Hn].
  - cbn. lia.
  - apply N.lt_le_trans with (2 ^ N.succ (N.log2 n))%N.
    + apply N.log2_spec. lia.
    + apply N.pow_le_mono_l. exact Hb.
Qed.

Lemma parseUint_formatUint (base n : N) :
  (2 <= base <= 16)%N -> parseUint base (formatUint base n) = Some n.
Proof.
  intros Hb. unfold parseUint, formatUint.
  pose proof (formatDigits_nonempty (N.to_nat (N.log2 n)) base n) as Hne.
  destruct (formatDigits _ base n) eqn:E; [contradiction|].
  rewrite <- E. apply parse_formatDigits; [exact Hb|].
  apply formatUint_fuel. lia.
Qed.

Lemma digitByte_digit (d : N) : digitByte d ∈ digitBytes.
Proof.
  apply list_elem_of_In. unfold digitByte, digitBytes.
  repeat case_match; cbn; auto 20.
Qed.

Lemma formatDigits_digits (fuel : nat) (base n : N) :
  Forall (fun c => c ∈ digitBytes) (formatDigits fuel base n).
Proof.
  revert n. induction fuel as [|fuel IH]; intros n; cbn; [constructor|].
  destruct (n <? base)%N.
  - apply Forall_singleton, digitByte_digit.
  - apply Forall_app. split; [apply IH|]. apply Forall_singleton, digitByte_digit.
Qed.

Lemma formatDigits_length (fuel : nat) (n : N) (k : nat) :
  (n < 16 ^ N.of_nat k)%N -> (1 <= k)%nat ->
  (length (formatDigits fuel 16 n) <= k)%nat.
Proof.
  revert n k. induction fuel as [|fuel IH]; intros n k Hn Hk; cbn; [lia|].
  destruct (N.ltb_spec n 16) as [Hlt|Hge]; cbn; [lia|].
  rewrite length_app. cbn.
  destruct k as [|k]; [lia|].
  destruct k as [|k]; [cbn in Hn; lia|].
  specialize (IH (n / 16)%N (S k)).
  rewrite Nat2N.inj_succ, N.pow_succ_r' in Hn.
  assert (Hdiv : (n / 16 < 16 ^ N.of_nat (S k))%N)
    by (apply N.Div0.div_lt_upper_bound; lia).
  specialize (IH Hdiv ltac:(lia)). lia.
Qed.

Lemma trimLeftB_id (p : byte -> bool) (l : list byte) :
  match l with c :: _ => p c = false | [] => True end -> trimLeftB p l = l.
Proof. destruct l as [|c l]; cbn; [reflexivity|]. now intros ->. Qed.

Lemma trimRightB_id (p : byte -> bool) (l : list byte) :
  match reverse l with c :: _ => p c = false | [] => True end -> trimRightB p l = l.
Proof.
  destruct l as [|c l _] using rev_ind; [reflexivity|].
  rewrite reverse_snoc. apply trimRightB_snoc_keep.
Qed.

Lemma trimB_Forall (p : byte -> bool) (l : list byte) :
  Forall (fun c => p c = false) l -> trimB p l = l.
Proof.
  intros Hl. unfold trimB. rewrite trimLeftB_id.
  - apply trimRightB_id. apply Forall_reverse in Hl.
    destruct (reverse l); [exact I|]. now inversion Hl.
  - destruct l; [exact I|]. now inversion Hl.
Qed.

Lemma digit_not_blank (c : byte) : c ∈ digitBytes -> isASCIISpace c = false.
Proof.
  unfold digitBytes. intros Hin.
  repeat (apply elem_of_cons in Hin as [->|Hin]; [reflexivity|]).
  now apply elem_of_nil in Hin.
Qed.

Lemma digit_plain (c : byte) :
  c ∈ digitBytes -> c <> x0a /\ c <> x0d /\ c <> x3b /\ c <> x20.
Proof.
  unfold digitBytes. intros Hin.
  repeat (apply elem_of_cons in Hin as [->|Hin]; [repeat split; discriminate|]).
  now apply elem_of_nil in Hin.
Qed.

Lemma codes_ok (c : Z) :
  100 <= c <= 999 ->
  format03d c = Itoa c /\ length (Itoa c) = 3%nat /\ Atoi (Itoa c) = Some c /\
  Forall (fun b => b ∈ digitBytes) (Itoa c).
Proof.
  intros Hc.
  assert (Hall : forallb codeOK (seqZ 100 900) = true) by (vm_compute; reflexivity).
  rewrite forallb_forall in Hall.
  assert (Hok : codeOK c = true) by (apply Hall, list_elem_of_In, elem_of_seqZ; lia).
  unfold codeOK in Hok.
  apply andb_true_iff in Hok as [Hok Hdig]. apply andb_true_iff in Hok as [Hok Hatoi].
  apply andb_true_iff in Hok as [Hfmt Hlen].
  apply eqBytes_true in Hfmt. apply bool_decide_eq_true in Hlen, Hatoi.
  repeat split; try assumption.
  apply Forall_forall. intros b Hb. rewrite forallb_forall in Hdig.
  now apply list_elem_of_In, Hdig, bool_decide_eq_true in Hb.
Qed.

Lemma version_digits_ok (d : Z) :
  0 <= d <= 9 ->
  Itoa d = [digitByte (Z.to_N d)] /\
  parseUint 10 [digitByte (Z.to_N d)] = Some (Z.to_N d).
Proof.
  intros Hd.
  assert (Hall : forallb versionDigitOK (seqZ 0 10) = true) by (vm_compute; reflexivity).
  rewrite forallb_forall in Hall.
  assert (Hok : versionDigitOK d = true) by (apply Hall, list_elem_of_In, elem_of_seqZ; lia).
  unfold versionDigitOK in Hok. apply andb_true_iff in Hok as [H1 H2].
  now apply bool_decide_eq_true in H1, H2.
Qed.

(** *** Header lines *)

Lemma token_byte_plain (c : byte) :
  isTokenByte c = true ->
  c <> x3a /\ c <> x0a /\ c <> x0d /\ c <> x20 /\ isSpaceTab c = false.
Proof.
  intros Hc. destruct c; vm_compute in Hc; try discriminate;
    repeat split; discriminate.
Qed.

Lemma value_byte_plain (c : byte) : isValueByte c = true -> c <> x0a /\ c <> x0d.
Proof.
  intros Hc. destruct c; vm_compute in Hc; try discriminate; split; discriminate.
Qed.

Lemma forallb_not_in (p : byte -> bool) (l : list byte) (c : byte) :
  forallb p l = true -> p c = false -> c ∉ l.
Proof.
  intros Hl Hc Hin. rewrite forallb_forall in Hl.
  apply list_elem_of_In, Hl in Hin. congruence.
Qed.

Lemma readLine_line (l r : list byte) :
  x0a ∉ l -> readLine (l ++ CRLFb ++ r) = Some (l, r).
Proof.
  intros Hl. unfold readLine.
  destruct (l ++ CRLFb ++ r) eqn:E; [destruct l; discriminate|]. rewrite <- E.
  change (l ++ CRLFb ++ r) with (l ++ [x0d] ++ x0a :: r).
  rewrite app_assoc, cutByte_app.
  - now rewrite dropLastCR_snoc.
  - intros Hin. apply elem_of_app in Hin as [Hin|Hin]; [contradiction|].
    apply list_elem_of_singleton in Hin. discriminate.
Qed.

Lemma continuation_noLead (fuel : nat) (acc r : list byte) :
  noLead r -> continuation fuel acc r = (acc, r).
Proof.
  intros Hr. destruct fuel; [reflexivity|]. cbn.
  destruct r as [|c r]; [reflexivity|]. cbn in Hr. now rewrite Hr.
Qed.

Lemma trimLeftB_length (p : byte -> bool) (l : list byte) :
  (length (trimLeftB p l) <= length l)%nat.
Proof. induction l as [|c l IH]; cbn; [lia|]. destruct (p c); cbn; lia. Qed.

Lemma trimRightB_length (p : byte -> bool) (l : list byte) :
  (length (trimRightB p l) <= length l)%nat.
Proof.
  induction l as [|c l IH]; cbn; [lia|].
  destruct (trimRightB p l); [destruct (p c)|]; cbn in *; lia.
Qed.

Lemma trimB_fixed_first (p : byte -> bool) (c : byte) (l : list byte) :
  trimB p (c :: l) = c :: l -> p c = false.
Proof.
  intros Hfix. destruct (p c) eqn:Hc; [|reflexivity].
  unfold trimB in Hfix. cbn in Hfix. rewrite Hc in Hfix.
  pose proof (trimRightB_length p (trimLeftB p l)) as H1.
  pose proof (trimLeftB_length p l) as H2.
  rewrite Hfix in H1. cbn in H1. lia.
Qed.

Lemma trimB_fixed_right (p : byte -> bool) (l : list byte) :
  trimB p l = l -> trimRightB p l = l.
Proof.
  intros Hfix. destruct l as [|c l]; [reflexivity|].
  pose proof (trimB_fixed_first p c l Hfix) as Hc.
  unfold trimB in Hfix. cbn [trimLeftB] in Hfix. now rewrite Hc in Hfix.
Qed.

Lemma weaker_trim (v : list byte) :
  trimB isASCIISpace v = v ->
  trimLeftB isSpaceTab v = v /\
  forall k : list byte, v <> [] -> trimRightB isSpaceTab (k ++ v) = k ++ v.
Proof.
  intros Hfix. split.
  - destruct v as [|c v]; [reflexivity|].
    apply trimB_fixed_first in Hfix. cbn.
    destruct c; try reflexivity; discriminate.
  - intros k Hne. apply trimB_fixed_right in Hfix.
    destruct v as [|c v _] using rev_ind; [contradiction|].
    rewrite app_assoc. apply trimRightB_snoc_keep.
    destruct (isASCIISpace c) eqn:Hc.
    + now destruct (trimRightB_fixed _ _ Hfix c Hc v).
    + destruct c; try reflexivity; discriminate.
Qed.

Lemma canonical_key (k : list byte) :
  goodKey k -> canonicalMIMEHeaderKey k = Some k.
Proof.
  intros (Hne & Htok & Hcan). unfold canonicalMIMEHeaderKey.
  destruct k as [|c k]; [contradiction|].
  assert (Hsp : forallb (fun c => isTokenByte c || Byte.eqb c x20) (c :: k) = true).
  { rewrite forallb_forall in *. intros x Hx. now rewrite (Htok x Hx). }
  now rewrite Hsp, Htok, Hcan.
Qed.

(** One header line that was written is one field that is read. *)
Lemma readHeaderLines_bytes (fuel : nat) (h : http.Header) (k v r : list byte) :
  goodKey k -> goodValue v -> noLead r ->
  readHeaderLines (S fuel) h (headerLine k v ++ r) =
    readHeaderLines fuel (Header_Add h (toString k) (toString v)) r.
Proof.
  intros Hk [Hval Htrim] Hr.
  pose proof Hk as (Hne & Htok & Hcan).
  assert (Hkc : forall c, c ∈ k -> isTokenByte c = true).
  { intros c Hc. rewrite forallb_forall in Htok. now apply Htok, list_elem_of_In. }
  assert (Hvc : forall c, c ∈ v -> isValueByte c = true).
  { intros c Hc. rewrite forallb_forall in Hval. now apply Hval, list_elem_of_In. }
  cbn [readHeaderLines]. unfold headerLine.
  replace ((k ++ [x3a; x20] ++ v ++ CRLFb) ++ r)
    with ((k ++ [x3a; x20] ++ v) ++ CRLFb ++ r) by now rewrite <- !app_assoc.
  rewrite readLine_line.
  2:{ intros Hin. apply elem_of_app in Hin as [Hin|Hin].
      - apply Hkc, token_byte_plain in Hin. tauto.
      - apply elem_of_app in Hin as [Hin|Hin].
        + repeat (apply elem_of_cons in Hin as [Hin|Hin]; [discriminate|]).
          now apply elem_of_nil in Hin.
        + apply Hvc, value_byte_plain in Hin. tauto. }
  destruct (k ++ [x3a; x20] ++ v) as [|c0 l0] eqn:El;
    [destruct k; [contradiction|discriminate]|].
  rewrite <- El. clear c0 l0 El.
  rewrite bool_decide_eq_true_2
    by (apply elem_of_app; right; left). cbn [negb].
  rewrite continuation_noLead by exact Hr.
  destruct (weaker_trim v Htrim) as [Hleft Hright].
  set (v' := match v with [] => [] | _ => x20 :: v end).
  assert (Htr : trimB isSpaceTab (k ++ [x3a; x20] ++ v) = k ++ x3a :: v').
  { unfold trimB. rewrite trimLeftB_id.
    2:{ destruct k as [|c k']; [contradiction|]. cbn [app].
        apply (token_byte_plain c). apply Hkc. left. }
    unfold v'. destruct v as [|b v0] eqn:Ev.
    - change (k ++ [x3a; x20] ++ []) with (k ++ [x3a] ++ [x20]).
      rewrite app_assoc, trimRightB_snoc_drop by reflexivity.
      now rewrite trimRightB_snoc_keep by reflexivity.
    - rewrite <- Ev in *.
      rewrite app_assoc, Hright by (rewrite Ev; discriminate).
      now rewrite <- app_assoc. }
  rewrite Htr.
  rewrite cutByte_app
    by (intros Hin; apply Hkc, token_byte_plain in Hin; tauto).
  rewrite (canonical_key k Hk).
  assert (Hv' : forallb isValueByte v' = true).
  { unfold v'. destruct v as [|b v0] eqn:Ev; [reflexivity|].
    rewrite <- Ev in *. cbn [forallb]. now rewrite Hval. }
  rewrite Hv'. cbn [negb].
  assert (Hl : trimLeftB isSpaceTab v' = v).
  { unfold v'. destruct v as [|b v0] eqn:Ev; [reflexivity|].
    rewrite <- Ev in *. cbn [trimLeftB]. cbn. exact Hleft. }
  now rewrite Hl.
Qed.

Lemma readHeaderLines_field (fuel : nat) (h : http.Header) (kv : string * string)
    (r : list byte) :
  goodLine kv -> noLead r ->
  readHeaderLines (S fuel) h (lineOf kv ++ r) =
    readHeaderLines fuel (addLine h kv) r.
Proof.
  intros [Hk Hv] Hr. unfold lineOf, addLine.
  rewrite readHeaderLines_bytes by assumption.
  now rewrite !toString_toBytes.
Qed.

Lemma readHeaderLines_end (fuel : nat) (h : http.Header) (r : list byte) :
  readHeaderLines (S fuel) h (CRLFb ++ r) = inl (h, r).
Proof.
  cbn [readHeaderLines].
  pose proof (readLine_line [] r (not_elem_of_nil _)) as Hl.
  unfold CRLFb in *. cbn [app] in *. now rewrite Hl.
Qed.

Lemma lineOf_noLead (kv : string * string) (r : list byte) :
  goodLine kv -> noLead (lineOf kv ++ r).
Proof.
  intros [(Hne & Htok & _) _]. unfold lineOf, headerLine.
  destruct (toBytes kv.1) as [|c k]; [contradiction|]. cbn.
  cbn in Htok. apply andb_true_iff in Htok as [Hc _].
  now apply token_byte_plain in Hc.
Qed.

(** The lines that were written are the fields that are read. *)
Lemma readHeaderLines_lines (kvs : list (string * string)) (fuel : nat)
    (h : http.Header) (r : list byte) :
  Forall goodLine kvs -> noLead r ->
  readHeaderLines (length kvs + fuel) h (concat (map lineOf kvs) ++ r) =
    readHeaderLines fuel (foldl addLine h kvs) r.
Proof.
  revert h. induction kvs as [|kv kvs IH]; intros h Hall Hr; [reflexivity|].
  inversion Hall as [|? ? Hkv Hrest]; subst.
  cbn [length Nat.add map concat foldl]. rewrite <- app_assoc.
  rewrite readHeaderLines_field; [now apply IH|exact Hkv|].
  destruct kvs as [|kv' kvs']; [exact Hr|].
  cbn [map concat]. rewrite <- app_assoc. apply lineOf_noLead.
  now inversion Hrest.
Qed.

(** *** The header that the lines make *)

Lemma valuesOf_cons (k : string) (kv : string * string) (kvs : list (string * string)) :
  valuesOf k (kv :: kvs) =
    if String.eqb (fst kv) k then snd kv :: valuesOf k kvs else valuesOf k kvs.
Proof. unfold valuesOf. cbn. now destruct (String.eqb (fst kv) k). Qed.

Lemma valuesOf_app (k : string) (a b : list (string * string)) :
  valuesOf k (a ++ b) = valuesOf k a ++ valuesOf k b.
Proof. unfold valuesOf. now rewrite List.filter_app, map_app. Qed.

Lemma lookup_lines (kvs : list (string * string)) (h : http.Header) (k : string) :
  foldl addLine h kvs !! k =
    match valuesOf k kvs with
    | [] => h !! k
    | vs => Some (http.index h k ++ vs)
    end.
Proof.
  revert h. induction kvs as [|[k' v] kvs IH]; intros h; [reflexivity|].
  cbn [foldl]. rewrite IH, valuesOf_cons. cbn [fst snd].
  unfold addLine, Header_Add, http.index. cbn [fst snd].
  destruct (String.eqb_spec k' k) as [->|Hne].
  - rewrite lookup_insert_eq. cbn [default].
    destruct (valuesOf k kvs); [reflexivity|].
    unfold id. now rewrite <- app_assoc.
  - now rewrite lookup_insert_ne by exact Hne.
Qed.

Lemma flatten_cons (k : string) (vs : list string)
    (fields : list (string * list string)) :
  flatten ((k, vs) :: fields) = map (fun v => (k, v)) vs ++ flatten fields.
Proof. reflexivity. Qed.

Lemma valuesOf_flatten_absent (k : string) (fields : list (string * list string)) :
  k ∉ fields.*1 -> valuesOf k (flatten fields) = [].
Proof.
  induction fields as [|[k' vs] fields IH]; intros Hk; [reflexivity|].
  rewrite flatten_cons, valuesOf_app, IH.
  - rewrite app_nil_r. assert (Hne : k' <> k) by (intros ->; apply Hk; left).
    clear -Hne. induction vs as [|v vs IHv]; [reflexivity|].
    cbn [map]. rewrite valuesOf_cons. cbn [fst].
    now destruct (String.eqb_spec k' k).
  - intros Hin. apply Hk. now right.
Qed.

Lemma valuesOf_flatten (k : string) (vs : list string)
    (fields : list (string * list string)) :
  NoDup fields.*1 -> (k, vs) ∈ fields -> valuesOf k (flatten fields) = vs.
Proof.
  induction fields as [|[k' vs'] fields IH]; intros Hnd Hin.
  - now apply elem_of_nil in Hin.
  - cbn [fmap list_fmap fst] in Hnd. apply NoDup_cons in Hnd as [Hk' Hnd].
    rewrite flatten_cons, valuesOf_app.
    apply elem_of_cons in Hin as [Heq|Hin].
    + injection Heq as -> ->.
      rewrite (valuesOf_flatten_absent _ _ Hk'), app_nil_r.
      clear. induction vs' as [|v vs IHv]; [reflexivity|].
      cbn [map]. rewrite valuesOf_cons. cbn [fst snd].
      rewrite String.eqb_refl. now rewrite IHv.
    + rewrite (IH Hnd Hin).
      assert (Hne : k' <> k).
      { intros ->. apply Hk'. apply list_elem_of_fmap. now exists (k, vs). }
      clear -Hne. induction vs' as [|v vs' IHv]; [reflexivity|].
      cbn [map]. rewrite valuesOf_cons. cbn [fst].
      now destruct (String.eqb_spec k' k).
Qed.

Lemma NoDup_fst_filter (f : string * list string -> bool)
    (l : list (string * list string)) :
  NoDup l.*1 -> NoDup (List.filter f l).*1.
Proof.
  induction l as [|a l IH]; intros Hnd; [constructor|].
  cbn [fmap list_fmap] in Hnd. apply NoDup_cons in Hnd as [Ha Hnd].
  cbn [List.filter]. destruct (f a); [|now apply IH].
  cbn [fmap list_fmap]. apply NoDup_cons. split; [|now apply IH].
  intros Hin. apply Ha. apply list_elem_of_fmap in Hin as (x & -> & Hx).
  apply list_elem_of_fmap. exists x. split; [reflexivity|].
  apply list_elem_of_In in Hx. apply List.filter_In in Hx as [Hx _].
  now apply list_elem_of_In.
Qed.

Lemma writtenFields_elem (h : http.Header) (k : string) (vs : list string) :
  (k, vs) ∈ writtenFields h <-> h !! k = Some vs /\ written (k, vs) = true.
Proof.
  unfold writtenFields. rewrite list_elem_of_In, List.filter_In.
  rewrite <- list_elem_of_In, merge_sort_Permutation, elem_of_map_to_list.
  reflexivity.
Qed.

Lemma writtenFields_NoDup (h : http.Header) : NoDup (writtenFields h).*1.
Proof.
  apply NoDup_fst_filter.
  rewrite (merge_sort_Permutation keyLeb (map_to_list h)).
  apply NoDup_fst_map_to_list.
Qed.

Lemma fields_ok (h : http.Header) (k : string) (vs : list string) :
  forallb fieldOK (map_to_list h) = true -> h !! k = Some vs ->
  fieldOK (k, vs) = true.
Proof.
  intros Hall Hk. rewrite forallb_forall in Hall.
  apply Hall, list_elem_of_In, elem_of_map_to_list, Hk.
Qed.

Lemma fieldOK_inv (k : string) (vs : list string) :
  fieldOK (k, vs) = true ->
  k <> "Transfer-Encoding" /\ k <> "Trailer" /\ ValidHeaderFieldName k = true /\
  goodKey (toBytes k) /\ vs <> [] /\
  forall v, v ∈ vs -> goodValue (toBytes v) /\ writtenValue v = toBytes v.
Proof.
  unfold fieldOK. cbn [fst snd]. intros Hok.
  apply andb_true_iff in Hok as [Hok Hvalues].
  apply andb_true_iff in Hok as [Hok Hsome].
  apply andb_true_iff in Hok as [Hok Hcanon].
  apply andb_true_iff in Hok as [Hkept Hvalid].
  apply negb_true_iff, bool_decide_eq_false in Hkept.
  apply negb_true_iff, bool_decide_eq_false in Hsome.
  apply eqBytes_true in Hcanon.
  pose proof Hvalid as Hv. unfold ValidHeaderFieldName in Hv.
  apply andb_true_iff in Hv as [Hne Htok]. apply negb_true_iff in Hne.
  split; [intros ->; apply Hkept; left|].
  split; [intros ->; apply Hkept; right; left|].
  split; [exact Hvalid|]. split.
  - split; [|split; assumption]. intros E. rewrite E in Hne. discriminate.
  - split; [exact Hsome|]. intros v Hv.
    rewrite forallb_forall in Hvalues. apply list_elem_of_In, Hvalues in Hv.
    apply andb_true_iff in Hv as [Hval Hw]. apply eqBytes_true in Hw.
    split; [|exact Hw]. split; [exact Hval|].
    unfold writtenValue in Hw.
    rewrite (map_ext_in _ id), map_id in Hw; [exact Hw|].
    intros c Hc. rewrite forallb_forall in Hval. apply Hval in Hc.
    apply value_byte_plain in Hc as [? ?].
    now rewrite !byte_eqb_neq.
Qed.

Lemma writeFields_lines (fields : list (string * list string)) :
  (forall k vs v, (k, vs) ∈ fields -> v ∈ vs -> writtenValue v = toBytes v) ->
  writeFields fields = concat (map lineOf (flatten fields)).
Proof.
  induction fields as [|[k vs] fields IH]; intros Hw; [reflexivity|].
  rewrite flatten_cons. unfold writeFields in *. cbn [map concat].
  rewrite map_app, concat_app, IH.
  - f_equal. unfold writeField. cbn [fst snd]. f_equal.
    rewrite map_map. apply map_ext_in. intros v Hv. unfold lineOf. cbn [fst snd].
    rewrite (Hw k vs v); [reflexivity|left|now apply list_elem_of_In].
  - intros k' vs' v Hin Hv. apply (Hw k' vs' v); [now right|exact Hv].
Qed.

Section HeaderBack.
Variable h : http.Header.
Hypothesis Hfields : forallb fieldOK (map_to_list h) = true.

Lemma written_fields_good : Forall goodLine (flatten (writtenFields h)).
Proof.
  apply Forall_forall. intros [k v] Hin.
  unfold flatten in Hin. apply list_elem_of_In, in_flat_map in Hin as ([k' vs] & Hkv & Hv).
  cbn [fst snd] in Hv. apply in_map_iff in Hv as (v' & Heq & Hv').
  injection Heq as -> ->.
  apply list_elem_of_In, writtenFields_elem in Hkv as [Hk _].
  apply (fields_ok h _ _ Hfields), fieldOK_inv in Hk as (_ & _ & _ & Hkey & _ & Hvals).
  split; cbn [fst snd]; [exact Hkey|]. now apply Hvals, list_elem_of_In.
Qed.

Lemma written_fields_lines :
  writeFields (writtenFields h) = concat (map lineOf (flatten (writtenFields h))).
Proof.
  apply writeFields_lines. intros k vs v Hkv Hv.
  apply writtenFields_elem in Hkv as [Hk _].
  apply (fields_ok h _ _ Hfields), fieldOK_inv in Hk as (_ & _ & _ & _ & _ & Hvals).
  now apply Hvals.
Qed.

Lemma written_values (k : string) :
  valuesOf k (flatten (writtenFields h)) =
    if String.eqb k "Content-Length" then [] else http.index h k.
Proof.
  unfold http.index. destruct (h !! k) as [vs|] eqn:Hk.
  - pose proof (fields_ok h _ _ Hfields Hk) as Hok.
    apply fieldOK_inv in Hok as (Hte & Htr & Hvalid & _).
    destruct (String.eqb_spec k "Content-Length") as [->|Hcl].
    + apply valuesOf_flatten_absent. intros Hin.
      apply list_elem_of_fmap in Hin as ([k' vs'] & Heq & Hin). cbn in Heq. subst k'.
      apply writtenFields_elem in Hin as [_ Hw]. discriminate.
    + cbn [default]. apply valuesOf_flatten; [apply writtenFields_NoDup|].
      apply writtenFields_elem. split; [exact Hk|].
      unfold written. cbn [fst]. rewrite Hvalid, andb_true_r.
      apply negb_true_iff, bool_decide_eq_false. unfold respExcludeHeader.
      intros Hin. repeat (apply elem_of_cons in Hin as [Hin|Hin]; [congruence|]).
      now apply elem_of_nil in Hin.
  - rewrite valuesOf_flatten_absent.
    + now destruct (String.eqb k "Content-Length").
    + intros Hin. apply list_elem_of_fmap in Hin as ([k' vs'] & Heq & Hin).
      cbn in Heq. subst k'. apply writtenFields_elem in Hin as [Hin _]. congruence.
Qed.

(** The header that is read from the lines [before], the fields of [h]
    as they are written, and the lines [after]. *)
Lemma lookup_read_back (before after : list (string * string)) (k : string) :
  foldl addLine ∅ (before ++ flatten (writtenFields h) ++ after) !! k =
    match valuesOf k before
          ++ (if String.eqb k "Content-Length" then [] else http.index h k)
          ++ valuesOf k after with
    | [] => None
    | vs => Some vs
    end.
Proof.
  rewrite lookup_lines, !valuesOf_app, written_values.
  unfold http.index. now rewrite lookup_empty.
Qed.

Lemma index_lookup (k : string) :
  match http.index h k with [] => None | vs => Some vs end = h !! k.
Proof.
  unfold http.index. destruct (h !! k) as [vs|] eqn:Hk; [|reflexivity].
  apply (fields_ok h _ _ Hfields), fieldOK_inv in Hk as (_ & _ & _ & _ & Hne & _).
  cbn [default]. now destruct vs.
Qed.
End HeaderBack.

(** *** Chunked bodies *)

Lemma wrap64_id (z : Z) : - 2^63 <= z < 2^63 -> wrap64 z = z.
Proof. intros Hz. unfold wrap64. rewrite Z.mod_small; lia. Qed.

Lemma formatUint_digits (base n : N) :
  Forall (fun c => c ∈ digitBytes) (formatUint base n).
Proof. apply formatDigits_digits. Qed.

Lemma formatUint_hex_length (n : N) :
  (n < 2 ^ 64)%N -> (1 <= length (formatUint 16 n) <= 16)%nat.
Proof.
  intros Hn. split.
  - unfold formatUint. cbn [formatDigits].
    destruct (n <? 16)%N; [cbn; lia|]. rewrite length_app. cbn. lia.
  - apply formatDigits_length; [|lia]. now change (16 ^ N.of_nat 16)%N with (2 ^ 64)%N.
Qed.

Lemma readChunkLine_digits (digits r : list byte) :
  Forall (fun c => c ∈ digitBytes) digits -> (length digits <= 16)%nat ->
  readChunkLine (digits ++ CRLFb ++ r) = Some (digits, r).
Proof.
  intros Hd Hlen. unfold readChunkLine.
  assert (Hno : forall c, c ∈ digits -> c <> x0a /\ c <> x0d).
  { intros c Hc. rewrite Forall_forall in Hd. apply Hd, digit_plain in Hc. tauto. }
  change (digits ++ CRLFb ++ r) with (digits ++ [x0d] ++ x0a :: r).
  rewrite app_assoc, cutByte_app.
  - destruct (Z.leb_spec 4096 (Z.of_nat (length (digits ++ [x0d])))) as [Hbig|_].
    + rewrite length_app in Hbig. cbn in Hbig. lia.
    + rewrite cutByte_app; [reflexivity|]. intros Hin. now apply Hno in Hin.
  - intros Hin. apply elem_of_app in Hin as [Hin|Hin].
    + now apply Hno in Hin.
    + apply list_elem_of_singleton in Hin. discriminate.
Qed.

Lemma chunkSize_formatUint (n : N) :
  (n < 2 ^ 64)%N -> chunkSize (formatUint 16 n) = Some n.
Proof.
  intros Hn. unfold chunkSize.
  pose proof (formatUint_digits 16 n) as Hd.
  pose proof (formatUint_hex_length n Hn) as Hlen.
  assert (Htrim : trimRightB isASCIISpace (formatUint 16 n) = formatUint 16 n).
  { apply trimB_fixed_right, trimB_Forall.
    eapply Forall_impl; [exact Hd|]. apply digit_not_blank. }
  rewrite Htrim, cutByte_None.
  - rewrite bool_decide_eq_false_2 by lia. apply parseUint_formatUint. lia.
  - intros Hin. rewrite Forall_forall in Hd. apply Hd, digit_plain in Hin. tauto.
Qed.

Lemma readChunked_chunk (fuel : nat) (p rest : list byte) :
  p <> [] -> Z.of_nat (length p) < 2^61 ->
  readChunked (S fuel) 0 (writeChunk p ++ rest) = p ++ readChunked fuel 0 rest.
Proof.
  intros Hp Hlen. unfold writeChunk. destruct p as [|b p0] eqn:Ep; [contradiction|].
  rewrite <- Ep in *. clear Hp.
  set (n := N.of_nat (length p)).
  assert (Hn : (0 < n < 2 ^ 61)%N) by (subst n; rewrite Ep in *; cbn in *; lia).
  cbn [readChunked]. rewrite <- !app_assoc.
  rewrite readChunkLine_digits;
    [|apply formatUint_digits|apply formatUint_hex_length; lia].
  rewrite chunkSize_formatUint by lia.
  pose proof (formatUint_hex_length n ltac:(lia)) as Hd.
  assert (Hex : Z.max (wrap64 (wrap64 (0 + Z.of_nat (length (formatUint 16 n)) + 2)
                 - wrap64 (16 + wrap64 (2 * wrap64 (Z.of_N n))))) 0 = 0).
  { rewrite (wrap64_id (Z.of_N n)) by lia.
    rewrite (wrap64_id (2 * _)) by lia.
    rewrite (wrap64_id (16 + _)) by lia.
    rewrite (wrap64_id (0 + _ + _)) by lia.
    rewrite wrap64_id by lia. lia. }
  rewrite Hex. cbn [Z.ltb Z.compare].
  destruct (N.eqb_spec n 0) as [E|_]; [lia|].
  assert (Hnat : N.to_nat n = length p) by (subst n; apply Nat2N.id).
  rewrite Hnat, take_app_length, drop_app_length.
  rewrite bool_decide_eq_true_2 by reflexivity.
  now rewrite isPrefixB_app.
Qed.

Lemma readChunked_last (fuel : nat) (rest : list byte) :
  readChunked (S fuel) 0 (x30 :: CRLFb ++ rest) = [].
Proof. reflexivity. Qed.

Lemma readChunked_writes (pieces : list (list byte)) (fuel : nat) (rest : list byte) :
  Forall (fun p => p <> [] /\ Z.of_nat (length p) < 2^61) pieces ->
  (length pieces < fuel)%nat ->
  readChunked fuel 0 (writeChunked pieces ++ rest) = concat pieces.
Proof.
  unfold writeChunked. revert fuel.
  induction pieces as [|p pieces IH]; intros fuel Hall Hfuel.
  - destruct fuel; [cbn in Hfuel; lia|]. cbn [map concat app].
    apply readChunked_last.
  - inversion Hall as [|? ? [Hp Hlen] Hrest]; subst.
    destruct fuel; [cbn in Hfuel; lia|]. cbn [map concat].
    rewrite <- !app_assoc, readChunked_chunk by assumption.
    f_equal. rewrite app_assoc. apply IH; [exact Hrest|]. cbn in Hfuel. lia.
Qed.

Lemma chunkPieces_spec (size : nat) (fuel : nat) (body : list byte) :
  (0 < size)%nat -> (length body <= fuel)%nat ->
  concat (chunkPieces fuel size body) = body /\
  Forall (fun p => p <> [] /\ (length p <= length body)%nat)
         (chunkPieces fuel size body).
Proof.
  intros Hsize. revert body. induction fuel as [|fuel IH]; intros body Hfuel.
  - destruct body; [split; [reflexivity|constructor]|cbn in Hfuel; lia].
  - cbn [chunkPieces]. destruct body as [|b body0] eqn:Eb;
      [split; [reflexivity|constructor]|].
    rewrite <- Eb in *.
    assert (Hlen : (0 < length body)%nat) by (rewrite Eb; cbn; lia).
    destruct (IH (drop size body)) as [Hcat Hall].
    { rewrite length_drop. lia. }
    split.
    + cbn [concat]. rewrite Hcat. apply take_drop.
    + constructor.
      * split.
        -- intros E. apply (f_equal length) in E. rewrite length_take in E.
           cbn in E. lia.
        -- rewrite length_take. lia.
      * eapply Forall_impl; [exact Hall|]. cbn. intros p [? Hp].
        split; [assumption|]. rewrite length_drop in Hp. lia.
Qed.

Lemma bodyWrites_spec (probed : bool) (body : list byte) :
  (probed = true -> body <> []) ->
  concat (bodyWrites probed body) = body /\
  Forall (fun p => p <> [] /\ (length p <= length body)%nat) (bodyWrites probed body).
Proof.
  intros Hprobed. unfold bodyWrites. destruct probed.
  - destruct body as [|b body]; [now destruct Hprobed|].
    destruct (chunkPieces_spec copyBufSize (length (b :: body)) (drop 1 (b :: body)))
      as [Hcat Hall].
    + unfold copyBufSize. lia.
    + rewrite length_drop. lia.
    + split.
      * cbn [concat]. rewrite Hcat. apply take_drop.
      * constructor; [split; [discriminate|rewrite length_take; lia]|].
        eapply Forall_impl; [exact Hall|]. cbn. intros p [? Hp].
        split; [assumption|]. cbn in Hp. rewrite drop_0 in Hp. lia.
  - destruct body as [|b body]; [split; [reflexivity|constructor]|].
    split; [cbn; now rewrite app_nil_r|].
    constructor; [split; [discriminate|lia]|constructor].
Qed.

Lemma writeChunked_length (pieces : list (list byte)) :
  Forall (fun p => p <> []) pieces ->
  (length pieces < length (writeChunked pieces))%nat.
Proof.
  unfold writeChunked. intros Hall. rewrite length_app. cbn [length].
  enough (length pieces <= length (concat (map writeChunk pieces)))%nat by lia.
  induction Hall as [|p pieces Hp _ IH]; [cbn; lia|].
  cbn [map concat length]. rewrite length_app.
  destruct p as [|b p]; [contradiction|]. unfold writeChunk at 1.
  rewrite !length_app. cbn [length]. lia.
Qed.

(** *** The steps of the reader *)

Lemma atLeast11_inv (major minor : Z) :
  protoAtLeast major minor 1 1 = true ->
  (major <? 1) = false /\ (major =? 1) && (minor =? 0) = false /\
  (major =? 0) && (minor =? 0) = false.
Proof. unfold protoAtLeast. lia. Qed.

Lemma fixPragma_same (h h' : http.Header) :
  h' !! "Pragma" = h !! "Pragma" -> h' !! "Cache-Control" = h !! "Cache-Control" ->
  fixPragmaCacheControl h = h -> fixPragmaCacheControl h' = h'.
Proof.
  unfold fixPragmaCacheControl. intros -> ->.
  destruct (h !! "Pragma") as [[|hp ?]|]; try reflexivity.
  destruct (String.eqb hp "no-cache"); [|reflexivity].
  destruct (h !! "Cache-Control") eqn:Hcc; [reflexivity|].
  intros Hfix. apply (f_equal (fun m => m !! "Cache-Control")) in Hfix.
  rewrite lookup_insert_eq in Hfix. congruence.
Qed.

Lemma shouldClose_close (major minor : Z) (h : http.Header) :
  protoAtLeast major minor 1 1 = true -> h !! "Connection" = Some ["close"] ->
  shouldClose major minor h = (true, delete "Connection" h).
Proof.
  intros (H1 & H2 & _)%atLeast11_inv Hc. unfold shouldClose, http.index.
  now rewrite H1, H2, Hc.
Qed.

Lemma shouldClose_open (major minor : Z) (h : http.Header) :
  protoAtLeast major minor 1 1 = true ->
  containsToken (http.index h "Connection") "close" = false ->
  shouldClose major minor h = (false, h).
Proof.
  intros (H1 & H2 & _)%atLeast11_inv Hc. unfold shouldClose.
  now rewrite H1, H2, Hc.
Qed.

Lemma parseTransferEncoding_chunked (major minor : Z) (h : http.Header) :
  protoAtLeast major minor 1 1 = true -> h !! "Transfer-Encoding" = Some ["chunked"] ->
  parseTransferEncoding major minor h = inl (true, delete "Transfer-Encoding" h).
Proof. intros H11 Hte. unfold parseTransferEncoding. now rewrite Hte, H11. Qed.

Lemma parseTransferEncoding_none (major minor : Z) (h : http.Header) :
  h !! "Transfer-Encoding" = None ->
  parseTransferEncoding major minor h = inl (false, h).
Proof. intros Hte. unfold parseTransferEncoding. now rewrite Hte. Qed.

Lemma fixLength_none (status : Z) (method : string) (h : http.Header) (isChunked : bool) :
  h !! "Content-Length" = None -> String.eqb method "HEAD" = false ->
  fixLength status method h isChunked =
    inl (if bodyAllowedForStatus status then (-1, delete "Content-Length" h) else (0, h)).
Proof.
  intros Hcl Hm. unfold fixLength, http.index, bodyAllowedForStatus.
  rewrite Hcl. cbn [default id]. rewrite ?Hcl. cbn [default id]. rewrite Hm.
  destruct ((100 <=? status) && (status <=? 199)); [reflexivity|].
  cbn [orb]. destruct ((status =? 204) || (status =? 304)); [reflexivity|].
  now destruct isChunked.
Qed.

Lemma fixLength_one (status : Z) (method : string) (h : http.Header) (v : string) (n : Z) :
  h !! "Content-Length" = Some [v] -> parseContentLength v = Some n ->
  String.eqb method "HEAD" = false ->
  fixLength status method h false =
    inl (if bodyAllowedForStatus status then (n, h) else (0, h)).
Proof.
  intros Hcl Hn Hm. unfold fixLength, http.index, bodyAllowedForStatus.
  rewrite Hcl. cbn [default id]. rewrite Hcl. cbn [default id]. rewrite Hn, Hm.
  destruct ((100 <=? status) && (status <=? 199)); [reflexivity|].
  cbn [orb]. now destruct ((status =? 204) || (status =? 304)).
Qed.

Lemma fixTrailer_none (h : http.Header) (isChunked : bool) :
  h !! "Trailer" = None -> fixTrailer h isChunked = inl h.
Proof. intros Ht. unfold fixTrailer. now rewrite Ht. Qed.

Lemma parseContentLength_Itoa (n : Z) :
  0 <= n < 2^63 -> parseContentLength (toString (Itoa n)) = Some n.
Proof.
  intros Hn. unfold parseContentLength, Itoa.
  destruct (Z.ltb_spec n 0) as [?|_]; [lia|].
  rewrite toBytes_toString, trimB_Forall.
  - rewrite parseUint_formatUint by lia.
    destruct (N.ltb_spec (Z.to_N n) (2 ^ 63)) as [_|Hbig]; [|lia].
    now rewrite Z2N.id by lia.
  - eapply Forall_impl; [apply formatUint_digits|]. apply digit_not_blank.
Qed.

Lemma concat_lines_length (kvs : list (string * string)) :
  (length kvs <= length (concat (map lineOf kvs)))%nat.
Proof.
  induction kvs as [|kv kvs IH]; [cbn; lia|].
  cbn [map concat length]. rewrite length_app. unfold lineOf at 1, headerLine.
  rewrite !length_app. cbn [length]. lia.
Qed.

Lemma ReadMIMEHeader_lines (kvs : list (string * string)) (r : list byte) :
  Forall goodLine kvs ->
  ReadMIMEHeader (concat (map lineOf kvs) ++ CRLFb ++ r) =
    inl (foldl addLine ∅ kvs, r).
Proof.
  intros Hall.
  assert (Hlead : noLead (concat (map lineOf kvs) ++ CRLFb ++ r)).
  { destruct kvs as [|kv kvs]; [reflexivity|].
    cbn [map concat]. rewrite <- app_assoc. apply lineOf_noLead.
    now inversion Hall. }
  set (s := concat (map lineOf kvs) ++ CRLFb ++ r) in *.
  assert (Hs : ReadMIMEHeader s = readHeaderLines (S (length s)) ∅ s).
  { unfold ReadMIMEHeader. destruct s as [|c s']; [reflexivity|].
    cbn in Hlead. now rewrite Hlead. }
  rewrite Hs.
  assert (Hlen : (length kvs + 2 <= length s)%nat).
  { subst s. rewrite !length_app. pose proof (concat_lines_length kvs). cbn. lia. }
  replace (S (length s)) with (length kvs + S (length s - length kvs))%nat by lia.
  subst s. rewrite readHeaderLines_lines; [|exact Hall|reflexivity].
  apply readHeaderLines_end.
Qed.

Lemma lookup_deletes (dels : list string) (h : http.Header) (k : string) :
  foldr delete h dels !! k = if bool_decide (k ∈ dels) then None else h !! k.
Proof.
  induction dels as [|d dels IH]; [reflexivity|]. cbn [foldr].
  destruct (decide (d = k)) as [->|Hne].
  - rewrite lookup_delete_eq. rewrite bool_decide_eq_true_2; [reflexivity|left].
  - rewrite lookup_delete_ne by exact Hne. rewrite IH.
    destruct (bool_decide (k ∈ dels)) eqn:E.
    + apply bool_decide_eq_true in E. rewrite bool_decide_eq_true_2; [reflexivity|now right].
    + apply bool_decide_eq_false in E. rewrite bool_decide_eq_false_2; [reflexivity|].
      intros Hin. apply elem_of_cons in Hin as [->|Hin]; contradiction.
Qed.

Lemma valuesOf_absent (k : string) (kvs : list (string * string)) :
  k ∉ kvs.*1 -> valuesOf k kvs = [].
Proof.
  induction kvs as [|[k' v] kvs IH]; intros Hk; [reflexivity|].
  rewrite valuesOf_cons. cbn [fst snd].
  destruct (String.eqb_spec k' k) as [->|_].
  - exfalso. apply Hk. left.
  - apply IH. intros Hin. apply Hk. now right.
Qed.

(** The header that is read back, without the fields that the reader
    takes out, is the header that was written. *)
Lemma header_back (h : http.Header) (before after : list (string * string))
    (dels : list string) :
  forallb fieldOK (map_to_list h) = true ->
  (forall k, k ∈ dels -> h !! k = None) ->
  (forall k, k ∈ (before ++ after).*1 -> k ∈ dels \/ k = "Content-Length") ->
  ("Content-Length" ∉ dels ->
   match valuesOf "Content-Length" (before ++ after) with
   | [] => None
   | vs => Some vs
   end = h !! "Content-Length") ->
  foldr delete (foldl addLine ∅ (before ++ flatten (writtenFields h) ++ after)) dels = h.
Proof.
  intros Hok Hdels Hkeys Hcl. apply map_eq. intros k.
  rewrite lookup_deletes. destruct (bool_decide (k ∈ dels)) eqn:E.
  - apply bool_decide_eq_true in E. symmetry. now apply Hdels.
  - apply bool_decide_eq_false in E.
    rewrite (lookup_read_back h Hok).
    destruct (String.eqb_spec k "Content-Length") as [->|Hne].
    + cbn [app]. rewrite <- valuesOf_app. now apply Hcl.
    + assert (Hnone : k ∉ (before ++ after).*1).
      { intros Hin. apply Hkeys in Hin as [?|?]; contradiction. }
      rewrite fmap_app in Hnone.
      rewrite !valuesOf_absent, app_nil_r.
      * cbn [app]. apply (index_lookup h Hok).
      * intros Hin. apply Hnone, elem_of_app. now right.
      * intros Hin. apply Hnone, elem_of_app. now left.
Qed.

(** *** The status line *)

Section StatusLine.
Variable StatusText : Z -> string.

Lemma ReadResponse_statusLine (tf : Transfer) (resp : http.Response (list byte))
    (rest : list byte) (req : http.Request) :
  0 <= ProtoMajor tf <= 9 -> 0 <= ProtoMinor tf <= 9 ->
  100 <= http.StatusCode resp <= 999 ->
  isPrefixB (Itoa (http.StatusCode resp) ++ [x20]) (toBytes (http.Status resp)) = true ->
  x0a ∉ toBytes (http.Status resp) ->
  http_ReadResponse (statusLine StatusText tf resp ++ rest) req =
    match ReadMIMEHeader rest with
    | inr e => inr e
    | inl (h, rest') =>
        match readTransfer (http.StatusCode resp) (ProtoMajor tf) (ProtoMinor tf)
                           (http.Method req) (fixPragmaCacheControl h) rest' with
        | inr e => inr e
        | inl (h, body) =>
            inl {| http.Status := http.Status resp;
                   http.StatusCode := http.StatusCode resp;
                   http.Header_ := h; http.Body := body |}
        end
    end.
Proof.
  intros Hmaj Hmin Hcode Hpre Hlf.
  destruct (version_digits_ok _ Hmaj) as [Hvmaj Hpmaj].
  destruct (version_digits_ok _ Hmin) as [Hvmin Hpmin].
  destruct (codes_ok _ Hcode) as (Hfmt & Hlen & Hatoi & Hdig).
  set (dM := digitByte (Z.to_N (ProtoMajor tf))) in *.
  set (dm := digitByte (Z.to_N (ProtoMinor tf))) in *.
  set (code := http.StatusCode resp) in *.
  set (ccc := Itoa code) in *.
  set (text := drop (length (ccc ++ [x20])) (toBytes (http.Status resp))).
  assert (Hstatus : toBytes (http.Status resp) = ccc ++ x20 :: text).
  { rewrite (isPrefixB_inv _ _ Hpre) at 1. now rewrite <- app_assoc. }
  assert (Hdigits : forall c, c ∈ ccc -> c <> x0a /\ c <> x20).
  { intros c Hin. rewrite Forall_forall in Hdig.
    apply Hdig, digit_plain in Hin. tauto. }
  assert (Hline : statusLine StatusText tf resp =
                  ([x48; x54; x54; x50; x2f; dM; x2e; dm] ++ x20 :: ccc ++ x20 :: text)
                  ++ CRLFb).
  { unfold statusLine. fold code. rewrite Hvmaj, Hvmin, Hfmt. fold ccc.
    destruct (http.Status resp) as [|a s] eqn:Es.
    - cbn in Hstatus. destruct ccc; discriminate.
    - subst text. rewrite <- Es in *. unfold trimPrefixB. rewrite Hpre.
      change (toBytes "HTTP/") with [x48; x54; x54; x50; x2f].
      cbn [app]. rewrite <- !app_assoc. reflexivity. }
  assert (HdM : dM <> x0a /\ dM <> x20)
    by (pose proof (digit_plain dM (digitByte_digit _)); tauto).
  assert (Hdm : dm <> x0a /\ dm <> x20)
    by (pose proof (digit_plain dm (digitByte_digit _)); tauto).
  assert (Htext : x0a ∉ text).
  { intros Hin. apply Hlf. rewrite Hstatus. apply elem_of_app. right. now right. }
  rewrite Hline, <- app_assoc. unfold http_ReadResponse.
  rewrite readLine_line.
  2:{ cbn [app]. intros Hin.
      repeat (apply elem_of_cons in Hin as [Hin|Hin];
              [first [discriminate | symmetry in Hin; tauto]|]).
      apply elem_of_app in Hin as [Hin|Hin]; [apply Hdigits in Hin; tauto|].
      apply elem_of_cons in Hin as [Hin|Hin]; [discriminate|contradiction]. }
  rewrite cutByte_app.
  2:{ intros Hin.
      repeat (apply elem_of_cons in Hin as [Hin|Hin];
              [first [discriminate | symmetry in Hin; tauto]|]).
      now apply elem_of_nil in Hin. }
  assert (Hleft : trimLeftB (fun c => Byte.eqb c x20) (ccc ++ x20 :: text)
                  = ccc ++ x20 :: text).
  { apply trimLeftB_id. destruct ccc as [|c0 ccc'] eqn:Ec; [discriminate|].
    cbn [app]. apply byte_eqb_neq. apply Hdigits. left. }
  rewrite Hleft, cutByte_app by (intros Hin; apply Hdigits in Hin; tauto).
  rewrite bool_decide_eq_true_2 by exact Hlen. cbn [negb].
  rewrite Hatoi.
  destruct (Z.ltb_spec code 0) as [?|_]; [lia|].
  cbn [ParseHTTPVersion app]. rewrite Hpmaj, Hpmin.
  rewrite !Z2N.id by lia.
  rewrite <- Hstatus, toString_toBytes. reflexivity.
Qed.
End StatusLine.

(** *** Reading the transfer *)

Lemma readTransfer_spec (code major minor : Z) (method : string) (h : http.Header)
    (rest : list byte) (closes isChunked : bool) (len : option Z) :
  protoAtLeast major minor 1 1 = true -> String.eqb method "HEAD" = false ->
  (if closes then h !! "Connection" = Some ["close"]
   else containsToken (http.index h "Connection") "close" = false) ->
  h !! "Transfer-Encoding" = (if isChunked then Some ["chunked"] else None) ->
  h !! "Content-Length" =
    match len with Some n => Some [toString (Itoa n)] | None => None end ->
  match len with Some n => 0 <= n < 2^63 /\ isChunked = false | None => True end ->
  h !! "Trailer" = None ->
  readTransfer code major minor method h rest =
    inl (foldr delete h (takenOut code closes isChunked len),
         delivered code isChunked len rest).
Proof.
  intros H11 Hm Hconn Hte Hcl Hlen Htr. unfold readTransfer.
  set (h1 := if closes then delete "Connection" h else h).
  assert (Hclose : shouldClose major minor h = (closes, h1)).
  { subst h1. destruct closes;
      [now apply shouldClose_close|now apply shouldClose_open]. }
  rewrite Hclose.
  destruct (atLeast11_inv _ _ H11) as (_ & _ & H00). rewrite H00.
  assert (Hh1 : forall k, k <> "Connection" -> h1 !! k = h !! k).
  { intros k Hk. subst h1. destruct closes; [|reflexivity].
    now apply lookup_delete_ne. }
  set (h2 := if isChunked then delete "Transfer-Encoding" h1 else h1).
  assert (Hparse : parseTransferEncoding major minor h1 = inl (isChunked, h2)).
  { subst h2. destruct isChunked.
    - apply parseTransferEncoding_chunked; [exact H11|]. now rewrite Hh1.
    - apply parseTransferEncoding_none. now rewrite Hh1. }
  rewrite Hparse.
  assert (Hh2 : forall k, k <> "Connection" -> k <> "Transfer-Encoding" ->
                          h2 !! k = h !! k).
  { intros k Hk1 Hk2. subst h2. destruct isChunked; [|now apply Hh1].
    rewrite lookup_delete_ne by congruence. now apply Hh1. }
  unfold takenOut, delivered.
  destruct len as [n|].
  - destruct Hlen as [Hn ->].
    rewrite (fixLength_one code method h2 (toString (Itoa n)) n);
      [|now rewrite Hh2|now apply parseContentLength_Itoa|exact Hm].
    cbn [orb]. rewrite bool_decide_eq_false_2 by discriminate.
    rewrite andb_false_r. cbn [app].
    destruct (bodyAllowedForStatus code) eqn:Hallowed.
    + rewrite fixTrailer_none by now rewrite Hh2.
      cbn [negb orb andb]. subst h2 h1.
      destruct (Z.eqb_spec n 0) as [->|Hn0].
      * cbn [Z.to_nat take]. now destruct closes.
      * destruct (Z.ltb_spec 0 n) as [_|?]; [|lia]. now destruct closes.
    + rewrite fixTrailer_none by now rewrite Hh2.
      cbn [negb Z.eqb]. subst h2 h1. now destruct closes.
  - rewrite (fixLength_none code method h2 isChunked);
      [|now rewrite Hh2|exact Hm].
    rewrite bool_decide_eq_true_2 by reflexivity. rewrite orb_true_r, andb_true_r.
    destruct (bodyAllowedForStatus code) eqn:Hallowed.
    + rewrite fixTrailer_none
        by (rewrite lookup_delete_ne by discriminate; now rewrite Hh2).
      rewrite Hm. cbn [negb orb andb Z.eqb Z.ltb Z.compare].
      subst h2 h1. destruct isChunked, closes; reflexivity.
    + rewrite fixTrailer_none by now rewrite Hh2.
      rewrite Hm. cbn [negb orb andb Z.eqb].
      subst h2 h1. destruct isChunked, closes; reflexivity.
Qed.

(** *** Reading back what was written *)

Lemma committable_inv (tf : Transfer) (resp : http.Response (list byte)) :
  committable tf resp = true ->
  let body := http.Body resp in
  let code := http.StatusCode resp in
  let h := http.Header_ resp in
  (0 <= ProtoMajor tf <= 9 /\ 0 <= ProtoMinor tf <= 9 /\
   protoAtLeast (ProtoMajor tf) (ProtoMinor tf) 1 1 = true) /\
  (100 <= code <= 999 /\
   isPrefixB (Itoa code ++ [x20]) (toBytes (http.Status resp)) = true /\
   x0a ∉ toBytes (http.Status resp)) /\
  (forallb fieldOK (map_to_list h) = true /\ fixPragmaCacheControl h = h /\
   (if closing tf body then h !! "Connection" = None
    else containsToken (http.index h "Connection") "close" = false)) /\
  (ResponseToHEAD tf = false /\ Z.of_nat (length body) < 2^61 /\
   (bodyAllowedForStatus code = false -> body = [])) /\
  (if chunked (TransferEncoding tf) then h !! "Content-Length" = None
   else if 0 <? probedLength tf body
   then Z.of_nat (length body) = probedLength tf body /\
        h !! "Content-Length" = Some [toString (Itoa (probedLength tf body))]
   else if probedLength tf body =? 0
   then h !! "Content-Length" =
          if sendsLength tf body || bodyAllowedForStatus code
          then Some ["0"] else None
   else probedLength tf body = -1 /\ h !! "Content-Length" = None).
Proof.
  unfold committable. intros Hok.
  apply andb_true_iff in Hok as [Hok Hframe].
  apply andb_true_iff in Hok as [Hok Hallowed].
  apply andb_true_iff in Hok as [Hok Hsize].
  apply andb_true_iff in Hok as [Hok Hhead].
  apply andb_true_iff in Hok as [Hok Hconn].
  apply andb_true_iff in Hok as [Hok Hpragma].
  apply andb_true_iff in Hok as [Hok Hfields].
  apply andb_true_iff in Hok as [Hok Hlf].
  apply andb_true_iff in Hok as [Hok Hpre].
  apply andb_true_iff in Hok as [Hok Hc999].
  apply andb_true_iff in Hok as [Hok Hc100].
  apply andb_true_iff in Hok as [Hok H11].
  apply andb_true_iff in Hok as [Hok Hmin9].
  apply andb_true_iff in Hok as [Hmaj9 Hmin0].
  cbn zeta.
  split; [|split; [|split; [|split]]].
  - unfold protoAtLeast in *. lia.
  - apply negb_true_iff, bool_decide_eq_false in Hlf. split; [lia|]. now split.
  - apply bool_decide_eq_true in Hpragma. split; [assumption|]. split; [assumption|].
    destruct (closing tf (http.Body resp)).
    + now apply bool_decide_eq_true in Hconn.
    + now apply negb_true_iff in Hconn.
  - apply negb_true_iff in Hhead. split; [assumption|]. split; [lia|].
    intros Hno. rewrite Hno in Hallowed. now apply eqBytes_true in Hallowed.
  - destruct (chunked (TransferEncoding tf)).
    + now apply bool_decide_eq_true in Hframe.
    + destruct (0 <? probedLength tf (http.Body resp)).
      * apply andb_true_iff in Hframe as [Hl Hh].
        apply bool_decide_eq_true in Hh. split; [lia|assumption].
      * destruct (probedLength tf (http.Body resp) =? 0).
        -- now apply bool_decide_eq_true in Hframe.
        -- apply andb_true_iff in Hframe as [Hl Hh].
           apply bool_decide_eq_true in Hh. split; [lia|assumption].
Qed.

Lemma digits_goodValue (n : Z) : 0 <= n -> goodValue (Itoa n).
Proof.
  intros Hn. unfold Itoa. destruct (Z.ltb_spec n 0) as [?|_]; [lia|].
  pose proof (formatUint_digits 10 (Z.to_N n)) as Hd. split.
  - apply forallb_forall. intros c Hc. rewrite Forall_forall in Hd.
    apply list_elem_of_In, Hd in Hc. unfold digitBytes in Hc.
    repeat (apply elem_of_cons in Hc as [->|Hc]; [reflexivity|]).
    now apply elem_of_nil in Hc.
  - apply trimB_Forall. eapply Forall_impl; [exact Hd|]. apply digit_not_blank.
Qed.

Lemma goodLine_fixed (k v : string) :
  forallb isTokenByte (toBytes k) && eqBytes (canonicalCase true (toBytes k)) (toBytes k)
  && negb (eqBytes (toBytes k) [])
  && forallb isValueByte (toBytes v)
  && eqBytes (trimB isASCIISpace (toBytes v)) (toBytes v) = true ->
  goodLine (k, v).
Proof.
  intros Hok.
  apply andb_true_iff in Hok as [Hok Htrim].
  apply andb_true_iff in Hok as [Hok Hval].
  apply andb_true_iff in Hok as [Hok Hne].
  apply andb_true_iff in Hok as [Htok Hcanon].
  apply eqBytes_true in Htrim, Hcanon. apply negb_true_iff in Hne.
  split; split; cbn [fst snd]; try assumption.
  - intros E. rewrite E in Hne. discriminate.
  - now split.
Qed.

Section Inversion.
Variable StatusText : Z -> string.
Variables (tf : Transfer) (resp : http.Response (list byte)).
Hypothesis Hcommittable : committable tf resp = true.

Local Abbreviation body := (http.Body resp).
Local Abbreviation code := (http.StatusCode resp).
Local Abbreviation h := (http.Header_ resp).

Lemma writer_encoding : writerEncoding tf = TransferEncoding tf.
Proof.
  destruct (committable_inv _ _ Hcommittable) as ((_ & _ & H11) & _).
  unfold writerEncoding. now rewrite H11, orb_true_r.
Qed.

Lemma writer_not_negative : sendsLength tf body = true -> 0 <= writerLength tf body.
Proof.
  unfold sendsLength, shouldSendContentLength.
  destruct (chunked (writerEncoding tf)); [discriminate|].
  destruct (Z.ltb_spec 0 (writerLength tf body)); [lia|].
  destruct (Z.ltb_spec (writerLength tf body) 0); [discriminate|lia].
Qed.

Lemma transfer_lines_good : Forall goodLine (transferLines tf body ++ zeroLines tf code body).
Proof.
  apply Forall_app. split.
  - unfold transferLines. apply Forall_app. split.
    + destruct (closing tf body); [|constructor].
      apply Forall_singleton. now apply goodLine_fixed.
    + destruct (sendsLength tf body) eqn:Hs.
      * apply Forall_singleton. split; cbn [fst snd].
        -- now apply (goodLine_fixed "Content-Length" "0").
        -- rewrite toBytes_toString. now apply digits_goodValue, writer_not_negative.
      * destruct (chunked (writerEncoding tf)); [|constructor].
        apply Forall_singleton. now apply goodLine_fixed.
  - unfold zeroLines. destruct (_ && _); [|constructor].
    apply Forall_singleton. now apply goodLine_fixed.
Qed.

Lemma writeHeader_lines :
  writeHeader tf h body = concat (map lineOf (transferLines tf body)).
Proof.
  destruct (committable_inv _ _ Hcommittable) as (_ & _ & (_ & _ & Hconn) & _).
  unfold writeHeader, transferLines. rewrite map_app, concat_app. f_equal.
  - destruct (closing tf body); [|reflexivity].
    unfold Header_Get, http.index. rewrite Hconn. reflexivity.
  - destruct (sendsLength tf body).
    + cbn [map concat]. unfold lineOf. cbn [fst snd].
      now rewrite toBytes_toString, app_nil_r.
    + now destruct (chunked (writerEncoding tf)).
Qed.

Lemma zeroLength_lines :
  zeroLength tf code body = concat (map lineOf (zeroLines tf code body)).
Proof. unfold zeroLength, zeroLines. now destruct (_ && _). Qed.

Lemma head_lines (rest : list byte) :
  writeHeader tf h body ++ writeFields (writtenFields h)
  ++ zeroLength tf code body ++ CRLFb ++ rest =
  concat (map lineOf (transferLines tf body ++ flatten (writtenFields h)
                      ++ zeroLines tf code body)) ++ CRLFb ++ rest.
Proof.
  destruct (committable_inv _ _ Hcommittable) as (_ & _ & (Hfields & _) & _).
  rewrite writeHeader_lines, zeroLength_lines, (written_fields_lines h Hfields).
  now rewrite !map_app, !concat_app, <- !app_assoc.
Qed.

Lemma head_lines_good :
  Forall goodLine (transferLines tf body ++ flatten (writtenFields h)
                   ++ zeroLines tf code body).
Proof.
  destruct (committable_inv _ _ Hcommittable) as (_ & _ & (Hfields & _) & _).
  pose proof transfer_lines_good as Hgood. apply Forall_app in Hgood as [Ht Hz].
  apply Forall_app. split; [exact Ht|]. apply Forall_app. split; [|exact Hz].
  now apply written_fields_good.
Qed.

(** Whether a Content-Length line is written, and its number. *)
Lemma written_length :
  valuesOf "Content-Length" (transferLines tf body ++ zeroLines tf code body) =
    if chunked (TransferEncoding tf) then []
    else if 0 <? probedLength tf body then [toString (Itoa (probedLength tf body))]
    else if probedLength tf body =? 0
    then if sendsLength tf body || bodyAllowedForStatus code then ["0"] else []
    else [].
Proof.
  unfold transferLines, zeroLines, sendsLength, writerLength, shouldSendContentLength.
  rewrite writer_encoding.
  destruct (chunked (TransferEncoding tf)).
  - destruct (closing tf body), (probedLength tf body =? 0),
      (bodyAllowedForStatus code); reflexivity.
  - lazy iota.
    destruct (Z.ltb_spec 0 (probedLength tf body)) as [Hpos|Hle].
    + destruct (Z.eqb_spec (probedLength tf body) 0); [lia|].
      generalize (toString (Itoa (probedLength tf body))) as number.
      intros number. destruct (closing tf body); reflexivity.
    + destruct (Z.eqb_spec (probedLength tf body) 0) as [E|Hne].
      * rewrite E. cbn [Z.ltb Z.compare].
        destruct (closing tf body),
          (bool_decide (RequestMethod tf ∈ ["POST"; "PUT"; "PATCH"])),
          (isIdentity (TransferEncoding tf)
           && negb (bool_decide (RequestMethod tf ∈ ["GET"; "HEAD"]))),
          (bodyAllowedForStatus code); reflexivity.
      * destruct (Z.ltb_spec (probedLength tf body) 0) as [_|?]; [|lia].
        destruct (closing tf body), (bodyAllowedForStatus code); reflexivity.
Qed.

Lemma written_keys (k : string) :
  k ∈ (transferLines tf body ++ zeroLines tf code body).*1 ->
  k ∈ takenOut code (closing tf body) (chunked (TransferEncoding tf)) None
  \/ k = "Content-Length".
Proof.
  unfold transferLines, zeroLines, takenOut. rewrite writer_encoding.
  rewrite !fmap_app, !elem_of_app.
  intros [[Hk|Hk]|Hk].
  - destruct (closing tf body); [|now apply elem_of_nil in Hk].
    apply list_elem_of_singleton in Hk. left. right. right. subst k. left.
  - destruct (sendsLength tf body).
    + apply list_elem_of_singleton in Hk. now right.
    + destruct (chunked (TransferEncoding tf)); [|now apply elem_of_nil in Hk].
      apply list_elem_of_singleton in Hk. left. right. left. subst k. left.
  - destruct (_ && _); [|now apply elem_of_nil in Hk].
    apply list_elem_of_singleton in Hk. now right.
Qed.
Lemma probedLength_zero : probedLength tf body = 0 -> body = [].
Proof.
  unfold probedLength, probed. intros Hp.
  destruct (Z.eqb_spec (ContentLength tf) 0) as [E|Hne]; cbn [andb] in Hp.
  - destruct (eqBytes body []) eqn:Hb; [now apply eqBytes_true in Hb|].
    cbn in Hp. discriminate.
  - contradiction.
Qed.

Lemma probed_nonempty : probed tf body = true -> body <> [].
Proof.
  unfold probed. intros Hp E. rewrite E in Hp.
  now rewrite andb_comm in Hp.
Qed.

Lemma writeBody_ok :
  writeBody tf body =
    (if chunked (TransferEncoding tf)
     then writeChunked (bodyWrites (probed tf body) body) ++ CRLFb
     else body, None).
Proof.
  destruct (committable_inv _ _ Hcommittable) as (_ & _ & _ & (Hhead & _) & Hframe).
  unfold writeBody, writerLength. rewrite Hhead, writer_encoding.
  destruct (chunked (TransferEncoding tf)); [reflexivity|].
  destruct (Z.ltb_spec 0 (probedLength tf body)) as [Hpos|Hle].
  - destruct Hframe as [Hlen _]. rewrite <- Hlen, Z.eqb_refl.
    now destruct (Z.of_nat (length body) =? -1).
  - destruct (Z.eqb_spec (probedLength tf body) 0) as [E|Hne].
    + rewrite E, (probedLength_zero E). reflexivity.
    + destruct Hframe as [-> _]. reflexivity.
Qed.

Lemma lengthWritten_values :
  match valuesOf "Content-Length" (transferLines tf body ++ zeroLines tf code body) with
  | [] => None
  | vs => Some vs
  end = match lengthWritten tf code body with
        | Some n => Some [toString (Itoa n)]
        | None => None
        end.
Proof.
  rewrite written_length. unfold lengthWritten.
  destruct (chunked (TransferEncoding tf)); [reflexivity|].
  destruct (0 <? probedLength tf body); [reflexivity|].
  destruct (probedLength tf body =? 0); [|reflexivity].
  now destruct (sendsLength tf body || bodyAllowedForStatus code).
Qed.

Lemma lengthWritten_header :
  h !! "Content-Length" =
    match lengthWritten tf code body with
    | Some n => Some [toString (Itoa n)]
    | None => None
    end.
Proof.
  destruct (committable_inv _ _ Hcommittable) as (_ & _ & _ & _ & Hframe).
  unfold lengthWritten.
  destruct (chunked (TransferEncoding tf)); [exact Hframe|].
  destruct (0 <? probedLength tf body); [apply Hframe|].
  destruct (probedLength tf body =? 0); [|apply Hframe].
  rewrite Hframe. now destruct (sendsLength tf body || bodyAllowedForStatus code).
Qed.

Lemma no_key (k : string) :
  k = "Transfer-Encoding" \/ k = "Trailer" -> h !! k = None.
Proof.
  destruct (committable_inv _ _ Hcommittable) as (_ & _ & (Hfields & _) & _).
  intros Hk. destruct (h !! k) as [vs|] eqn:E; [|reflexivity].
  apply (fields_ok _ _ _ Hfields), fieldOK_inv in E as (Hte & Htr & _).
  destruct Hk; contradiction.
Qed.

Lemma valuesOf_one (k key v : string) :
  valuesOf k [(key, v)] = if String.eqb k key then [v] else [].
Proof.
  rewrite valuesOf_cons. cbn [fst snd]. rewrite String.eqb_sym.
  now destruct (String.eqb k key).
Qed.

Lemma zero_values (k : string) :
  k <> "Content-Length" -> valuesOf k (zeroLines tf code body) = [].
Proof.
  intros Hk. unfold zeroLines. destruct (_ && _); [|reflexivity].
  rewrite valuesOf_one. now destruct (String.eqb_spec k "Content-Length").
Qed.

Lemma transfer_values (k : string) :
  k <> "Content-Length" ->
  valuesOf k (transferLines tf body) =
    if String.eqb k "Connection" then if closing tf body then ["close"] else []
    else if String.eqb k "Transfer-Encoding"
    then if chunked (TransferEncoding tf) then ["chunked"] else []
    else [].
Proof.
  intros Hk. unfold transferLines, sendsLength, shouldSendContentLength.
  rewrite writer_encoding, valuesOf_app.
  assert (H1 : valuesOf k (if closing tf body then [("Connection", "close")] else [])
               = if String.eqb k "Connection"
                 then if closing tf body then ["close"] else [] else []).
  { destruct (closing tf body); [apply valuesOf_one|].
    now destruct (String.eqb k "Connection"). }
  rewrite H1. clear H1.
  destruct (chunked (TransferEncoding tf)).
  - rewrite valuesOf_one.
    destruct (String.eqb_spec k "Connection") as [->|_];
      [cbn [String.eqb Ascii.eqb Bool.eqb]; apply app_nil_r|].
    now destruct (String.eqb k "Transfer-Encoding").
  - match goal with
    | |- context [valuesOf k (if ?b then _ else _)] => destruct b
    end.
    + rewrite valuesOf_one.
      destruct (String.eqb_spec k "Content-Length"); [contradiction|].
      rewrite app_nil_r.
      destruct (String.eqb k "Connection"); [reflexivity|].
      now destruct (String.eqb k "Transfer-Encoding").
    + rewrite app_nil_r.
      destruct (String.eqb k "Connection"); [reflexivity|].
      now destruct (String.eqb k "Transfer-Encoding").
Qed.

(** What reading a response that was written finds in the header, under
    the keys that matter to [readTransfer]. *)
Lemma read_back_lookup (k : string) :
  foldl addLine ∅ (transferLines tf body ++ flatten (writtenFields h)
                   ++ zeroLines tf code body) !! k =
    if String.eqb k "Connection"
    then if closing tf body then Some ["close"] else h !! "Connection"
    else if String.eqb k "Transfer-Encoding"
    then if chunked (TransferEncoding tf) then Some ["chunked"] else None
    else h !! k.
Proof.
  destruct (committable_inv _ _ Hcommittable) as (_ & _ & (Hfields & _ & Hconn) & _).
  rewrite (lookup_read_back h Hfields).
  destruct (String.eqb_spec k "Content-Length") as [->|Hl].
  - cbn [app String.eqb]. rewrite <- valuesOf_app, lengthWritten_values.
    now rewrite lengthWritten_header.
  - rewrite (transfer_values k Hl), (zero_values k Hl), app_nil_r.
    destruct (String.eqb_spec k "Connection") as [->|Hc].
    + destruct (closing tf body).
      * unfold http.index. now rewrite Hconn.
      * cbn [app]. apply (index_lookup h Hfields).
    + destruct (String.eqb_spec k "Transfer-Encoding") as [->|Ht].
      * unfold http.index. rewrite (no_key "Transfer-Encoding") by now left.
        now destruct (chunked (TransferEncoding tf)).
      * cbn [app]. apply (index_lookup h Hfields).
Qed.

Lemma delivered_body :
  delivered code (chunked (TransferEncoding tf)) (lengthWritten tf code body)
            (fst (writeBody tf body)) = body.
Proof.
  destruct (committable_inv _ _ Hcommittable)
    as (_ & _ & _ & (_ & Hsize & Hempty) & Hframe).
  rewrite writeBody_ok. cbn [fst]. unfold delivered, lengthWritten.
  destruct (bodyAllowedForStatus code) eqn:Hallowed; cbn [negb];
    [|symmetry; now apply Hempty].
  destruct (chunked (TransferEncoding tf)).
  - destruct (bodyWrites_spec (probed tf body) body probed_nonempty) as [Hcat Hall].
    rewrite readChunked_writes.
    + exact Hcat.
    + eapply Forall_impl; [exact Hall|]. cbn. intros p [Hp Hlen]. split; [exact Hp|lia].
    + rewrite length_app.
      pose proof (writeChunked_length (bodyWrites (probed tf body) body)) as Hw.
      assert (Hne : Forall (fun p => p <> []) (bodyWrites (probed tf body) body))
        by (eapply Forall_impl; [exact Hall|]; cbn; tauto).
      specialize (Hw Hne). lia.
  - destruct (Z.ltb_spec 0 (probedLength tf body)) as [Hpos|Hle].
    + destruct Hframe as [Hlen _]. rewrite <- Hlen, Nat2Z.id. apply firstn_all.
    + destruct (Z.eqb_spec (probedLength tf body) 0) as [E|Hne]; [|reflexivity].
      rewrite orb_true_r. cbn [Z.to_nat take]. rewrite (probedLength_zero E).
      reflexivity.
Qed.

Lemma header_read_back :
  foldr delete
        (foldl addLine ∅ (transferLines tf body ++ flatten (writtenFields h)
                          ++ zeroLines tf code body))
        (takenOut code (closing tf body) (chunked (TransferEncoding tf))
                  (lengthWritten tf code body)) = h.
Proof.
  destruct (committable_inv _ _ Hcommittable) as (_ & _ & (Hfields & _ & Hconn) & _).
  apply header_back; [exact Hfields| | |].
  - intros k Hk. unfold takenOut in Hk. rewrite !elem_of_app in Hk.
    destruct Hk as [Hk|[Hk|Hk]].
    + destruct (bodyAllowedForStatus code && _) eqn:E; [|now apply elem_of_nil in Hk].
      apply list_elem_of_singleton in Hk. subst k.
      rewrite lengthWritten_header.
      apply andb_true_iff in E as [_ E]. unfold lengthWritten in *.
      destruct (chunked (TransferEncoding tf)); [reflexivity|]. cbn [orb] in E.
      now apply bool_decide_eq_true in E as ->.
    + destruct (chunked (TransferEncoding tf)); [|now apply elem_of_nil in Hk].
      apply list_elem_of_singleton in Hk. subst k. apply no_key. now left.
    + destruct (closing tf body); [|now apply elem_of_nil in Hk].
      apply list_elem_of_singleton in Hk. now subst k.
  - intros k Hk. apply written_keys in Hk as [Hk|Hk]; [|now right].
    unfold takenOut in *. rewrite !elem_of_app in *.
    destruct Hk as [Hk|[Hk|Hk]].
    + right. destruct (bodyAllowedForStatus code && _); [|now apply elem_of_nil in Hk].
      now apply list_elem_of_singleton in Hk.
    + left. right. now left.
    + left. right. now right.
  - intros _. rewrite lengthWritten_values. symmetry. apply lengthWritten_header.
Qed.

(** The codec on a response of the domain: the dump succeeds, and
    reading the dump gives the response. *)
Lemma ReadResponse_DumpResponse (req : http.Request) :
  String.eqb (http.Method req) "HEAD" = false ->
  exists b : list byte,
    httputil_DumpResponse StatusText tf resp true = inl b /\
    http_ReadResponse b req = inl resp.
Proof.
  intros Hmethod.
  destruct (committable_inv _ _ Hcommittable)
    as ((Hmaj & Hmin & H11) & (Hcode & Hpre & Hlf) & (Hfields & Hpragma & Hconn)
        & (Hhead & Hsize & Hempty) & Hframe).
  unfold httputil_DumpResponse, Response_Write.
  pose proof delivered_body as Hdelivered.
  rewrite writeBody_ok in *. cbn [fst] in Hdelivered.
  set (written := if chunked (TransferEncoding tf)
                  then writeChunked (bodyWrites (probed tf body) body) ++ CRLFb
                  else body) in *.
  eexists. split; [reflexivity|]. cbn [default].
  rewrite <- !app_assoc.
  rewrite (ReadResponse_statusLine StatusText tf resp _ req Hmaj Hmin Hcode Hpre Hlf).
  rewrite head_lines, (ReadMIMEHeader_lines _ _ head_lines_good).
  set (hr := foldl addLine ∅ _).
  assert (Hlook : forall k, hr !! k = _) by (intros k; apply read_back_lookup).
  rewrite (fixPragma_same h hr);
    [|now rewrite Hlook|now rewrite Hlook|exact Hpragma].
  rewrite (readTransfer_spec code _ _ _ hr written (closing tf body)
             (chunked (TransferEncoding tf)) (lengthWritten tf code body)
             H11 Hmethod).
  - subst hr. rewrite header_read_back, Hdelivered. now destruct resp.
  - rewrite ?Hlook. unfold http.index. rewrite Hlook. cbn [String.eqb].
    destruct (closing tf body); [reflexivity|exact Hconn].
  - rewrite Hlook. reflexivity.
  - rewrite Hlook. apply lengthWritten_header.
  - unfold lengthWritten. destruct (chunked (TransferEncoding tf)); [exact I|].
    destruct (Z.ltb_spec 0 (probedLength tf body)) as [Hpos|Hle].
    + destruct Hframe as [Hlen _]. split; [lia|reflexivity].
    + destruct (probedLength tf body =? 0); [|exact I].
      destruct (_ || _); [|exact I]. split; [lia|reflexivity].
  - rewrite Hlook. apply no_key. now right.
Qed.
End Inversion.

(** ** The round trip through the cache *)

Section WireRoundTrip.
Context {RState : Type} `{ReadCloser RState}.
(** [http.StatusText] and [http.ParseTime]. *)
Variable StatusText : Z -> string.
Variable ParseTime : string -> Z + error.
Variable flags : Flags.
(** The fields of a response that this development does not carry, as
    the response has them when it is dumped. *)
Variable transfer : http.Response (list byte) -> Transfer.

Local Abbreviation dumpResponse :=
  (fun resp body => httputil_DumpResponse StatusText (transfer resp) resp body).
Local Abbreviation roundTrip :=
  (RoundTrip http_ReadResponse dumpResponse ParseTime flags).

(** C9 (as amended).  Round trip, with the codec of net/http.  Take the
    response of a fetch for a cacheable GET and let the caller copy its
    body to end-of-data, so that the response (status and headers as
    they are at that moment, and the bytes copied) is dumped and stored
    under the path.  If that response is [committable] (HTTP/1.1 or
    later, a status of the form code, space, text, header fields as a
    reader gives them and none that the writer leaves out or adds to, a
    body that the framing announces), the dump succeeds and a later GET
    for the same path that is served from the cache returns exactly the
    response committed: same status, same headers, same body bytes. *)
Theorem hit_returns_committed_response
    (t : cachingTransport RState) (req1 : http.Request) (u1 : url.URL) (now1 : Z)
    (w0 : World) (r : http.Response RState) (w1 : World)
    (respM : http.Response (Body RState)) (sizes : list nat)
    (tr : list (list byte * option error)) (respE : http.Response (Body RState))
    (w2 : World) (req2 : http.Request) (u2 : url.URL) (now2 : Z)
    (date : string) (cachedAt : Z) :
  http.URL req1 = Some u1 -> http.Method req1 = "GET" -> is_Some (Cache t) ->
  roundTrip t req1 now1 w0 =
    (Returned (Some (teed dumpResponse (url.Path u1) r), None), w1) ->
  http.Body respM = http.Body (teed dumpResponse (url.Path u1) r) ->
  copyBody respM sizes w1 = (tr, respE, w2) ->
  lastError tr = Some io_EOF ->
  committable (transfer (http.withBody respM (traceBytes tr)))
              (http.withBody respM (traceBytes tr)) = true ->
  http.URL req2 = Some u2 -> url.Path u2 = url.Path u1 ->
  http.Method req2 = "GET" ->
  http.index (http.Header_ respM) "Date" !! 0%nat = Some date ->
  ParseTime date = inl cachedAt ->
  http.StatusCode respM = 200 \/
    now2 - cachedAt <= time.minutes (cacheRefreshDelay flags) ->
  exists respBytes : list byte,
    dumpResponse (http.withBody respM (traceBytes tr)) true = inl respBytes /\
    cache w2 = <[url.Path u1 := respBytes]> (cache w1) /\
    roundTrip t req2 now2 w2 =
      (Returned (Some (served (http.withBody respM (traceBytes tr))), None),
       log_Print w2 (audit u2 req2 "CACHE_HIT" (Some (http.StatusCode respM)))).
Proof.
  intros Hu1 Hm1 Hc Hfirst Hbody Hcopy Hlast Hok Hu2 Hpath Hm2 Hd Hp Hfresh.
  destruct (ReadResponse_DumpResponse StatusText _ _ Hok req2)
    as (respBytes & Hdump & Hread); [now rewrite Hm2|].
  exists respBytes. split; [exact Hdump|].
  exact (hit_after_commit http_ReadResponse dumpResponse ParseTime flags
           t req1 u1 now1 w0 r w1 respM sizes tr respE w2 respBytes
           req2 u2 now2 date cachedAt
           Hu1 Hm1 Hc Hfirst Hbody Hcopy Hlast Hdump Hu2 Hpath Hm2 Hread Hd Hp Hfresh).
Qed.
End WireRoundTrip.

(** ** The tee: when the callback runs *)


(** C6.  If no read on a wrapped body gets [io.EOF] from the stream
    underneath, whatever else the reads return and whether or not the
    body is closed, the callback does not run: the state it could change
    is unchanged, a recording callback has recorded nothing, and the
    cache behind a body built by [RoundTrip] is as it was. *)
Theorem no_commit_without_eof {W T : Type} `{ReadCloser T}
    (r : cachingReadCloser W T) (ops : list Op) (w : W) :
  noEOFRead (R r) ops = true ->
  snd (runOps r ops w) = w /\
  snd (runOps {| R := R r; OnEOF := recordCall; buf := buf r |} ops []) = [] /\
  (forall DumpResponse cacheKey (resp : http.Response unit) (world : World),
      useBody
        (http.withBody resp
           (cachingBody {| R := R r; OnEOF := commitOnEOF DumpResponse cacheKey;
                           buf := buf r |}))
        ops world = world).
Proof.
  intros Hno. repeat split.
  - now apply runOps_noEOF.
  - now apply runOps_noEOF.
  - intros. now eapply useBody_noEOF.
Qed.

(** A stream that ends on an error other than [io.EOF] never gives
    [io.EOF]. *)
Lemma noEOFRead_slice (data : list byte) (msg : string) (ops : list Op) :
  noEOFRead (slice data (errorString msg)) ops = true.
Proof.
  revert data. induction ops as [|[n|] ops IH]; intros data; auto.
  - destruct data as [|b data]; cbn [noEOFRead].
    + rewrite slice_Read_nil. cbn [isEOF negb andb]. apply IH.
    + rewrite slice_Read_cons. cbn [isEOF negb andb]. apply IH.
  - cbn. apply IH.
Qed.

(** ** The director: a failing presign *)

(** C4 (as amended).  When presigning fails for a request directed at
    the object store, [Direct] calls [log.Fatal]: the process exits.  No
    rewritten request comes out of [Direct], so nothing is forwarded, as
    plain passthrough or otherwise. *)
Theorem presign_failure_exits
    (Presign : S3Request -> Z -> string + error)
    (url_Parse : string -> url.URL + error)
    (s : s3Director) (r : http.Request) (u : url.URL) (q : S3Request) (err : error) :
  http.URL r = Some u ->
  s3Request s (http.Method r) (effectiveKey (prefix s) (url.Path u)) = Some q ->
  Presign q (10 * time.Minute) = inr err ->
  Direct Presign url_Parse s r = Exited "Presign failed (%v) for request %+v" /\
  processAlive (Direct Presign url_Parse s r) = false /\
  (forall r', Direct Presign url_Parse s r <> Returned r').
Proof.
  intros Hu Hq Hp. unfold Direct. rewrite Hu, Hq, Hp.
  repeat split. discriminate.
Qed.

(** ** main: the transport that is wired in *)

(** C3, at max-retries 3.  [main] builds the retrying transport in
    [baseTransport], but the caching transport of the server it starts
    has [http.DefaultTransport]: a fetch is one call of it, and what that
    call gives, a response or an error, is what [RoundTrip] returns. *)
Theorem retry_transport_not_wired
    (RState : Type) `(ReadCloser RState)
    (rehttp_NewTransport : RoundTripper RState -> Z -> RoundTripper RState)
    (http_DefaultTransport : RoundTripper RState)
    ReadResponse DumpResponse ParseTime :
  maxRetries Sample.retrying = 3 /\
  baseTransport http_DefaultTransport rehttp_NewTransport Sample.retrying =
    rehttp_NewTransport http_DefaultTransport 3 /\
  exists srv,
    main http_DefaultTransport rehttp_NewTransport Sample.url_Parse Sample.retrying
      = Returned srv /\
    Transport (HandlerTransport srv) = http_DefaultTransport /\
    forall path now w,
      let req := Sample.request "GET" path in
      RoundTrip ReadResponse DumpResponse ParseTime Sample.retrying
                (HandlerTransport srv) req now w =
        match http_DefaultTransport req (length (calls w)) with
        | inl r =>
            (Returned (Some (http.withBody r (streamBody (http.Body r))), None),
             log_Print (called w req)
               (Audit "PASSTHROUGH" (Some (http.StatusCode r)) "backend" "GET" path))
        | inr err =>
            (Returned (None, Some err),
             log_Print (called w req) (Audit "ERROR" None "backend" "GET" path))
        end.
Proof.
  split; [reflexivity|]. split; [reflexivity|].
  eexists. split; [reflexivity|]. split; [reflexivity|].
  intros path now w. cbn. unfold fetch. cbn.
  destruct (http_DefaultTransport _ _); reflexivity.
Qed.

(** ** Worked cases *)

Lemma cached_entry_hit_or_refresh_witness :
  Sample.RoundTrip defaultFlags Cases.origin Cases.getX (Cases.at_minutes 30)
                   (Cases.stored Sample.notFound) =
    (Returned (Some (served Sample.notFound), None),
     log_Print (Cases.stored Sample.notFound)
               (audit Cases.urlX Cases.getX "CACHE_HIT" (Some 404))) /\
  Sample.RoundTrip defaultFlags Cases.origin Cases.getX (Cases.at_minutes 61)
                   (Cases.stored Sample.notFound) =
    (Returned (Some Cases.first, None),
     log_Print (called (Cache_Delete (Cases.stored Sample.notFound) "/x") Cases.getX)
               (audit Cases.urlX Cases.getX "CACHE_REFRESH" (Some 404))).
Proof.
  split.
  - refine (proj1 (cached_entry_hit_or_refresh
             Sample.ReadResponse Sample.DumpResponse Sample.ParseTime defaultFlags
             Cases.origin Cases.getX Cases.urlX (Cases.at_minutes 30)
             (Cases.stored Sample.notFound) Sample.notFound Sample.epoch 0
             eq_refl eq_refl _ _ _ eq_refl) _).
    + eexists; reflexivity.
    + vm_compute; reflexivity.
    + vm_compute; reflexivity.
    + right. apply Z.leb_le. vm_compute. reflexivity.
  - refine (proj2 (cached_entry_hit_or_refresh
             Sample.ReadResponse Sample.DumpResponse Sample.ParseTime defaultFlags
             Cases.origin Cases.getX Cases.urlX (Cases.at_minutes 61)
             (Cases.stored Sample.notFound) Sample.notFound Sample.epoch 0
             eq_refl eq_refl _ _ _ eq_refl) _ _).
    + eexists; reflexivity.
    + vm_compute; reflexivity.
    + vm_compute; reflexivity.
    + right. vm_compute. discriminate.
    + apply Z.ltb_lt. vm_compute. reflexivity.
Defined.

(** C1 as first stated fails at the boundary.  The stored entry is a 404
    and [now - storedTime] is exactly the refresh delay, so it is not
    below the delay; yet the entry is served as a hit, it stays in the
    cache and the backend is not asked. *)
Lemma hit_at_exactly_the_refresh_delay :
  let now := Cases.at_minutes 60 in
  let w := Cases.stored Sample.notFound in
  let res := Sample.RoundTrip defaultFlags Cases.origin Cases.getX now w in
  cachedResponse Sample.ReadResponse (cache w) "/x" Cases.getX
    = (Some Sample.notFound, None) /\
  Sample.ParseTime Sample.epoch = inl 0 /\
  http.StatusCode Sample.notFound <> 200 /\
  ~ (now - 0 < time.minutes (cacheRefreshDelay defaultFlags)) /\
  res = (Returned (Some (served Sample.notFound), None),
         log_Print w (audit Cases.urlX Cases.getX "CACHE_HIT" (Some 404))) /\
  cache (snd res) = cache w /\
  calls (snd res) = [].
Proof.
  repeat split; try (vm_compute; reflexivity).
  - vm_compute. discriminate.
  - vm_compute. intros Hlt. discriminate Hlt.
Qed.

(** The test of the code for a success is a status of 200.  A stored
    204 that is older than the delay is deleted and fetched again. *)
Lemma stale_204_is_refreshed :
  Wire.RoundTrip (Wire.declared 0) defaultFlags Wire.empty Cases.getX
                 (Cases.at_minutes 61) Wire.staleEmpty =
    (Returned (Some (teed (Wire.DumpResponse (Wire.declared 0)) "/x"
                          Wire.emptyAnswer), None),
     log_Print (called (Cache_Delete Wire.staleEmpty "/x") Cases.getX)
               (audit Cases.urlX Cases.getX "CACHE_REFRESH" (Some 204))).
Proof. reflexivity. Qed.

Lemma unparseable_date_exits_witness :
  Sample.RoundTrip defaultFlags Cases.origin Cases.getX (Cases.at_minutes 30)
                   (Cases.stored Sample.badDate) =
    (Exited "Failed to parse cached request Date",
     log_Print (Cases.stored Sample.badDate)
               (Fatal "Failed to parse cached request Date")).
Proof.
  refine (proj1 (unparseable_date_exits
           Sample.ReadResponse Sample.DumpResponse Sample.ParseTime defaultFlags
           Cases.origin Cases.getX Cases.urlX (Cases.at_minutes 30)
           (Cases.stored Sample.badDate) Sample.badDate "yesterday"
           (errorString "parsing time")
           eq_refl eq_refl _ _ _ eq_refl)).
  - eexists; reflexivity.
  - vm_compute; reflexivity.
  - vm_compute; reflexivity.
Defined.

(** C2 as first stated fails.  The stored entry has the date
    "yesterday", which does not parse; the request is not treated as a
    miss (the backend is not asked) and the process does not survive. *)
Lemma unparseable_date_is_fatal :
  let w := Cases.stored Sample.badDate in
  let res := Sample.RoundTrip defaultFlags Cases.origin Cases.getX
                              (Cases.at_minutes 30) w in
  cachedResponse Sample.ReadResponse (cache w) "/x" Cases.getX
    = (Some Sample.badDate, None) /\
  Sample.ParseTime "yesterday" = inr (errorString "parsing time") /\
  processAlive (fst res) = false /\
  calls (snd res) = [].
Proof. repeat split; vm_compute; reflexivity. Qed.

Lemma date_index_in_bounds_iff_witness :
  Sample.RoundTrip defaultFlags Cases.origin Cases.getX (Cases.at_minutes 30)
                   (Cases.stored Sample.noDate) =
    (Panicked "index out of range",
     log_Print (Cases.stored Sample.noDate)
               (audit Cases.urlX Cases.getX "" (Some 404))) /\
  (forall msg,
      fst (Sample.RoundTrip defaultFlags Cases.origin Cases.getX (Cases.at_minutes 30)
                            (Cases.stored Sample.notFound)) <> Panicked msg).
Proof.
  split.
  - refine (proj1 (proj2 (date_index_in_bounds_iff
             Sample.ReadResponse Sample.DumpResponse Sample.ParseTime defaultFlags
             Cases.origin Cases.getX Cases.urlX (Cases.at_minutes 30)
             (Cases.stored Sample.noDate) Sample.noDate
             eq_refl eq_refl _ _)) _).
    + eexists; reflexivity.
    + vm_compute; reflexivity.
    + vm_compute; reflexivity.
  - refine (proj2 (proj2 (date_index_in_bounds_iff
             Sample.ReadResponse Sample.DumpResponse Sample.ParseTime defaultFlags
             Cases.origin Cases.getX Cases.urlX (Cases.at_minutes 30)
             (Cases.stored Sample.notFound) Sample.notFound
             eq_refl eq_refl _ _)) Sample.epoch [] _).
    + eexists; reflexivity.
    + vm_compute; reflexivity.
    + vm_compute; reflexivity.
Defined.

Lemma put_reaches_backend_iff_writes_allowed_witness :
  Sample.RoundTrip defaultFlags Cases.origin Cases.putX 0 Sample.emptyWorld =
    (Returned (Some (served methodNotAllowed), None),
     log_Print Sample.emptyWorld (audit Cases.urlX Cases.putX "DROP" (Some 405))) /\
  calls (snd (Sample.RoundTrip Cases.writable Cases.origin Cases.putX 0
                               Sample.emptyWorld)) = [] ++ [Cases.putX].
Proof.
  split.
  - refine (proj1 (proj1 (proj2 (put_reaches_backend_iff_writes_allowed
             Sample.ReadResponse Sample.DumpResponse Sample.ParseTime defaultFlags
             Cases.origin Cases.putX Cases.urlX 0 Sample.emptyWorld
             eq_refl eq_refl _)) eq_refl)).
    vm_compute; reflexivity.
  - refine (proj2 (proj1 (put_reaches_backend_iff_writes_allowed
             Sample.ReadResponse Sample.DumpResponse Sample.ParseTime Cases.writable
             Cases.origin Cases.putX Cases.urlX 0 Sample.emptyWorld
             eq_refl eq_refl _) eq_refl)).
    vm_compute; reflexivity.
Defined.

(** The first GET misses and fetches the 404, which the transport read
    from a chunked body; the caller copies the body in chunks of four
    bytes; the GET half an hour later is served the same 404 from the
    cache. *)
Lemma hit_returns_committed_response_witness :
  exists respBytes : list byte,
    Wire.DumpResponse Wire.chunkedBody Sample.notFound true = inl respBytes /\
    cache Wire.afterCopy = <["/x" := respBytes]> (cache Cases.afterFirst) /\
    Wire.RoundTrip Wire.chunkedBody defaultFlags Cases.origin Cases.getX
                   (Cases.at_minutes 30) Wire.afterCopy =
      (Returned (Some (served Sample.notFound), None),
       log_Print Wire.afterCopy (audit Cases.urlX Cases.getX "CACHE_HIT" (Some 404))).
Proof.
  refine (hit_returns_committed_response
            Wire.StatusText Sample.ParseTime defaultFlags (fun _ => Wire.chunkedBody)
            Cases.origin Cases.getX Cases.urlX 0 Sample.emptyWorld
            Cases.answer Cases.afterFirst Wire.first
            [4%nat; 4%nat; 4%nat; 4%nat]
            (fst (fst Wire.copied)) (snd (fst Wire.copied)) Wire.afterCopy
            Cases.getX Cases.urlX (Cases.at_minutes 30) Sample.epoch 0
            eq_refl eq_refl _ _ eq_refl _ _ _ eq_refl eq_refl eq_refl _ _ _).
  - eexists; reflexivity.
  - reflexivity.
  - reflexivity.
  - vm_compute; reflexivity.
  - vm_compute; reflexivity.
  - vm_compute; reflexivity.
  - vm_compute; reflexivity.
  - right. apply Z.leb_le. vm_compute. reflexivity.
Defined.

(** C9 as first stated fails.  The backend answers 204 with a
    Content-Length of 0.  The response is committed, header and all;
    the dump leaves the Content-Length out, since a 204 has no body; the
    GET half an hour later is served from the cache a 204 without the
    Content-Length. *)
Lemma hit_loses_the_content_length_of_a_204 :
  Wire.RoundTrip (Wire.declared 0) defaultFlags Wire.empty Cases.getX 0
                 Sample.emptyWorld =
    (Returned (Some (teed (Wire.DumpResponse (Wire.declared 0)) "/x"
                          Wire.emptyAnswer), None),
     Wire.afterEmpty) /\
  (exists respBytes : list byte,
     Wire.DumpResponse (Wire.declared 0) Wire.noContent true = inl respBytes /\
     cache (snd Wire.emptyCopied) = <["/x" := respBytes]> (cache Wire.afterEmpty)) /\
  Wire.RoundTrip (Wire.declared 0) defaultFlags Wire.empty Cases.getX
                 (Cases.at_minutes 30) (snd Wire.emptyCopied) =
    (Returned (Some (served Wire.noContentRead), None),
     log_Print (snd Wire.emptyCopied)
               (audit Cases.urlX Cases.getX "CACHE_HIT" (Some 204))) /\
  http.Header_ Wire.noContent !! "Content-Length" = Some ["0"] /\
  http.Header_ Wire.noContentRead !! "Content-Length" = None.
Proof.
  split; [reflexivity|].
  split; [eexists; split; vm_compute; reflexivity|].
  split; [vm_compute; reflexivity|].
  split; vm_compute; reflexivity.
Qed.

(** Two more responses that the codec does not give back: one of
    HTTP/1.0 comes back with a Connection field that the writer adds,
    and a status without a reason comes back with the code twice. *)
Lemma old_protocol_gains_a_connection_field :
  exists (b : list byte) (read : http.Response (list byte)),
    Wire.DumpResponse Wire.oldProtocol Wire.notFoundLength true = inl b /\
    http_ReadResponse b Cases.getX = inl read /\
    http.Header_ Wire.notFoundLength !! "Connection" = None /\
    http.Header_ read !! "Connection" = Some ["close"].
Proof.
  eexists. eexists. split; [vm_compute; reflexivity|].
  split; [vm_compute; reflexivity|]. split; vm_compute; reflexivity.
Qed.

Lemma bare_status_is_doubled :
  exists (b : list byte) (read : http.Response (list byte)),
    Wire.DumpResponse (Wire.declared 11) Wire.bare true = inl b /\
    http_ReadResponse b Cases.getX = inl read /\
    http.Status Wire.bare = "404" /\ http.Status read = "404 404".
Proof.
  eexists. eexists. split; [vm_compute; reflexivity|].
  split; [vm_compute; reflexivity|]. split; reflexivity.
Qed.



Lemma no_commit_without_eof_witness :
  let ops := [opRead 1; opRead 4; opRead 4; opClose] in
  snd (runOps (newTee Sample.broken) ops []) = [] /\
  (forall world : World,
      useBody
        (http.withBody Sample.noDate
           (cachingBody {| R := Sample.broken;
                           OnEOF := commitOnEOF Sample.DumpResponse "/x";
                           buf := [] |}))
        ops world = world).
Proof.
  pose proof (no_commit_without_eof (newTee Sample.broken)
                [opRead 1; opRead 4; opRead 4; opClose] [] eq_refl)
    as (H1 & _ & H3).
  split.
  - exact H1.
  - intros world.
    exact (H3 Sample.DumpResponse "/x" (http.withBody Sample.noDate tt) world).
Defined.

Lemma presign_failure_exits_witness :
  Direct Sample.noCredentials Sample.url_Parse Sample.director
         (Sample.request "GET" "/ab/cd12")
    = Exited "Presign failed (%v) for request %+v".
Proof.
  refine (proj1 (presign_failure_exits
            Sample.noCredentials Sample.url_Parse Sample.director
            (Sample.request "GET" "/ab/cd12")
            {| url.Scheme := "http"; url.Host := "backend";
               url.Path := "/ab/cd12"; url.RawQuery := "" |}
            {| Operation := GetObject; Bucket := "mybucket"; Key := "prefix/ab/cd12" |}
            (errorString "NoCredentialProviders")
            eq_refl eq_refl eq_refl)).
Defined.

(** C4 as first stated fails.  With a client that cannot sign, directing
    GET /ab/cd12 ends the process, and with it every other request;
    with one that can, the request is rewritten to the signed URL of the
    key prefix/ab/cd12. *)
Lemma presign_failure_ends_the_process :
  Sample.noCredentials
    {| Operation := GetObject; Bucket := "mybucket"; Key := "prefix/ab/cd12" |}
    (10 * time.Minute) = inr (errorString "NoCredentialProviders") /\
  processAlive (Direct Sample.noCredentials Sample.url_Parse Sample.director
                       (Sample.request "GET" "/ab/cd12")) = false /\
  Direct Sample.signs Sample.url_Parse Sample.director
         (Sample.request "GET" "/ab/cd12") =
    Returned {| http.Method := "GET";
                http.URL := Some {| url.Scheme := "https"; url.Host := "mybucket";
                                    url.Path := "/prefix/ab/cd12";
                                    url.RawQuery := "" |};
                http.Host := "" |}.
Proof. repeat split; vm_compute; reflexivity. Qed.

(** * Further properties *)

(** ** RoundTrip on every path *)

Section EveryPath.
Context {RState : Type}.
Variable ReadResponse :
  list byte -> http.Request -> http.Response (list byte) + error.
Variable DumpResponse :
  http.Response (list byte) -> bool -> list byte + error.
Variable ParseTime : string -> Z + error.
Variable flags : Flags.

Local Abbreviation roundTrip :=
  (RoundTrip (RState := RState) ReadResponse DumpResponse ParseTime flags).

Implicit Types (t : cachingTransport RState) (req : http.Request)
  (u : url.URL) (w : World).

Local Ltac paths :=
  unfold RoundTrip, fetch, newDroppedResponse, cachedResponse, deferred;
  repeat (case_match; cbn [fst snd cache calls logs stdout log_Print called
                             Cache_Delete fmt_Printf fmap option_fmap option_map]).

(** X1.  Every request with a URL leaves exactly one line in the log:
    the record of the deferred function when [RoundTrip] returns or
    panics, the message of [log.Fatalf] and no record when it exits.  The
    record carries the host and the path of the URL and the method.  A
    request without a URL panics before the function is deferred and
    leaves no line. *)
Theorem one_log_line_per_request t req now w :
  match http.URL req with
  | None =>
      roundTrip t req now w =
        (Panicked "invalid memory address or nil pointer dereference", w)
  | Some u =>
      exists line, logs (snd (roundTrip t req now w)) = logs w ++ [line] /\
        match fst (roundTrip t req now w) with
        | Exited msg => line = Fatal msg
        | _ => exists logAction status, line = audit u req logAction status
        end
  end.
Proof.
  destruct (http.URL req) as [u|] eqn:Hu.
  - paths; simplify_eq;
      (eexists; split; [reflexivity|]); try reflexivity; unfold audit; eauto.
  - unfold RoundTrip. now rewrite Hu.
Qed.

(** X2.  When [RoundTrip] returns, it returns an error exactly when it
    returns no response, and exactly then the record says ERROR; the
    status of the record is the status of the response.  Otherwise the
    record says one of CACHE_HIT, CACHE_MISS, CACHE_REFRESH, PASSTHROUGH,
    DROP, or nothing (after a stored entry that could not be read). *)
Theorem error_iff_no_response t req now w :
  match roundTrip t req now w with
  | (Returned (resp, err), w') =>
      (resp = None <-> is_Some err) /\
      exists logAction u,
        http.URL req = Some u /\
        logs w' = logs w ++ [audit u req logAction (http.StatusCode <$> resp)] /\
        (logAction = "ERROR" <-> is_Some err) /\
        In logAction ["ERROR"; "CACHE_HIT"; "CACHE_MISS"; "CACHE_REFRESH";
                      "PASSTHROUGH"; "DROP"; ""]
  | _ => True
  end.
Proof.
  destruct (roundTrip t req now w) as [[[resp err]|msg|msg] w'] eqn:E; auto.
  revert E. paths; intros E; try discriminate; injection E as <- <- <-;
    (split; [split; [try discriminate; eauto | intros [? ?]; congruence]|]);
    do 2 eexists; (split; [reflexivity|]); (split; [reflexivity|]);
    (split; [split; [try discriminate; eauto | intros [? ?]; congruence]|]);
    cbn; tauto.
Qed.

(** X3.  [RoundTrip] itself never adds an entry to the cache and never
    changes one: afterwards the cache is as before, or as before without
    the entry of the request's path.  It calls the transport at most
    once, with the request it was given. *)
Theorem cache_only_shrinks_one_call_at_most t req now w :
  (cache (snd (roundTrip t req now w)) = cache w \/
   exists u, http.URL req = Some u /\ http.Method req = "GET" /\
     is_Some (cache w !! url.Path u) /\
     cache (snd (roundTrip t req now w)) = delete (url.Path u) (cache w)) /\
  (calls (snd (roundTrip t req now w)) = calls w \/
   calls (snd (roundTrip t req now w)) = calls w ++ [req]).
Proof.
  paths; split; auto.
  all: right; eexists; (split; [reflexivity|]);
    repeat match goal with
    | H : (_ && _) = true |- _ => apply andb_prop in H; destruct H
    | H : String.eqb _ _ = true |- _ => apply String.eqb_eq in H
    end.
  all: repeat split; try assumption; try reflexivity.
  all: try discriminate.
  all: match goal with H : cache _ !! _ = Some _ |- _ => rewrite H end; eauto.
Qed.
End EveryPath.

(** ** The tee under any stream *)

(** X4.  The tee is transparent to the caller: for any wrapped stream
    and any sequence of read sizes, the bytes and errors the caller gets
    are those the stream alone would give, the stream is left where it
    would be, and the buffer holds what it held followed by all the bytes
    returned. *)
Theorem tee_is_transparent {W T : Type} `{ReadCloser T}
    (r : cachingReadCloser W T) (sizes : list nat) (w : W) :
  let '(tr, r', _) := reads r sizes w in
  tr = fst (readsR (R r) sizes) /\
  R r' = snd (readsR (R r) sizes) /\
  buf r' = buf r ++ traceBytes tr.
Proof.
  rewrite reads_readsR. destruct (readsR (R r) sizes) as [tr s].
  repeat split.
Qed.

(** X5.  For any wrapped stream, the callback runs at exactly the reads
    that get [io.EOF], in order, each time with all the bytes returned up
    to and including that read (so also those that came together with
    [io.EOF]).  In a copy loop, which stops at the first error, it runs
    at most once: once with everything copied when the loop ended on
    [io.EOF], not at all when it ended otherwise. *)
Theorem tee_calls_follow_eof {T : Type} `{ReadCloser T} (s : T) (sizes : list nat) :
  snd (reads (newTee s) sizes []) = eofSnapshots [] (fst (readsR s sizes)) /\
  length (snd (reads (newTee s) sizes [])) = eofCount (fst (readsR s sizes)) /\
  snd (drain (newTee s) sizes []) =
    (if isEOF (lastError (fst (drainR s sizes)))
     then [traceBytes (fst (drainR s sizes))] else []).
Proof.
  assert (Hfold : forall l acc, applyCalls (newTee s) l acc = acc ++ l).
  { unfold applyCalls. induction l as [|x l IH]; intros acc; cbn [fold_left].
    - now rewrite app_nil_r.
    - rewrite IH. cbn [OnEOF newTee]. unfold recordCall.
      now rewrite <- app_assoc. }
  rewrite reads_readsR, drain_drainR. cbn [R newTee buf].
  pose proof (drainR_snapshots s sizes []) as Hd.
  destruct (readsR s sizes) as [tr s1], (drainR s sizes) as [tr2 s2].
  cbn [fst snd] in *. rewrite !Hfold. cbn [app].
  repeat split; auto. apply eofSnapshots_length.
Qed.

(** ** What a commit changes *)

Section Commits.
Context {RState : Type} `{ReadCloser RState}.
Variable ReadResponse :
  list byte -> http.Request -> http.Response (list byte) + error.
Variable DumpResponse :
  http.Response (list byte) -> bool -> list byte + error.
Variable ParseTime : string -> Z + error.
Variable flags : Flags.

Local Abbreviation roundTrip := (RoundTrip ReadResponse DumpResponse ParseTime flags).
Local Abbreviation commit := (commitOnEOF DumpResponse).
Local Abbreviation teed := (teed DumpResponse).

Implicit Types (t : cachingTransport RState) (req : http.Request)
  (u : url.URL) (w : World) (env : Env).



(** X6.  The closure that commits changes nothing but the entry of its
    key: every other entry, the calls made, the log and the output are
    as before, and so is the response it reads.  When the dump fails it
    changes nothing at all; when it succeeds the entry is the dump. *)
Theorem commit_touches_only_its_key cacheKey (b : list byte) env (other : string) :
  other <> cacheKey ->
  cache (world (commit cacheKey b env)) !! other = cache (world env) !! other /\
  calls (world (commit cacheKey b env)) = calls (world env) /\
  logs (world (commit cacheKey b env)) = logs (world env) /\
  stdout (world (commit cacheKey b env)) = stdout (world env) /\
  captured (commit cacheKey b env) = captured env /\
  match DumpResponse (http.withBody (captured env) b) true with
  | inl respBytes =>
      cache (world (commit cacheKey b env)) !! cacheKey = Some respBytes
  | inr _ => commit cacheKey b env = env
  end.
Proof.
  intros Hne. unfold commitOnEOF.
  destruct (DumpResponse (http.withBody (captured env) b) true) as [bs|e];
    cbn; repeat split; auto.
  - now apply lookup_insert_ne.
  - apply lookup_insert_eq.
Qed.


(** A copy that does not end on [io.EOF] changes nothing. *)
Lemma copyBody_no_commit (respM : http.Response (Body RState)) c sizes tr
    (respE : http.Response (Body RState)) w w' :
  http.Body respM = cachingBody c ->
  copyBody respM sizes w = (tr, respE, w') ->
  lastError tr <> Some io_EOF ->
  w' = w.
Proof.
  intros Hbody Hcopy Hlast.
  unfold copyBody in Hcopy. rewrite Hbody, drain_drainR in Hcopy.
  pose proof (drainR_snapshots (R c) sizes (buf c)) as Hsnap.
  destruct (drainR (R c) sizes) as [tr0 s]. cbn [fst] in Hsnap.
  injection Hcopy as <- _ <-. rewrite Hsnap.
  destruct (lastError tr0) as [[|msg]|]; try contradiction; reflexivity.
Qed.
End Commits.

(** ** The other decisions of RoundTrip *)

Section OtherDecisions.
Context {RState : Type} `{ReadCloser RState}.
Variable ReadResponse :
  list byte -> http.Request -> http.Response (list byte) + error.
Variable DumpResponse :
  http.Response (list byte) -> bool -> list byte + error.
Variable ParseTime : string -> Z + error.
Variable flags : Flags.

Local Abbreviation roundTrip := (RoundTrip ReadResponse DumpResponse ParseTime flags).
Local Abbreviation teed := (teed DumpResponse).

Implicit Types (t : cachingTransport RState) (req : http.Request)
  (u : url.URL) (w : World).

(** X8.  A GET with a cache configured whose path has no entry is a
    miss: the transport is called once, the cache is not changed, and the
    response comes back with its body wrapped so that it is stored under
    the path once copied to the end; the record says CACHE_MISS, or ERROR
    when the call fails, and then there is no response. *)
Theorem missing_key_is_a_miss t req u now w :
  http.URL req = Some u -> http.Method req = "GET" -> is_Some (Cache t) ->
  cache w !! url.Path u = None ->
  roundTrip t req now w =
    match Transport t req (length (calls w)) with
    | inl r =>
        (Returned (Some (teed (url.Path u) r), None),
         log_Print (called w req)
                   (audit u req "CACHE_MISS" (Some (http.StatusCode r))))
    | inr err =>
        (Returned (None, Some err),
         log_Print (called w req) (audit u req "ERROR" None))
    end.
Proof.
  intros Hu Hm Hc Hnone.
  rewrite (RoundTrip_lookup _ _ _ _ _ _ _ _ _ Hu Hm Hc).
  unfold cachedResponse. rewrite Hnone. apply fetch_cacheable.
Qed.

(** X9.  A GET with a cache configured whose stored entry cannot be read
    as a response does not fail: a message goes to the standard output,
    the transport is called once and its answer is returned with the body
    wrapped.  The unreadable entry is left in the cache, and the record
    of a successful fetch carries no decision at all. *)
Theorem unreadable_entry_is_fetched t req u now w val err :
  http.URL req = Some u -> http.Method req = "GET" -> is_Some (Cache t) ->
  cache w !! url.Path u = Some val ->
  ReadResponse val req = inr err ->
  roundTrip t req now w =
    (let w1 := called (fmt_Printf w "Failed to read cached response") req in
     match Transport t req (length (calls w)) with
     | inl r =>
         (Returned (Some (teed (url.Path u) r), None),
          log_Print w1 (audit u req "" (Some (http.StatusCode r))))
     | inr err =>
         (Returned (None, Some err), log_Print w1 (audit u req "ERROR" None))
     end) /\
  cache (snd (roundTrip t req now w)) !! url.Path u = Some val /\
  stdout (snd (roundTrip t req now w)) =
    stdout w ++ ["Failed to read cached response"].
Proof.
  intros Hu Hm Hc Hval Herr.
  rewrite (RoundTrip_lookup _ _ _ _ _ _ _ _ _ Hu Hm Hc).
  unfold cachedResponse. rewrite Hval, Herr, fetch_cacheable.
  cbn [calls fmt_Printf].
  destruct (Transport t req (length (calls w))); repeat split; assumption.
Qed.

(** X10.  Without a cache a GET is passed through: the transport is
    called once, whatever the cache directory of the world holds is
    neither read nor changed, and the body comes back unwrapped, so that
    copying it stores nothing. *)
Theorem get_without_cache_passes_through t req u now w :
  http.URL req = Some u -> http.Method req = "GET" -> Cache t = None ->
  roundTrip t req now w =
    match Transport t req (length (calls w)) with
    | inl r =>
        (Returned (Some (http.withBody r (streamBody (http.Body r))), None),
         log_Print (called w req)
                   (audit u req "PASSTHROUGH" (Some (http.StatusCode r))))
    | inr err =>
        (Returned (None, Some err),
         log_Print (called w req) (audit u req "ERROR" None))
    end /\
  cache (snd (roundTrip t req now w)) = cache w /\
  (forall r sizes w1,
      snd (copyBody (http.withBody r (streamBody (http.Body r))) sizes w1) = w1).
Proof.
  intros Hu Hm Hc.
  assert (Hrt : roundTrip t req now w =
    fetch DumpResponse t u req false (url.Path u) "PASSTHROUGH" w).
  { unfold RoundTrip. rewrite Hu, Hm, Hc.
    replace (String.eqb "GET" http.MethodGet) with true by reflexivity.
    replace (bool_decide (is_Some (@None httpcache_Cache))) with false.
    - cbn [andb]. now rewrite orb_true_r.
    - symmetry. apply bool_decide_eq_false_2. intros [? ?]; discriminate. }
  rewrite Hrt. unfold fetch.
  destruct (Transport t req (length (calls w))); repeat split.
  all: intros r0 sizes w1; unfold copyBody; cbn [http.Body http.withBody];
    destruct (drainR _ sizes); reflexivity.
Qed.

(** X11.  A request whose method is neither GET nor PUT is dropped,
    whether or not writes are allowed and whether or not there is a
    cache: the transport is not called, the cache is not changed, and the
    answer is the 405 response, without an error. *)
Theorem other_methods_are_dropped t req u now w :
  http.URL req = Some u ->
  http.Method req <> "GET" -> http.Method req <> "PUT" ->
  ReadResponse (list_byte_of_string droppedRaw) req = inl methodNotAllowed ->
  roundTrip t req now w =
    (Returned (Some (served methodNotAllowed), None),
     log_Print w (audit u req "DROP" (Some 405))).
Proof.
  intros Hu Hget Hput H405. unfold RoundTrip. rewrite Hu.
  apply String.eqb_neq in Hget, Hput. unfold http.MethodGet, http.MethodPut.
  rewrite Hget, Hput. cbn [andb orb].
  unfold newDroppedResponse. rewrite H405. reflexivity.
Qed.

(** X12.  After a refresh the old entry is gone for good.  Take a GET
    that finds a stored entry other than a 200 older than the refresh
    delay, and let the transport answer.  If the caller copies the body
    to end-of-data, the entry of the path is the dump of the new
    response; if the copy ends on any other error, the path has no entry
    at all: the old one is not put back. *)
Theorem refresh_replaces_or_loses_the_entry
    t req u now w resp date cachedAt r sizes tr
    (respE : http.Response (Body RState)) w2 :
  http.URL req = Some u -> http.Method req = "GET" -> is_Some (Cache t) ->
  cachedResponse ReadResponse (cache w) (url.Path u) req = (Some resp, None) ->
  http.index (http.Header_ resp) "Date" !! 0%nat = Some date ->
  ParseTime date = inl cachedAt ->
  http.StatusCode resp <> 200 ->
  time.minutes (cacheRefreshDelay flags) < now - cachedAt ->
  Transport t req (length (calls w)) = inl r ->
  copyBody (teed (url.Path u) r) sizes (snd (roundTrip t req now w))
    = (tr, respE, w2) ->
  fst (roundTrip t req now w) = Returned (Some (teed (url.Path u) r), None) /\
  (lastError tr <> Some io_EOF -> cache w2 !! url.Path u = None) /\
  (forall respBytes,
      lastError tr = Some io_EOF ->
      DumpResponse (http.withBody r (traceBytes tr)) true = inl respBytes ->
      cache w2 = <[url.Path u := respBytes]> (cache w)).
Proof.
  intros Hu Hm Hc Hl Hd Hp Hne Hold Hr Hcopy.
  assert (Hrt : roundTrip t req now w =
    (Returned (Some (teed (url.Path u) r), None),
     log_Print (called (Cache_Delete w (url.Path u)) req)
               (audit u req "CACHE_REFRESH" (Some (http.StatusCode r))))).
  { rewrite (RoundTrip_lookup _ _ _ _ _ _ _ _ _ Hu Hm Hc), Hl, Hd, Hp.
    apply Z.eqb_neq in Hne. apply Z.leb_gt in Hold. rewrite Hne, Hold.
    cbn [orb]. rewrite fetch_cacheable. cbn [calls Cache_Delete].
    now rewrite Hr. }
  rewrite Hrt in *. cbn [fst snd] in *. split; [reflexivity|]. split.
  - intros Hlast.
    assert (Hw2 : w2 = log_Print (called (Cache_Delete w (url.Path u)) req)
                     (audit u req "CACHE_REFRESH" (Some (http.StatusCode r)))).
    { eapply (copyBody_no_commit (teed (url.Path u) r));
        [reflexivity | exact Hcopy | exact Hlast]. }
    rewrite Hw2. cbn. apply lookup_delete_eq.
  - intros respBytes Hlast Hdump.
    assert (Hw2 : w2 = Cache_Set
                     (log_Print (called (Cache_Delete w (url.Path u)) req)
                        (audit u req "CACHE_REFRESH" (Some (http.StatusCode r))))
                     (url.Path u) respBytes).
    { eapply (copyBody_commits DumpResponse (teed (url.Path u) r) _ (url.Path u));
        [reflexivity | reflexivity | reflexivity | exact Hcopy
        | exact Hlast | exact Hdump]. }
    rewrite Hw2. cbn. apply insert_delete_eq.
Qed.
End OtherDecisions.

(** ** Keys *)

Section KeyFacts.
Import strings.
Variable cutset : string.

Lemma append_Empty_r (s : string) : s +:+ "" = s.
Proof. induction s as [|a s IH]; [reflexivity|]. now rewrite append_String, IH. Qed.

Lemma append_assoc (a b c : string) : (a +:+ b) +:+ c = a +:+ (b +:+ c).
Proof.
  induction a as [|x a IH]; [reflexivity|]. now rewrite !append_String, IH.
Qed.

Lemma TrimRight_allIn r : allIn cutset r = true -> TrimRight r cutset = "".
Proof.
  induction r as [|a r IH]; [reflexivity|]. simpl.
  intros [Ha Hr]%andb_prop. now rewrite (IH Hr), Ha.
Qed.

Lemma TrimRight_app_r s r :
  allIn cutset r = true -> TrimRight (s +:+ r) cutset = TrimRight s cutset.
Proof.
  intros Hr. induction s as [|a s IH].
  - rewrite append_Empty. now apply TrimRight_allIn.
  - rewrite append_String. simpl. now rewrite IH.
Qed.

Lemma TrimRight_app_l l t :
  allIn cutset l = true ->
  TrimRight (l +:+ t) cutset =
    match TrimRight t cutset with
    | "" => ""
    | _ => l +:+ TrimRight t cutset
    end.
Proof.
  induction l as [|a l IH]; intros Hl.
  - rewrite append_Empty. now destruct (TrimRight t cutset).
  - simpl in Hl. apply andb_prop in Hl as [Ha Hl].
    rewrite append_String. simpl. rewrite (IH Hl).
    destruct (TrimRight t cutset) as [|b t'] eqn:E.
    + now rewrite Ha.
    + rewrite append_String.
      destruct l; [rewrite append_Empty|rewrite append_String]; reflexivity.
Qed.

Lemma TrimLeft_app_l l t :
  allIn cutset l = true -> TrimLeft (l +:+ t) cutset = TrimLeft t cutset.
Proof.
  induction l as [|a l IH]; intros Hl; [reflexivity|].
  simpl in Hl. apply andb_prop in Hl as [Ha Hl].
  rewrite append_String. simpl. now rewrite Ha, IH.
Qed.

Lemma Trim_app l s r :
  allIn cutset l = true -> allIn cutset r = true ->
  Trim (l +:+ s +:+ r) cutset = Trim s cutset.
Proof.
  intros Hl Hr. unfold Trim.
  rewrite (TrimRight_app_l l _ Hl), (TrimRight_app_r s r Hr).
  destruct (TrimRight s cutset) as [|b t] eqn:E; [reflexivity|].
  now apply TrimLeft_app_l.
Qed.

Lemma Trim_idempotent s : Trim (Trim s cutset) cutset = Trim s cutset.
Proof.
  destruct (Trim_split cutset s) as (l & r & Hs & Hl & Hr).
  rewrite Hs at 2. symmetry. now apply Trim_app.
Qed.

Lemma first_app (a b : string) :
  a <> "" -> first (a +:+ b) = first a.
Proof. destruct a; [congruence|reflexivity]. Qed.

Lemma last_app (a b : string) :
  b <> "" -> last (a +:+ b) = last b.
Proof.
  intros Hb. induction a as [|x a IH]; [reflexivity|].
  rewrite append_String. simpl. rewrite IH.
  destruct (a +:+ b) eqn:E; [|reflexivity].
  destruct a; [rewrite append_Empty in E; congruence|discriminate].
Qed.
End KeyFacts.

(** X13.  The effective key does not depend on the slashes around the
    path: adding slashes in front of the path or behind it gives the same
    key, and trimming a trimmed path changes nothing. *)
Theorem effectiveKey_ignores_outer_slashes (prefix path l r : string) :
  strings.allIn "/" l = true -> strings.allIn "/" r = true ->
  effectiveKey prefix (l +:+ path +:+ r) = effectiveKey prefix path /\
  effectiveKey prefix (strings.Trim path "/") = effectiveKey prefix path.
Proof.
  intros Hl Hr. unfold effectiveKey.
  now rewrite (Trim_app "/" l path r Hl Hr), Trim_idempotent.
Qed.

(** X14.  A director made by [newS3Director] only produces keys that
    neither begin nor end with a slash, whatever the backend URL and the
    request path; the key is empty only if both the prefix and the path
    are nothing but slashes. *)
Theorem director_keys_have_no_outer_slash (backendURL : url.URL) (path : string) :
  let key := effectiveKey (prefix (newS3Director backendURL)) path in
  strings.notInCutset "/" (strings.first key) = true /\
  strings.notInCutset "/" (strings.last key) = true /\
  (key = "" <->
   strings.allIn "/" (url.Path backendURL) = true /\ strings.allIn "/" path = true).
Proof.
  cbn [newS3Director prefix].
  pose proof (Trim_ends "/" (url.Path backendURL)) as [Hp1 Hp2].
  pose proof (Trim_ends "/" path) as [Hu1 Hu2].
  assert (Hempty : forall s, strings.Trim s "/" = "" <-> strings.allIn "/" s = true).
  { intros s. split.
    - intros E. destruct (Trim_split "/" s) as (l & r & Hs & Hl & Hr).
      rewrite E, append_Empty in Hs. rewrite Hs.
      clear - Hl Hr. induction l as [|a l IH]; [exact Hr|].
      simpl in Hl. apply andb_prop in Hl as [Ha Hl].
      rewrite append_String. simpl. now rewrite Ha, IH.
    - intros Hs. unfold strings.Trim. now rewrite TrimRight_allIn. }
  unfold effectiveKey.
  destruct (String.eqb_spec (strings.Trim (url.Path backendURL) "/") "") as [Ep|Ep].
  - repeat split; auto.
    + apply Hempty. exact Ep.
    + apply Hempty. assumption.
    + intros [_ Hs]. now apply Hempty.
  - destruct (String.eqb_spec (strings.Trim path "/") "") as [Eu|Eu].
    + repeat split; auto; try (intros E; congruence).
      intros [Hs _]. apply Hempty in Hs. congruence.
    + split; [|split; [|split]].
      * now rewrite first_app.
      * rewrite last_app; [|destruct (strings.Trim path "/"); discriminate].
        rewrite last_app; auto.
      * intros E.
        destruct (strings.Trim (url.Path backendURL) "/"); [congruence|discriminate].
      * intros [Hs _]. apply Hempty in Hs. congruence.
Qed.

(** ** The director and what follows it *)

(** X15.  A request whose method is neither GET nor PUT ends the process
    in [Direct], before anything is presigned: the outcome does not
    depend on the client. *)
Theorem unsupported_method_exits_in_Direct
    (Presign : S3Request -> Z -> string + error)
    (url_Parse : string -> url.URL + error)
    (s : s3Director) (r : http.Request) (u : url.URL) :
  http.URL r = Some u ->
  http.Method r <> "GET" -> http.Method r <> "PUT" ->
  Direct Presign url_Parse s r = Exited "Unsupported method: %s" /\
  processAlive (Direct Presign url_Parse s r) = false.
Proof.
  intros Hu Hget Hput. unfold Direct, s3Request. rewrite Hu.
  apply String.eqb_neq in Hget, Hput. unfold http.MethodGet, http.MethodPut.
  now rewrite Hget, Hput.
Qed.

(** X16.  When presigning succeeds, [Direct] has asked for a URL valid
    for ten minutes (600000000000 nanoseconds) for a GetObject (for GET)
    or a PutObject (for PUT) on the director's bucket and the effective
    key of the path; the request goes on with its method, with the parsed
    presigned URL as its URL, nil if it does not parse, and with an empty
    Host. *)
Theorem Direct_rewrites_to_the_presigned_url
    (Presign : S3Request -> Z -> string + error)
    (url_Parse : string -> url.URL + error)
    (s : s3Director) (r : http.Request) (u : url.URL)
    (op : S3Operation) (purl : string) :
  http.URL r = Some u ->
  (http.Method r = "GET" /\ op = GetObject) \/
  (http.Method r = "PUT" /\ op = PutObject) ->
  Presign {| Operation := op; Bucket := bucket s;
             Key := effectiveKey (prefix s) (url.Path u) |}
          600000000000 = inl purl ->
  Direct Presign url_Parse s r =
    Returned {| http.Method := http.Method r;
                http.URL := match url_Parse purl with
                            | inl u' => Some u'
                            | inr _ => None
                            end;
                http.Host := "" |}.
Proof.
  intros Hu Hm Hp. unfold Direct, s3Request. rewrite Hu.
  change (10 * time.Minute) with 600000000000.
  destruct Hm as [[Hm ->]|[Hm ->]]; rewrite Hm; cbn; now rewrite Hp.
Qed.

(** X17.  [Direct] ignores the error of [url.Parse].  When the presigned
    URL does not parse, the request leaves [Direct] with a nil URL, and
    [RoundTrip] on it panics on its first line: nothing is logged, the
    transport is not called, the cache is not touched. *)
Theorem unparsable_presigned_url_panics_in_RoundTrip
    {RState : Type}
    (Presign : S3Request -> Z -> string + error)
    (url_Parse : string -> url.URL + error)
    ReadResponse DumpResponse ParseTime flags
    (s : s3Director) (r : http.Request) (u : url.URL) (q : S3Request)
    (purl : string) (err : error)
    (t : cachingTransport RState) (now : Z) (w : World) :
  http.URL r = Some u ->
  s3Request s (http.Method r) (effectiveKey (prefix s) (url.Path u)) = Some q ->
  Presign q (10 * time.Minute) = inl purl ->
  url_Parse purl = inr err ->
  exists r',
    Direct Presign url_Parse s r = Returned r' /\
    http.URL r' = None /\
    RoundTrip ReadResponse DumpResponse ParseTime flags t r' now w =
      (Panicked "invalid memory address or nil pointer dereference", w).
Proof.
  intros Hu Hq Hp Hparse. unfold Direct. rewrite Hu, Hq, Hp, Hparse.
  eexists. repeat split.
Qed.

(** ** Startup *)

(** X18.  [main] stops the process when no backend is given or when the
    backend does not parse.  Otherwise the server it builds never listens
    on all interfaces by omission (its address does not begin with a
    colon: a bare port gets 127.0.0.1 in front), has a cache exactly when
    a cache directory is given, and directs to S3 exactly when the scheme
    of the backend is s3, with the host as bucket and the trimmed path as
    prefix. *)
Theorem main_startup
    {RState : Type}
    (http_DefaultTransport : RoundTripper RState)
    (rehttp_NewTransport : RoundTripper RState -> Z -> RoundTripper RState)
    (url_Parse : string -> url.URL + error) (flags : Flags) :
  match main http_DefaultTransport rehttp_NewTransport url_Parse flags with
  | Returned srv =>
      backend flags <> "" /\
      strings.HasPrefix (Addr srv) ":" = false /\
      (Addr srv = bind flags \/ Addr srv = "127.0.0.1" +:+ bind flags) /\
      (Cache (HandlerTransport srv) = None <-> cacheDir flags = "") /\
      exists backendURL,
        url_Parse (backend flags) = inl backendURL /\
        HandlerDirector srv =
          if String.eqb (url.Scheme backendURL) "s3"
          then s3Direct {| bucket := url.Host backendURL;
                           prefix := strings.Trim (url.Path backendURL) "/" |}
          else singleHostReverseProxy backendURL
  | Exited _ =>
      backend flags = "" \/ exists err, url_Parse (backend flags) = inr err
  | Panicked _ => False
  end.
Proof.
  unfold main.
  destruct (String.eqb_spec (backend flags) "") as [Eb|Eb]; [now left|].
  destruct (url_Parse (backend flags)) as [backendURL|err]; [|right; eauto].
  cbn [Addr HandlerTransport HandlerDirector Cache].
  split; [assumption|]. split; [|split; [|split]].
  - unfold strings.HasPrefix.
    destruct (String.prefix ":" (bind flags)) eqn:E; [reflexivity|exact E].
  - unfold strings.HasPrefix. destruct (String.prefix ":" (bind flags)); auto.
  - destruct (String.eqb_spec (cacheDir flags) "") as [Ec|Ec]; cbn [negb].
    + tauto.
    + split; [discriminate|contradiction].
  - eexists. split; reflexivity.
Qed.

(** ** The refresh delay as an int64 *)

(** X19.  The refresh delay in nanoseconds is the flag times sixty
    thousand million exactly when the flag is between -153722867 and
    153722867 minutes; beyond that the int64 product wraps around.  It
    always is an int64, congruent to the product modulo 2^64. *)
Theorem refresh_delay_exact_iff_in_range (n : Z) :
  (time.minutes n = n * 60000000000 <-> -153722867 <= n <= 153722867) /\
  - 2^63 <= time.minutes n < 2^63 /\
  (time.minutes n - n * 60000000000) mod 2^64 = 0.
Proof.
  unfold time.minutes, wrap64.
  change time.Minute with 60000000000.
  pose proof (Z.mod_pos_bound (n * 60000000000 + 2^63) (2^64) ltac:(lia)) as Hb.
  pose proof (Z.div_mod (n * 60000000000 + 2^63) (2^64) ltac:(lia)) as Hdm.
  split; [|split].
  - split.
    + intros E. assert (Hr : - 2^63 <= n * 60000000000 < 2^63) by lia. lia.
    + intros Hr. rewrite Z.mod_small; lia.
  - lia.
  - replace ((n * 60000000000 + 2^63) mod 2^64 - 2^63 - n * 60000000000)
      with (- ((n * 60000000000 + 2^63) / 2^64) * 2^64) by lia.
    apply Z.mod_mul. lia.
Qed.

(** ** A download that breaks *)

Section BrokenDownload.
Context {RState : Type} `{ReadCloser RState}.
Variable ReadResponse :
  list byte -> http.Request -> http.Response (list byte) + error.
Variable DumpResponse :
  http.Response (list byte) -> bool -> list byte + error.
Variable ParseTime : string -> Z + error.
Variable flags : Flags.

Local Abbreviation roundTrip := (RoundTrip ReadResponse DumpResponse ParseTime flags).
Local Abbreviation teed := (teed DumpResponse).

(** X20.  A download that breaks is asked for again.  After a miss whose
    body copy ends on an error other than [io.EOF], the cache is as it
    was before the request, and the same GET, whenever it comes, misses
    again and calls the transport a second time. *)
Theorem broken_download_is_fetched_again
    (t : cachingTransport RState) (req : http.Request) (u : url.URL)
    (now now2 : Z) (w : World) (r : http.Response RState) (sizes : list nat)
    (tr : list (list byte * option error))
    (respE : http.Response (Body RState)) (w2 : World) :
  http.URL req = Some u -> http.Method req = "GET" -> is_Some (Cache t) ->
  cache w !! url.Path u = None ->
  Transport t req (length (calls w)) = inl r ->
  copyBody (teed (url.Path u) r) sizes (snd (roundTrip t req now w))
    = (tr, respE, w2) ->
  lastError tr <> Some io_EOF ->
  fst (roundTrip t req now w) = Returned (Some (teed (url.Path u) r), None) /\
  cache w2 = cache w /\
  calls (snd (roundTrip t req now2 w2)) = calls w ++ [req; req] /\
  cache (snd (roundTrip t req now2 w2)) = cache w.
Proof.
  intros Hu Hm Hc Hnone Hr Hcopy Hlast.
  assert (Hmiss : forall now w, cache w !! url.Path u = None ->
    roundTrip t req now w =
      fetch DumpResponse t u req true (url.Path u) "CACHE_MISS" w).
  { intros now0 w0 Hn. rewrite (RoundTrip_lookup _ _ _ _ _ _ _ _ _ Hu Hm Hc).
    unfold cachedResponse. now rewrite Hn. }
  rewrite (Hmiss now w Hnone), fetch_cacheable, Hr in *. cbn [fst snd] in *.
  assert (Hw2 : w2 = log_Print (called w req)
                   (audit u req "CACHE_MISS" (Some (http.StatusCode r)))).
  { eapply (copyBody_no_commit (teed (url.Path u) r));
      [reflexivity | exact Hcopy | exact Hlast]. }
  subst w2. split; [reflexivity|]. split; [reflexivity|].
  rewrite (Hmiss now2 (log_Print (called w req)
                         (audit u req "CACHE_MISS" (Some (http.StatusCode r))))
                 Hnone).
  pose proof (fetch_calls DumpResponse t u req true
                (url.Path u) "CACHE_MISS"
                (log_Print (called w req)
                   (audit u req "CACHE_MISS" (Some (http.StatusCode r)))))
    as [Hcalls Hcache].
  rewrite Hcalls, Hcache. cbn. split; [|reflexivity].
  now rewrite <- app_assoc.
Qed.
End BrokenDownload.

(** ** Worked cases for the further properties *)

Lemma commit_touches_only_its_key_witness :
  cache (world (commitOnEOF Sample.DumpResponse "/y" (Sample.bytes "artifact")
                            More.someEnv)) !! "/x"
    = Some (Sample.dump Sample.notFound) /\
  cache (world (commitOnEOF Sample.DumpResponse "/y" (Sample.bytes "artifact")
                            More.someEnv)) !! "/y"
    = Some (Sample.dump Sample.found).
Proof.
  pose proof (commit_touches_only_its_key Sample.DumpResponse "/y"
                (Sample.bytes "artifact") More.someEnv "/x" ltac:(discriminate))
    as (H1 & _ & _ & _ & _ & H6).
  split.
  - rewrite H1. vm_compute. reflexivity.
  - exact H6.
Defined.


Lemma missing_key_is_a_miss_witness :
  Sample.RoundTrip defaultFlags Cases.origin Cases.getX 0 Sample.emptyWorld =
    (Returned (Some Cases.first, None), Cases.afterFirst).
Proof.
  refine (missing_key_is_a_miss
            Sample.ReadResponse Sample.DumpResponse Sample.ParseTime defaultFlags
            Cases.origin Cases.getX Cases.urlX 0 Sample.emptyWorld
            eq_refl eq_refl _ eq_refl).
  eexists; reflexivity.
Defined.

Lemma unreadable_entry_is_fetched_witness :
  cache (snd (Sample.RoundTrip defaultFlags Cases.origin Cases.getX 0 More.junk))
    !! "/x" = Some (Sample.bytes "junk") /\
  stdout (snd (Sample.RoundTrip defaultFlags Cases.origin Cases.getX 0 More.junk))
    = [] ++ ["Failed to read cached response"].
Proof.
  refine (proj2 (unreadable_entry_is_fetched
            Sample.ReadResponse Sample.DumpResponse Sample.ParseTime defaultFlags
            Cases.origin Cases.getX Cases.urlX 0 More.junk
            (Sample.bytes "junk") (errorString "malformed HTTP response")
            eq_refl eq_refl _ _ _)).
  - eexists; reflexivity.
  - vm_compute; reflexivity.
  - vm_compute; reflexivity.
Defined.

Lemma get_without_cache_passes_through_witness :
  Sample.RoundTrip defaultFlags More.uncached Cases.getX 0
                   (Cases.stored Sample.notFound) =
    (Returned (Some (http.withBody Cases.answer
                       (streamBody (http.Body Cases.answer))), None),
     log_Print (called (Cases.stored Sample.notFound) Cases.getX)
               (audit Cases.urlX Cases.getX "PASSTHROUGH" (Some 404))).
Proof.
  refine (proj1 (get_without_cache_passes_through
            Sample.ReadResponse Sample.DumpResponse Sample.ParseTime defaultFlags
            More.uncached Cases.getX Cases.urlX 0 (Cases.stored Sample.notFound)
            eq_refl eq_refl eq_refl)).
Defined.

Lemma other_methods_are_dropped_witness :
  Sample.RoundTrip Cases.writable Cases.origin More.postX 0 Sample.emptyWorld =
    (Returned (Some (served methodNotAllowed), None),
     log_Print Sample.emptyWorld (audit Cases.urlX More.postX "DROP" (Some 405))).
Proof.
  refine (other_methods_are_dropped
            Sample.ReadResponse Sample.DumpResponse Sample.ParseTime Cases.writable
            Cases.origin More.postX Cases.urlX 0 Sample.emptyWorld
            eq_refl _ _ _).
  - discriminate.
  - discriminate.
  - vm_compute; reflexivity.
Defined.

Lemma refresh_replaces_or_loses_the_entry_witness :
  cache (snd More.refreshedCopy) =
    <["/x" := Sample.dump Sample.found]> (cache More.stale) /\
  cache (snd More.refreshedBadlyCopy) !! "/x" = None.
Proof.
  split.
  - refine (proj2 (proj2 (refresh_replaces_or_loses_the_entry
              Sample.ReadResponse Sample.DumpResponse Sample.ParseTime defaultFlags
              More.restocked Cases.getX Cases.urlX (Cases.at_minutes 61) More.stale
              Sample.notFound Sample.epoch 0 More.wholeAnswer More.threeReads
              (fst (fst More.refreshedCopy)) (snd (fst More.refreshedCopy))
              (snd More.refreshedCopy)
              eq_refl eq_refl _ _ _ eq_refl _ _ eq_refl _))
              (Sample.dump Sample.found) _ _).
    + eexists; reflexivity.
    + vm_compute; reflexivity.
    + vm_compute; reflexivity.
    + vm_compute. discriminate.
    + apply Z.ltb_lt. vm_compute. reflexivity.
    + vm_compute; reflexivity.
    + vm_compute; reflexivity.
    + vm_compute; reflexivity.
  - refine (proj1 (proj2 (refresh_replaces_or_loses_the_entry
              Sample.ReadResponse Sample.DumpResponse Sample.ParseTime defaultFlags
              More.fragile Cases.getX Cases.urlX (Cases.at_minutes 61) More.stale
              Sample.notFound Sample.epoch 0 More.brokenAnswer More.threeReads
              (fst (fst More.refreshedBadlyCopy)) (snd (fst More.refreshedBadlyCopy))
              (snd More.refreshedBadlyCopy)
              eq_refl eq_refl _ _ _ eq_refl _ _ eq_refl _)) _).
    + eexists; reflexivity.
    + vm_compute; reflexivity.
    + vm_compute; reflexivity.
    + vm_compute. discriminate.
    + apply Z.ltb_lt. vm_compute. reflexivity.
    + vm_compute; reflexivity.
    + vm_compute. discriminate.
Defined.

Lemma broken_download_is_fetched_again_witness :
  cache (snd More.missedCopy) = ∅ /\
  calls (snd (Sample.RoundTrip defaultFlags More.fragile Cases.getX
                               (Cases.at_minutes 5) (snd More.missedCopy)))
    = [] ++ [Cases.getX; Cases.getX].
Proof.
  pose proof (broken_download_is_fetched_again
            Sample.ReadResponse Sample.DumpResponse Sample.ParseTime defaultFlags
            More.fragile Cases.getX Cases.urlX 0 (Cases.at_minutes 5)
            Sample.emptyWorld More.brokenAnswer More.threeReads
            (fst (fst More.missedCopy)) (snd (fst More.missedCopy))
            (snd More.missedCopy)
            eq_refl eq_refl ltac:(eexists; reflexivity) eq_refl eq_refl
            ltac:(vm_compute; reflexivity) ltac:(vm_compute; discriminate))
    as (_ & H2 & H3 & _).
  split; [exact H2 | exact H3].
Defined.

Lemma effectiveKey_ignores_outer_slashes_witness :
  effectiveKey "prefix" ("//" +:+ "ab/cd12" +:+ "/") = effectiveKey "prefix" "ab/cd12".
Proof.
  exact (proj1 (effectiveKey_ignores_outer_slashes "prefix" "ab/cd12" "//" "/"
                  eq_refl eq_refl)).
Defined.

Lemma unsupported_method_exits_in_Direct_witness :
  Direct Sample.signs Sample.url_Parse Sample.director (Sample.request "POST" "/ab/cd12")
    = Exited "Unsupported method: %s".
Proof.
  refine (proj1 (unsupported_method_exits_in_Direct
            Sample.signs Sample.url_Parse Sample.director
            (Sample.request "POST" "/ab/cd12")
            {| url.Scheme := "http"; url.Host := "backend";
               url.Path := "/ab/cd12"; url.RawQuery := "" |}
            eq_refl _ _)); discriminate.
Defined.

Lemma Direct_rewrites_to_the_presigned_url_witness :
  Direct Sample.signs Sample.url_Parse Sample.director (Sample.request "PUT" "/ab/cd12/")
    = Returned {| http.Method := "PUT";
                  http.URL := Some {| url.Scheme := "https"; url.Host := "mybucket";
                                      url.Path := "/prefix/ab/cd12";
                                      url.RawQuery := "" |};
                  http.Host := "" |}.
Proof.
  exact (Direct_rewrites_to_the_presigned_url
           Sample.signs Sample.url_Parse Sample.director
           (Sample.request "PUT" "/ab/cd12/")
           {| url.Scheme := "http"; url.Host := "backend";
              url.Path := "/ab/cd12/"; url.RawQuery := "" |}
           PutObject "https://mybucket/prefix/ab/cd12"
           eq_refl (or_intror (conj eq_refl eq_refl)) eq_refl).
Defined.

Lemma unparsable_presigned_url_panics_in_RoundTrip_witness :
  exists r',
    Direct More.garbled Sample.url_Parse Sample.director
           (Sample.request "GET" "/ab/cd12") = Returned r' /\
    http.URL r' = None /\
    Sample.RoundTrip defaultFlags Cases.origin r' 0 Sample.emptyWorld =
      (Panicked "invalid memory address or nil pointer dereference",
       Sample.emptyWorld).
Proof.
  exact (unparsable_presigned_url_panics_in_RoundTrip
           More.garbled Sample.url_Parse
           Sample.ReadResponse Sample.DumpResponse Sample.ParseTime defaultFlags
           Sample.director (Sample.request "GET" "/ab/cd12")
           {| url.Scheme := "http"; url.Host := "backend";
              url.Path := "/ab/cd12"; url.RawQuery := "" |}
           {| Operation := GetObject; Bucket := "mybucket"; Key := "prefix/ab/cd12" |}
           "not a url" (errorString "missing protocol scheme")
           Cases.origin 0 Sample.emptyWorld
           eq_refl eq_refl eq_refl eq_refl).
Defined.
